(** * Dozenal: base-12 converter and expression calculator

    A shallow embedding of [src/dozenal/dozenal_decimal_converter.py] and
    [src/dozenal/dozenal_calc.py], with the theorems that settle the
    specification's claims about them.

    Conventions of the embedding:
    - a Python [int] is a [Z]; a Python [str] is a [string] of ASCII
      characters (the program's alphabet, operators and blanks are ASCII);
    - a raised exception is the [Error] branch of [result], one constructor
      of [exception] per [raise] site or library signal;
    - [decimal.Decimal] is modelled by [PyDecimal.Decimal] (finite values:
      sign, coefficient, exponent) with the arithmetic of the General
      Decimal Arithmetic specification under rounding ROUND_HALF_EVEN;
      the thread's context precision [getcontext().prec] is explicit state;
    - [fractions.Fraction] and a binary64 [float] are modelled by their
      exact integer ratios. *)

From Stdlib Require Import ZArith QArith Qround List String Ascii Bool Lia.
Import ListNotations.

Close Scope Q_scope.

Local Open Scope string_scope.
Local Open Scope Z_scope.

(** ** Exceptions and results *)

(** The two signals of [decimal] that the program can trap. *)
Inductive decimal_signal : Type :=
| DivisionUndefined      (* 0 / 0 *)
| DivisionImpossible.    (* quotient of // too large for the precision *)

Inductive exception : Type :=
(* dozenal_decimal_converter.py *)
| ValueError_empty_string             (* ValueError("empty string") *)
| ValueError_more_than_one_point      (* ValueError("invalid dozenal format: more than one decimal point") *)
| ValueError_invalid_digit (ch : ascii) (* ValueError(f"invalid dozenal digit: {ch!r}") *)
| IndexError_string_index             (* _DOZENAL_DIGITS[digit] out of range *)
(* dozenal_calc.py *)
| ValueError_expression_empty         (* ValueError("expression is empty") *)
| ValueError_negative_precision       (* ValueError("frac_precision must be non-negative") *)
| ValueError_unexpected_character (ch : ascii)
| ValueError_invalid_number           (* ValueError("invalid dozenal number in expression") *)
| ValueError_mismatched_parentheses
| ValueError_unexpected_token_kind
| ValueError_incomplete_expression
| ValueError_unsupported_operator (op : string)
| ValueError_not_single_value         (* "expression did not reduce to single value" *)
| KeyError_precedence (op : string)   (* _PRECEDENCE[value] on a missing key *)
| AssertionError
(* decimal *)
| DivisionByZero                      (* decimal.DivisionByZero: x / 0, x nonzero *)
| InvalidOperation (why : decimal_signal). (* decimal.InvalidOperation *)

(** The built-in class an exception is caught as. *)
Inductive exception_class : Type :=
| ValueError | IndexError | KeyError | AssertionErrorClass
| ZeroDivisionError     (* DivisionByZero derives from it *)
| ArithmeticErrorOther. (* InvalidOperation: an ArithmeticError, not a ZeroDivisionError *)

Definition class_of (e : exception) : exception_class :=
  match e with
  | IndexError_string_index => IndexError
  | KeyError_precedence _ => KeyError
  | AssertionError => AssertionErrorClass
  | DivisionByZero => ZeroDivisionError
  | InvalidOperation _ => ArithmeticErrorOther
  | _ => ValueError
  end.

Inductive result (A : Type) : Type :=
| Ok (a : A)
| Error (e : exception).
Arguments Ok {A} a.
Arguments Error {A} e.

Definition bind {A B : Type} (r : result A) (k : A -> result B) : result B :=
  match r with
  | Ok a => k a
  | Error e => Error e
  end.

Notation "'do' x <- r ; k" := (bind r (fun x => k))
  (at level 10, x name, r at level 99, k at level 200).
Notation "'do' ' p <- r ; k" := (bind r (fun x => let 'p := x in k))
  (at level 10, p pattern, r at level 99, k at level 200).

Definition is_ok {A : Type} (r : result A) : bool :=
  match r with Ok _ => true | Error _ => false end.

(** ** Python string built-ins used by the program *)

Module PyStr.

Definition chr (n : Z) : ascii := ascii_of_nat (Z.to_nat n).
Definition ord (c : ascii) : Z := Z.of_nat (nat_of_ascii c).

(** [str.isspace] on an ASCII character: TAB, LF, VT, FF, CR,
    FS, GS, RS, US and SPACE. *)
Definition isspace (c : ascii) : bool :=
  let n := ord c in
  ((9 <=? n) && (n <=? 13)) || ((28 <=? n) && (n <=? 32)).

(** [str.upper] on an ASCII character. *)
Definition upper_char (c : ascii) : ascii :=
  let n := ord c in
  if (97 <=? n) && (n <=? 122) then chr (n - 32) else c.

Fixpoint upper (s : string) : string :=
  match s with
  | EmptyString => EmptyString
  | String c s' => String (upper_char c) (upper s')
  end.

Fixpoint lstrip (s : string) : string :=
  match s with
  | EmptyString => EmptyString
  | String c s' => if isspace c then lstrip s' else s
  end.

Fixpoint rstrip (s : string) : string :=
  match s with
  | EmptyString => EmptyString
  | String c s' =>
      match rstrip s' with
      | EmptyString => if isspace c then EmptyString else String c EmptyString
      | r => String c r
      end
  end.

Definition strip (s : string) : string := rstrip (lstrip s).

(** [ch in s] for a one-character [ch]. *)
Fixpoint contains (s : string) (ch : ascii) : bool :=
  match s with
  | EmptyString => false
  | String c s' => Ascii.eqb c ch || contains s' ch
  end.

(** [s.index(ch)] when [ch in s]; the length of [s] otherwise. *)
Fixpoint index (s : string) (ch : ascii) : Z :=
  match s with
  | EmptyString => 0
  | String c s' => if Ascii.eqb c ch then 0 else 1 + index s' ch
  end.

(** [s.split(sep)] for a one-character separator: never empty. *)
Fixpoint split (sep : ascii) (s : string) : list string :=
  match s with
  | EmptyString => [EmptyString]
  | String c s' =>
      if Ascii.eqb c sep then EmptyString :: split sep s'
      else match split sep s' with
           | p :: ps => String c p :: ps
           | [] => [String c EmptyString]
           end
  end.

(** ["".join(chars)] for a list of one-character strings. *)
Definition join (chars : list ascii) : string := string_of_list_ascii chars.

(** [s[i]] for [0 <= i]: [None] is an IndexError. *)
Definition get (s : string) (i : Z) : option ascii :=
  if i <? 0 then None else String.get (Z.to_nat i) s.

Definition len (s : string) : Z := Z.of_nat (String.length s).

End PyStr.

(** ** The digit alphabet (dozenal_decimal_converter.py) *)

Definition _DOZENAL_DIGITS : string := "0123456789TE".

(** [_DOZENAL_DIGITS[i]]: Python indexes from the end for [-12 <= i < 0]
    and raises IndexError outside [-12 <= i < 12]. *)
Definition digits_getitem (i : Z) : result ascii :=
  let j := if i <? 0 then i + PyStr.len _DOZENAL_DIGITS else i in
  match PyStr.get _DOZENAL_DIGITS j with
  | Some c => Ok c
  | None => Error IndexError_string_index
  end.

(** [_DOZENAL_DIGITS[rem]] for a remainder of [divmod(n, 12)], which lies
    in [0, 12): the lookup cannot fail. *)
Definition digit_char (rem : Z) : ascii :=
  match PyStr.get _DOZENAL_DIGITS rem with
  | Some c => c
  | None => "0"%char
  end.

(** The [while n > 0] loop of [_int_to_base12]; [digits] grows by
    [append].  The loop runs once per base-12 digit of [n], so a fuel of
    one more than the binary length of [n] is never exhausted. *)
Fixpoint _int_to_base12_loop (fuel : nat) (n : Z) (digits : list ascii) : list ascii :=
  match fuel with
  | O => digits
  | S fuel' =>
      if 0 <? n then
        let rem := n mod 12 in
        let n := n / 12 in
        _int_to_base12_loop fuel' n (digits ++ [digit_char rem])%list
      else digits
  end.

Definition _int_to_base12 (n : Z) : string :=
  if n =? 0 then "0"
  else PyStr.join (rev (_int_to_base12_loop (S (Z.to_nat (Z.log2 n))) n [])).

(** [_int_from_base12]: the [for ch in s] loop with accumulator [total]. *)
Fixpoint _int_from_base12_loop (s : string) (total : Z) : result Z :=
  match s with
  | EmptyString => Ok total
  | String ch s' =>
      if negb (PyStr.contains _DOZENAL_DIGITS ch)
      then Error (ValueError_invalid_digit ch)
      else _int_from_base12_loop s' (total * 12 + PyStr.index _DOZENAL_DIGITS ch)
  end.

Definition _int_from_base12 (s : string) : result Z :=
  _int_from_base12_loop s 0.

(** ** decimal.Decimal

    Finite decimals [(-1)^sign * coefficient * 10^exponent] and the
    operations the program calls, each rounded to the context precision
    with ROUND_HALF_EVEN as the [decimal] module does.  NaN and the
    infinities cannot arise from the program's own arithmetic on finite
    operands (their signals are trapped and raise).  The exponent limits
    of the context (Emax = 999999, Emin = -999999), the upper limit on
    [prec] and the memory that a coefficient takes are not modelled. *)

Module PyDecimal.

Record Decimal : Type := mkDecimal {
  dsign : bool;   (* _sign: true for 1 (negative) *)
  dint  : N;      (* int(_int): the coefficient *)
  dexp  : Z       (* _exp *)
}.

Definition coeff (d : Decimal) : Z := Z.of_N (dint d).

Definition make (sign : bool) (c : Z) (e : Z) : Decimal :=
  mkDecimal sign (Z.to_N c) e.

(** [getcontext()]: only [prec] is read or written by the program. *)
Record context : Type := mkContext { prec : Z }.

Definition DefaultContext : context := mkContext 28.

(** [decimal.MAX_PREC] of a 64-bit build.  An assignment to
    [getcontext().prec] of a value outside [1, MAX_PREC] raises
    ValueError; the model of the assignment has no such failure, and a
    statement that lists the exceptions of a call bounds the precision
    by it. *)
Definition MAX_PREC : Z := 999999999999999999.

(** [len(str(n))] for [0 <= n]. *)
Fixpoint ndigits_aux (fuel : nat) (n : Z) : Z :=
  match fuel with
  | O => 1
  | S fuel' => if n <? 10 then 1 else 1 + ndigits_aux fuel' (n / 10)
  end.

Definition ndigits (n : Z) : Z := ndigits_aux (Z.to_nat (Z.log2 n)) n.

(** [self.adjusted()]. *)
Definition adjusted (d : Decimal) : Z := dexp d + ndigits (coeff d) - 1.

Definition is_zero (d : Decimal) : bool := coeff d =? 0.

(** [Decimal(n)] for an int [n]: exact. *)
Definition of_int (n : Z) : Decimal := make (n <? 0) (Z.abs n) 0.

(** The signed coefficient of [d] written at exponent [e <= dexp d]. *)
Definition scaled (d : Decimal) (e : Z) : Z :=
  (if dsign d then -1 else 1) * coeff d * 10 ^ (dexp d - e).

(** [_cmp]: numeric comparison; the two zeros are equal. *)
Definition cmp (a b : Decimal) : comparison :=
  let e := Z.min (dexp a) (dexp b) in
  Z.compare (scaled a e) (scaled b e).

Definition ltb (a b : Decimal) : bool :=
  match cmp a b with Lt => true | _ => false end.

Definition eqb (a b : Decimal) : bool :=
  match cmp a b with Eq => true | _ => false end.

(** Dropping the last [k >= 1] digits of the coefficient [c] with
    [_round_half_even]: up when the dropped part exceeds one half, or is
    exactly one half and the kept part is odd. *)
Definition round_half_even (c k : Z) : Z :=
  let q := c / 10 ^ k in
  let r := c mod 10 ^ k in
  let half := 5 * 10 ^ (k - 1) in
  if (half <? r) || ((r =? half) && Z.odd q) then q + 1 else q.

(** [_fix]: round to [prec] significant digits. *)
Definition _fix (p : Z) (d : Decimal) : Decimal :=
  if is_zero d then d
  else
    let exp_min := ndigits (coeff d) + dexp d - p in
    if dexp d <? exp_min then
      let c := round_half_even (coeff d) (exp_min - dexp d) in
      if p <? ndigits c
      then make (dsign d) (c / 10) (exp_min + 1)
      else make (dsign d) c exp_min
    else d.

Definition copy_abs (d : Decimal) : Decimal := mkDecimal false (dint d) (dexp d).
Definition copy_negate (d : Decimal) : Decimal :=
  mkDecimal (negb (dsign d)) (dint d) (dexp d).

(** [abs(d)]: [__abs__] rounds. *)
Definition abs (p : Z) (d : Decimal) : Decimal := _fix p (copy_abs d).

(** [_rescale] to an exponent [e <= dexp d]: pads with zeros. *)
Definition rescale_pad (d : Decimal) (e : Z) : Decimal :=
  if is_zero d then make (dsign d) 0 e
  else make (dsign d) (coeff d * 10 ^ (dexp d - e)) e.

(** [__add__].  For two nonzero operands Python first calls
    [_normalize], which replaces an operand far below the other's last
    kept digit by a sticky unit; that leaves the rounded sum as it is,
    and the model adds the operands exactly before rounding. *)
Definition add (p : Z) (a b : Decimal) : Decimal :=
  let exp := Z.min (dexp a) (dexp b) in
  if is_zero a && is_zero b then
    _fix p (make (dsign a && dsign b) 0 exp)
  else if is_zero a then
    _fix p (rescale_pad b (Z.max exp (dexp b - p - 1)))
  else if is_zero b then
    _fix p (rescale_pad a (Z.max exp (dexp a - p - 1)))
  else
    let t := scaled a exp + scaled b exp in
    if t =? 0 then _fix p (make false 0 exp)
    else _fix p (make (t <? 0) (Z.abs t) exp).

(** [__sub__]. *)
Definition sub (p : Z) (a b : Decimal) : Decimal := add p a (copy_negate b).

(** [__mul__]. *)
Definition mul (p : Z) (a b : Decimal) : Decimal :=
  _fix p (make (xorb (dsign a) (dsign b)) (coeff a * coeff b) (dexp a + dexp b)).

(** The [while exp < ideal_exp and coeff % 10 == 0] loop of
    [__truediv__]; it runs at most [ideal_exp - exp] times. *)
Fixpoint strip_zeros (fuel : nat) (c exp ideal_exp : Z) : Z * Z :=
  match fuel with
  | O => (c, exp)
  | S fuel' =>
      if (exp <? ideal_exp) && (c mod 10 =? 0)
      then strip_zeros fuel' (c / 10) (exp + 1) ideal_exp
      else (c, exp)
  end.

(** [__truediv__]. *)
Definition truediv (p : Z) (a b : Decimal) : result Decimal :=
  let sign := xorb (dsign a) (dsign b) in
  if is_zero b then
    if is_zero a then Error (InvalidOperation DivisionUndefined)
    else Error DivisionByZero
  else if is_zero a then
    Ok (_fix p (make sign 0 (dexp a - dexp b)))
  else
    let shift := ndigits (coeff b) - ndigits (coeff a) + p + 1 in
    let exp := dexp a - dexp b - shift in
    let n := if 0 <=? shift then coeff a * 10 ^ shift else coeff a in
    let m := if 0 <=? shift then coeff b else coeff b * 10 ^ (- shift) in
    let c := n / m in
    let remainder := n mod m in
    if negb (remainder =? 0) then
      Ok (_fix p (make sign (if c mod 5 =? 0 then c + 1 else c) exp))
    else
      let ideal_exp := dexp a - dexp b in
      let '(c, exp) := strip_zeros (Z.to_nat (ideal_exp - exp)) c exp ideal_exp in
      Ok (_fix p (make sign c exp)).

(** [__floordiv__] through [_divide]: the integer quotient, not rounded,
    refused when it needs more than [prec] digits. *)
Definition floordiv (p : Z) (a b : Decimal) : result Decimal :=
  let sign := xorb (dsign a) (dsign b) in
  if is_zero b then
    if is_zero a then Error (InvalidOperation DivisionUndefined)
    else Error DivisionByZero
  else
    let expdiff := adjusted a - adjusted b in
    if is_zero a || (expdiff <=? -2) then Ok (make sign 0 0)
    else if expdiff <=? p then
      let n := if dexp b <=? dexp a then coeff a * 10 ^ (dexp a - dexp b) else coeff a in
      let m := if dexp b <=? dexp a then coeff b else coeff b * 10 ^ (dexp b - dexp a) in
      let q := n / m in
      if q <? 10 ^ p then Ok (make sign q 0)
      else Error (InvalidOperation DivisionImpossible)
    else Error (InvalidOperation DivisionImpossible).

(** [int(d)]: truncation. *)
Definition to_int (d : Decimal) : Z :=
  let s := if dsign d then -1 else 1 in
  if 0 <=? dexp d then s * coeff d * 10 ^ dexp d
  else s * (coeff d / 10 ^ (- dexp d)).

End PyDecimal.

Import PyDecimal.

(** ** float and fractions.Fraction *)

Module PyFloat.

(** A finite binary64 value [(-1)^neg * mant * 2^expo], [mant < 2^53]. *)
Record float : Type := mkFloat { fneg : bool; fmant : Z; fexpo : Z }.

(** The float nearest to [n / d] (ties to even) for [0 <= n], [0 < d]
    and a quotient in the normal range: what the literal [0.5] and the
    true division [1/12] of two ints evaluate to. *)
Definition of_ratio (n d : Z) : float :=
  if n =? 0 then mkFloat false 0 0
  else
    let e0 := Z.log2 n - Z.log2 d - 53 in
    let num e := if e <? 0 then n * 2 ^ (- e) else n in
    let den e := if e <? 0 then d else d * 2 ^ e in
    let e := if 2 ^ 53 <=? num e0 / den e0 then e0 + 1 else e0 in
    let q := num e / den e in
    let r := num e mod den e in
    let q := if (den e <? 2 * r) || ((2 * r =? den e) && Z.odd q) then q + 1 else q in
    if q =? 2 ^ 53 then mkFloat false (2 ^ 52) (e + 1) else mkFloat false q e.

(** [float.as_integer_ratio]: the exact value in lowest terms. *)
Definition as_integer_ratio (f : float) : Z * Z :=
  let m := if fneg f then - fmant f else fmant f in
  let n := if 0 <=? fexpo f then m * 2 ^ fexpo f else m in
  let d := if 0 <=? fexpo f then 1 else 2 ^ (- fexpo f) in
  let g := Z.gcd n d in
  (n / g, d / g).

End PyFloat.

Module PyFraction.

Record Fraction : Type := mkFraction { numerator : Z; denominator : Z }.

(** [Fraction(n, d)] for [d <> 0]: lowest terms, positive denominator. *)
Definition normalized (n d : Z) : Fraction :=
  let g := Z.gcd n d * Z.sgn d in
  mkFraction (n / g) (d / g).

(** [Fraction(value)] for a float. *)
Definition of_float (f : PyFloat.float) : Fraction :=
  let '(n, d) := PyFloat.as_integer_ratio f in mkFraction n d.

(** The [while True] loop of [limit_denominator]: the continued
    fraction of [n / d], left when the next denominator [q2] passes
    [max_denominator]; it returns [(p0, q0, p1, q1)].  The pair [(n, d)]
    follows Euclid's algorithm, which takes at most [2 * log2 d + 2]
    divisions, and the loop is left before [d] reaches 0 because the last
    denominator is that of the fraction itself, above [max_denominator];
    the fuel is that many turns. *)
Fixpoint limit_denominator_loop (fuel : nat) (max_denominator : Z)
    (p0 q0 p1 q1 n d : Z) : Z * Z * Z * Z :=
  match fuel with
  | O => (p0, q0, p1, q1)
  | S fuel' =>
      let a := n / d in
      let q2 := q0 + a * q1 in
      if max_denominator <? q2 then (p0, q0, p1, q1)
      else limit_denominator_loop fuel' max_denominator
             p1 q1 (p0 + a * p1) q2 d (n - a * d)
  end.

(** [self.limit_denominator(max_denominator)] for [1 <= max_denominator]. *)
Definition limit_denominator (self : Fraction) (max_denominator : Z) : Fraction :=
  if denominator self <=? max_denominator then self
  else
    let '(p0, q0, p1, q1) :=
      limit_denominator_loop (S (2 * Z.to_nat (Z.log2 (denominator self)) + 2))
        max_denominator 0 1 1 0 (numerator self) (denominator self) in
    let k := (max_denominator - q0) / q1 in
    let bound1 := normalized (p0 + k * p1) (q0 + k * q1) in
    let bound2 := normalized p1 q1 in
    (* abs(bound2 - self) <= abs(bound1 - self), cross-multiplied *)
    let dist (b : Fraction) :=
      Z.abs (numerator b * denominator self - numerator self * denominator b) in
    if dist bound2 * denominator bound1 <=? dist bound1 * denominator bound2
    then bound2 else bound1.

End PyFraction.

(** ** dozenal_decimal_converter.py *)

(** The argument of [decimal_to_dozenal]: [Union[int, float, Decimal]]. *)
Inductive pyvalue : Type :=
| PyInt (n : Z)
| PyFloat (f : PyFloat.float)
| PyDec (d : Decimal).

(** What [dozenal_to_decimal] returns: an [int] or a [Decimal] (it never
    builds a float, whatever its annotation allows). *)
Inductive number_value : Type :=
| IntValue (n : Z)
| DecimalValue (d : Decimal).


(** The [for _ in range(frac_precision)] loop of [decimal_to_dozenal];
    [p] is the context precision, [n] the turns left. *)
Fixpoint decimal_to_dozenal_loop (p : Z) (n : nat) (frac_part : Decimal)
    (digits : list ascii) : result (list ascii) :=
  match n with
  | O => Ok digits
  | S n' =>
      let frac_part := mul p frac_part (of_int 12) in
      do q <- floordiv p frac_part (of_int 1);
      let digit := to_int q in
      do ch <- digits_getitem digit;
      let digits := (digits ++ [ch])%list in
      let frac_part := sub p frac_part (of_int digit) in
      if eqb frac_part (of_int 0) then Ok digits
      else decimal_to_dozenal_loop p n' frac_part digits
  end.

(** [decimal_to_dozenal(value, frac_precision)]: the string or the
    exception, and the context it leaves ([getcontext().prec] is assigned
    for a float or a Decimal, never for an int). *)
Definition decimal_to_dozenal (value : pyvalue) (frac_precision : Z)
    (ctx : context) : result string * context :=
  match value with
  | PyInt n =>
      let sign := if n <? 0 then "-" else "" in
      (Ok (sign ++ _int_to_base12 (Z.abs n)), ctx)
  | _ =>
      let ctx := mkContext (Z.max 28 (frac_precision * 3)) in
      let p := prec ctx in
      (do dec <-
         match value with
         | PyFloat f =>
             let frac := PyFraction.limit_denominator (PyFraction.of_float f) (10 ^ 9) in
             truediv p (of_int (PyFraction.numerator frac))
                       (of_int (PyFraction.denominator frac))
         | PyDec d => Ok d             (* Decimal(value) *)
         | PyInt n => Ok (of_int n)    (* not reached: ints return above *)
         end;
       let sign := if ltb dec (of_int 0) then "-" else "" in
       let dec := abs p dec in
       do q <- floordiv p dec (of_int 1);
       let integer_part := to_int q in
       let frac_part := sub p dec (of_int integer_part) in
       let integer_digits := _int_to_base12 integer_part in
       if (frac_precision <=? 0) || eqb frac_part (of_int 0)
       then Ok (sign ++ integer_digits)
       else
         do digits <- decimal_to_dozenal_loop p (Z.to_nat frac_precision) frac_part [];
         Ok (sign ++ integer_digits ++ "." ++ PyStr.join digits),
       ctx)
  end.

(** The [for ch in frac_str] loop of [dozenal_to_decimal]. *)
Fixpoint dozenal_to_decimal_loop (p : Z) (frac_str : string)
    (frac_total power : Decimal) : result Decimal :=
  match frac_str with
  | EmptyString => Ok frac_total
  | String ch rest =>
      if negb (PyStr.contains _DOZENAL_DIGITS ch)
      then Error (ValueError_invalid_digit ch)
      else
        let power := mul p power (of_int 12) in
        do term <- truediv p (of_int (PyStr.index _DOZENAL_DIGITS ch)) power;
        dozenal_to_decimal_loop p rest (add p frac_total term) power
  end.

(** [dozenal_to_decimal(s)] for a string [s]; it reads the context
    precision and leaves the context as it is. *)
Definition dozenal_to_decimal (s : string) (ctx : context) : result number_value :=
  let p := prec ctx in
  let s := PyStr.upper (PyStr.strip s) in
  if String.eqb s "" then Error ValueError_empty_string
  else
    let '(sign, s) :=
      match s with
      | String c s' => if Ascii.eqb c "-" then (-1, s') else (1, s)
      | EmptyString => (1, s)
      end in
    let parts := PyStr.split "."%char s in
    if 2 <? Z.of_nat (List.length parts) then Error ValueError_more_than_one_point
    else
      let int_str := if String.eqb (nth 0 parts "") "" then "0" else nth 0 parts "" in
      do integer_value <- _int_from_base12 int_str;
      if Z.of_nat (List.length parts) =? 1 then Ok (IntValue (sign * integer_value))
      else
        let frac_str := nth 1 parts "" in
        do frac_total <- dozenal_to_decimal_loop p frac_str (of_int 0) (of_int 1);
        Ok (DecimalValue (mul p (add p (of_int integer_value) frac_total) (of_int sign))).

(** ** dozenal_calc.py *)

(** The first component of a token: ["number"], ["operator"], ["lparen"],
    ["rparen"].  No other kind is ever built, so the final
    [raise ValueError("unexpected token kind")] of [_to_postfix] has no
    counterpart. *)
Inductive token_kind : Type := number | operator | lparen | rparen.

Definition token_kind_eqb (a b : token_kind) : bool :=
  match a, b with
  | number, number | operator, operator | lparen, lparen | rparen, rparen => true
  | _, _ => false
  end.

(** [Token = Tuple[str, str]]. *)
Definition Token : Type := token_kind * string.

(** The second component of a [ConvertedToken]: [Decimal | str]. *)
Inductive token_value : Type :=
| TDecimal (d : Decimal)
| TStr (s : string).

Definition ConvertedToken : Type := token_kind * token_value.

Record CalculatorResult : Type := mkCalculatorResult {
  decimal : Decimal;
  dozenal : string
}.

(** [_PRECEDENCE[op]]; [None] is a KeyError. *)
Definition _PRECEDENCE (op : string) : option Z :=
  if String.eqb op "+" then Some 1
  else if String.eqb op "-" then Some 1
  else if String.eqb op "*" then Some 2
  else if String.eqb op "/" then Some 2
  else None.

(** [ch in _ALLOWED_DIGITS], the set of the characters of [_DOZENAL_DIGITS]. *)
Definition _ALLOWED_DIGITS (ch : ascii) : bool := PyStr.contains _DOZENAL_DIGITS ch.

Definition str1 (ch : ascii) : string := String ch EmptyString.

(** A [while i < len(expression) and expression[i] in _ALLOWED_DIGITS]
    loop of [_parse_number]: the digits read and the unread rest. *)
Fixpoint span_digits (s : string) : string * string :=
  match s with
  | EmptyString => (EmptyString, EmptyString)
  | String ch s' =>
      if _ALLOWED_DIGITS ch
      then let '(ds, rest) := span_digits s' in (String ch ds, rest)
      else (EmptyString, s)
  end.

(** [_parse_number(expression, start)].  The cursor is represented by the
    unread text: the argument is [expression[start:]] and the result is
    the literal [expression[start:i]] with [expression[i:]].  The first
    statement reads [expression[i]] before any test of [i], so at the end
    of the text ([start = len(expression)]) it raises [IndexError]; both
    call sites pass a text that is not empty. *)
Definition _parse_number (s : string) : result (string * string) :=
  match s with
  | EmptyString => Error IndexError_string_index
  | String ch s' =>
      let '(sign, s1) :=
        if PyStr.contains "+-" ch then (str1 ch, s') else (EmptyString, s) in
      let '(int_digits, s2) := span_digits s1 in
      let digits_seen := negb (String.eqb int_digits "") in
      let '(frac, s3, digits_seen) :=
        match s2 with
        | String ch s2' =>
            if Ascii.eqb ch "." then
              let '(frac_digits, s3) := span_digits s2' in
              let fractional_seen := negb (String.eqb frac_digits "") in
              ("." ++ frac_digits, s3, digits_seen || fractional_seen)
            else (EmptyString, s2, digits_seen)
        | EmptyString => (EmptyString, s2, digits_seen)
        end in
      if negb digits_seen then Error ValueError_invalid_number
      else Ok (sign ++ int_digits ++ frac, s3)
  end.

(** The [while i < length] loop of [_tokenize] on the unread text
    [expression[i:]].  Every turn reads at least one character, so a fuel
    of the length of the expression is never exhausted. *)
Fixpoint _tokenize_loop (fuel : nat) (s : string) (can_start_number : bool)
    (tokens : list Token) : result (list Token) :=
  match s with
  | EmptyString => Ok tokens
  | String ch s' =>
      match fuel with
      | O => Ok tokens
      | S fuel' =>
          if PyStr.isspace ch then
            _tokenize_loop fuel' s' can_start_number tokens
          else if PyStr.contains "+-" ch && can_start_number then
            let next_char := match s' with String c _ => str1 c | EmptyString => "" end in
            if String.eqb next_char "(" then
              _tokenize_loop fuel' s' true
                (tokens ++ [(number, "0"); (operator, str1 ch)])%list
            else
              do '(token, rest) <- _parse_number s;
              _tokenize_loop fuel' rest false (tokens ++ [(number, token)])%list
          else if PyStr.contains "+-*/" ch then
            _tokenize_loop fuel' s' true (tokens ++ [(operator, str1 ch)])%list
          else if Ascii.eqb ch "(" then
            _tokenize_loop fuel' s' true (tokens ++ [(lparen, str1 ch)])%list
          else if Ascii.eqb ch ")" then
            _tokenize_loop fuel' s' false (tokens ++ [(rparen, str1 ch)])%list
          else if _ALLOWED_DIGITS ch then
            do '(token, rest) <- _parse_number s;
            _tokenize_loop fuel' rest false (tokens ++ [(number, token)])%list
          else Error (ValueError_unexpected_character ch)
      end
  end.

Definition _tokenize (expression : string) : result (list Token) :=
  _tokenize_loop (String.length expression) expression true [].

(** [_dozenal_number_to_decimal]; the [float] branch is dead because
    [dozenal_to_decimal] returns an int or a Decimal. *)
Definition _dozenal_number_to_decimal (value : string) (ctx : context) : result Decimal :=
  do raw <- dozenal_to_decimal value ctx;
  match raw with
  | DecimalValue d => Ok d
  | IntValue n => Ok (of_int n)
  end.

Fixpoint _convert_numbers (tokens : list Token) (ctx : context)
    : result (list ConvertedToken) :=
  match tokens with
  | [] => Ok []
  | (kind, value) :: rest =>
      do tok <-
        match kind with
        | number =>
            do d <- _dozenal_number_to_decimal value ctx;
            Ok (number, TDecimal d)
        | _ => Ok (kind, TStr value)
        end;
      do converted <- _convert_numbers rest ctx;
      Ok (tok :: converted)
  end.

(** The operator stack of [_to_postfix] and the value stack of
    [_evaluate_postfix] are lists with the top of the stack ([xs[-1]])
    first; [output] is in source order. *)

Definition lookup_precedence (op : string) : result Z :=
  match _PRECEDENCE op with
  | Some n => Ok n
  | None => Error (KeyError_precedence op)
  end.

(** [while operators and operators[-1][0] == "operator"] on an operator
    token [value]. *)
Fixpoint pop_higher (value : string) (operators : list Token)
    (output : list ConvertedToken) : result (list Token * list ConvertedToken) :=
  match operators with
  | (operator, top) :: below =>
      do ptop <- lookup_precedence top;
      do pvalue <- lookup_precedence value;
      if pvalue <=? ptop
      then pop_higher value below (output ++ [(operator, TStr top)])%list
      else Ok (operators, output)
  | _ => Ok (operators, output)
  end.

(** [while operators and operators[-1][0] != "lparen"] on a right
    parenthesis. *)
Fixpoint pop_to_lparen (operators : list Token) (output : list ConvertedToken)
    : list Token * list ConvertedToken :=
  match operators with
  | (kind, value) :: below =>
      if negb (token_kind_eqb kind lparen)
      then pop_to_lparen below (output ++ [(kind, TStr value)])%list
      else (operators, output)
  | [] => (operators, output)
  end.

(** The final [while operators] loop. *)
Fixpoint pop_all (operators : list Token) (output : list ConvertedToken)
    : result (list ConvertedToken) :=
  match operators with
  | [] => Ok output
  | (kind, value) :: below =>
      if token_kind_eqb kind lparen || token_kind_eqb kind rparen
      then Error ValueError_mismatched_parentheses
      else pop_all below (output ++ [(kind, TStr value)])%list
  end.

(** The [for kind, value in tokens] loop of [_to_postfix]. *)
Fixpoint _to_postfix_loop (tokens : list ConvertedToken)
    (output : list ConvertedToken) (operators : list Token)
    : result (list ConvertedToken) :=
  match tokens with
  | [] => pop_all operators output
  | (kind, value) :: rest =>
      match kind with
      | number => _to_postfix_loop rest (output ++ [(kind, value)])%list operators
      | operator =>
          match value with
          | TStr v =>
              do '(operators, output) <- pop_higher v operators output;
              _to_postfix_loop rest output ((kind, v) :: operators)
          | TDecimal _ => Error AssertionError
          end
      | lparen =>
          match value with
          | TStr v => _to_postfix_loop rest output ((kind, v) :: operators)
          | TDecimal _ => Error AssertionError
          end
      | rparen =>
          match pop_to_lparen operators output with
          | ([], _) => Error ValueError_mismatched_parentheses
          | (_ :: operators, output) => _to_postfix_loop rest output operators
          end
      end
  end.

Definition _to_postfix (tokens : list ConvertedToken) : result (list ConvertedToken) :=
  _to_postfix_loop tokens [] [].

(** The arithmetic of one operator token. *)
Definition apply_operator (p : Z) (value : string) (lhs rhs : Decimal)
    : result Decimal :=
  if String.eqb value "+" then Ok (add p lhs rhs)
  else if String.eqb value "-" then Ok (sub p lhs rhs)
  else if String.eqb value "*" then Ok (mul p lhs rhs)
  else if String.eqb value "/" then truediv p lhs rhs
  else Error (ValueError_unsupported_operator value).

(** The [for kind, value in postfix] loop of [_evaluate_postfix]. *)
Fixpoint _evaluate_postfix_loop (p : Z) (postfix : list ConvertedToken)
    (stack : list Decimal) : result (list Decimal) :=
  match postfix with
  | [] => Ok stack
  | (kind, value) :: rest =>
      if token_kind_eqb kind number then
        match value with
        | TDecimal d => _evaluate_postfix_loop p rest (d :: stack)
        | TStr _ => Error AssertionError
        end
      else
        match stack with
        | rhs :: lhs :: stack =>   (* right = stack.pop(); left = stack.pop() *)
            match value with
            | TStr v =>
                do r <- apply_operator p v lhs rhs;
                _evaluate_postfix_loop p rest (r :: stack)
            | TDecimal _ => Error AssertionError
            end
        | _ => Error ValueError_incomplete_expression
        end
  end.

Definition _evaluate_postfix (postfix : list ConvertedToken) (ctx : context)
    : result Decimal :=
  do stack <- _evaluate_postfix_loop (prec ctx) postfix [];
  match stack with
  | [d] => Ok d
  | _ => Error ValueError_not_single_value
  end.

(** [calculate(expression, frac_precision)]: the result or the exception,
    and the context it leaves.  The assignment of the working precision
    is modelled for [max(28, 3 * frac_precision) <= MAX_PREC]; above it
    the source raises the ValueError of [decimal] on that line. *)
Definition calculate (expression : string) (frac_precision : Z) (ctx : context)
    : result CalculatorResult * context :=
  let expr := PyStr.upper (PyStr.strip expression) in
  if String.eqb expr "" then (Error ValueError_expression_empty, ctx)
  else if frac_precision <? 0 then (Error ValueError_negative_precision, ctx)
  else
    let ctx := mkContext (Z.max 28 (frac_precision * 3)) in
    (do toks <- _tokenize expr;
     do tokens <- _convert_numbers toks ctx;
     do postfix <- _to_postfix tokens;
     do result <- _evaluate_postfix postfix ctx;
     do dozenal_value <- fst (decimal_to_dozenal (PyDec result) frac_precision ctx);
     Ok (mkCalculatorResult result dozenal_value),
     ctx).

(** ** Predicates used in the statements *)

(** Every character of [s] satisfies [f]. *)
Fixpoint all_chars (f : ascii -> bool) (s : string) : bool :=
  match s with
  | EmptyString => true
  | String c s' => f c && all_chars f s'
  end.

(** The number of occurrences of [ch] in [s]: [s.count(ch)]. *)
Fixpoint count_char (ch : ascii) (s : string) : Z :=
  match s with
  | EmptyString => 0
  | String c s' => (if Ascii.eqb c ch then 1 else 0) + count_char ch s'
  end.

(** The text [dozenal_to_decimal] works on, after [strip] and [upper],
    with one leading ['-'] removed. *)
Definition without_sign (t : string) : string :=
  match t with
  | String c t' => if Ascii.eqb c "-" then t' else t
  | EmptyString => t
  end.

Definition digit_or_point (c : ascii) : bool :=
  _ALLOWED_DIGITS c || Ascii.eqb c ".".

(** The rejection rule of [dozenal_to_decimal] as the code has it: the
    trimmed string is empty, or what follows the optional sign has more
    than one point or a character that is neither a digit nor the point. *)
Definition rejected (s : string) : bool :=
  let t := PyStr.upper (PyStr.strip s) in
  let u := without_sign t in
  String.eqb t "" || (1 <? count_char "." u) || negb (all_chars digit_or_point u).

(** The rejection rule in the words of claim C4: emptiness is tested
    after the optional sign is removed. *)
Definition rejected_as_claimed (s : string) : bool :=
  let u := without_sign (PyStr.upper (PyStr.strip s)) in
  String.eqb u "" || (1 <? count_char "." u) || negb (all_chars digit_or_point u).

(** The shape of the number literals [_parse_number] returns: an optional
    sign, then digits with at most one point, not empty. *)
Definition number_text (v : string) : Prop :=
  exists sign w : string,
    v = sign ++ w /\ (sign = "" \/ sign = "+" \/ sign = "-") /\
    all_chars digit_or_point w = true /\ count_char "." w <= 1 /\ w <> "".

(** *** The rendering of a Decimal in exact arithmetic

    The words of the specification, on rationals: no working precision,
    no rounding. *)

(** The magnitude [|v|] of a Decimal as a rational. *)
Definition magnitude (v : Decimal) : Q :=
  if 0 <=? dexp v then inject_Z (coeff v * 10 ^ dexp v)
  else Qmake (coeff v) (Z.to_pos (10 ^ (- dexp v))).

Definition integer_part_of (v : Decimal) : Z := Qfloor (magnitude v).

Definition fraction_of (v : Decimal) : Q :=
  Qminus (magnitude v) (inject_Z (integer_part_of v)).

(** Multiply the remaining fraction by 12, take the integer part as the
    next digit, subtract it; stop on a zero remainder or after [n] digits. *)
Fixpoint fraction_digits_spec (n : nat) (f : Q) : list Z :=
  match n with
  | O => []
  | S n' =>
      let x := Qmult f (inject_Z 12) in
      let digit := Qfloor x in
      let r := Qminus x (inject_Z digit) in
      digit :: (if Qeq_bool r (inject_Z 0) then [] else fraction_digits_spec n' r)
  end.



Definition sign_text (v : Decimal) : string :=
  if dsign v && negb (is_zero v) then "-" else "".

(** [<sign><integer part>], then [.<fractional digits>] unless the
    precision is 0 or the fraction is exactly zero. *)
Definition render_spec (v : Decimal) (frac_precision : Z) : string :=
  sign_text v ++ _int_to_base12 (integer_part_of v) ++
  (if (frac_precision <=? 0) || Qeq_bool (fraction_of v) (inject_Z 0) then ""
   else "." ++ PyStr.join (map digit_char
                             (fraction_digits_spec (Z.to_nat frac_precision)
                                (fraction_of v)))).

(** A Decimal whose digits the working precision [P] holds exactly
    through the rendering: [|v| < 10^P] written out in full, and at most
    [P - 2] decimal places (two guard digits for the products by 12). *)
Definition fits (P : Z) (v : Decimal) : Prop :=
  coeff v * 10 ^ Z.max 0 (dexp v) < 10 ^ P /\ - (P - 2) <= dexp v.

(** The same digits over an integer numerator [m] and the denominator
    [10^k]. *)
Fixpoint fraction_digits_scaled (k : Z) (n : nat) (m : Z) : list Z :=
  match n with
  | O => []
  | S n' =>
      let x := 12 * m in
      let digit := x / 10 ^ k in
      let r := x mod 10 ^ k in
      digit :: (if r =? 0 then [] else fraction_digits_scaled k n' r)
  end.

(** Every number token the tokenizer emits is the ["0"] of a rewritten
    unary sign or a literal of [_parse_number]. *)
Definition token_wf (tok : Token) : Prop :=
  fst tok = number -> number_text (snd tok).

(** The four operator texts of the tokenizer. *)
Inductive binop : Type := Plus | Minus | Times | Divide.

Definition binop_text (o : binop) : string :=
  match o with
  | Plus => "+"
  | Minus => "-"
  | Times => "*"
  | Divide => "/"
  end.

Definition precedence_of (o : binop) : Z :=
  match _PRECEDENCE (binop_text o) with
  | Some n => n
  | None => 0
  end.

(** A chain [a0 o1 a1 o2 a2 ...] after its first operand, as infix
    tokens and in postfix order, and its value read from left to right. *)
Definition chain_tokens (rest : list (binop * Decimal)) : list ConvertedToken :=
  flat_map (fun '(o, a) => [(operator, TStr (binop_text o)); (number, TDecimal a)]) rest.

Definition chain_postfix (rest : list (binop * Decimal)) : list ConvertedToken :=
  flat_map (fun '(o, a) => [(number, TDecimal a); (operator, TStr (binop_text o))]) rest.

Fixpoint fold_chain (p : Z) (acc : Decimal) (rest : list (binop * Decimal))
    : result Decimal :=
  match rest with
  | [] => Ok acc
  | (o, a) :: rest' =>
      do x <- apply_operator p (binop_text o) acc a;
      fold_chain p x rest'
  end.

(** The two exceptions [decimal] raises for a zero divisor:
    [DivisionByZero] for [x / 0] with [x] nonzero, and [InvalidOperation]
    (signal [DivisionUndefined]) for [0 / 0]. *)
Definition zero_divisor_error (lhs : Decimal) : exception :=
  if is_zero lhs then InvalidOperation DivisionUndefined else DivisionByZero.

(** *** Predicates of the further properties *)

(** The canonical numerals of [_int_to_base12]: ["0"], or digits of the
    alphabet that do not begin with ['0']. *)
Definition canonical (s : string) : bool :=
  match s with
  | EmptyString => false
  | String c EmptyString => _ALLOWED_DIGITS c
  | String c _ => negb (Ascii.eqb c "0") && all_chars _ALLOWED_DIGITS s
  end.

Definition leading_nonzero (s : string) : bool :=
  match s with
  | EmptyString => false
  | String c _ => negb (Ascii.eqb c "0")
  end.

(** [k] times the character ['0']. *)
Fixpoint zeros (k : nat) : string :=
  match k with
  | O => EmptyString
  | S k' => String "0" (zeros k')
  end.

(** [-v] for what [dozenal_to_decimal] returns: the int negated, the
    Decimal with its sign flipped (also on a zero). *)
Definition negate_value (v : number_value) : number_value :=
  match v with
  | IntValue n => IntValue (- n)
  | DecimalValue d => DecimalValue (copy_negate d)
  end.

Definition negate_result (r : result number_value) : result number_value :=
  match r with
  | Ok v => Ok (negate_value v)
  | Error e => Error e
  end.

(** *** The tokens of the calculator *)

(** [v in _PRECEDENCE]: one of the four operator texts. *)
Definition is_operator_text (v : string) : bool :=
  match _PRECEDENCE v with Some _ => true | None => false end.

(** The kinds and texts the tokenizer pairs: an operator token holds an
    operator text, a parenthesis token its parenthesis. *)
Definition token_ok (tok : Token) : bool :=
  match fst tok with
  | number => true
  | operator => is_operator_text (snd tok)
  | lparen => String.eqb (snd tok) "("
  | rparen => String.eqb (snd tok) ")"
  end.

(** The same after [_convert_numbers]: a Decimal in a number token, the
    text kept in the others. *)
Definition converted_ok (tok : ConvertedToken) : bool :=
  match tok with
  | (number, TDecimal _) => true
  | (operator, TStr v) => is_operator_text v
  | (lparen, TStr v) => String.eqb v "("
  | (rparen, TStr v) => String.eqb v ")"
  | _ => false
  end.

(** A token of a postfix sequence: an operand or an operator. *)
Definition postfix_ok (tok : ConvertedToken) : bool :=
  match tok with
  | (number, TDecimal _) => true
  | (operator, TStr v) => is_operator_text v
  | _ => false
  end.

Definition is_number (tok : ConvertedToken) : bool := token_kind_eqb (fst tok) number.

Definition is_paren (tok : ConvertedToken) : bool :=
  token_kind_eqb (fst tok) lparen || token_kind_eqb (fst tok) rparen.

(** The parentheses of [tokens] match, [depth] of them being open
    already. *)
Fixpoint balanced (tokens : list ConvertedToken) (depth : nat) : bool :=
  match tokens with
  | [] => Nat.eqb depth 0
  | (lparen, _) :: rest => balanced rest (S depth)
  | (rparen, _) :: rest =>
      match depth with
      | O => false
      | S depth' => balanced rest depth'
      end
  | _ :: rest => balanced rest depth
  end.

(** An entry of the operator stack of [_to_postfix], and the number of
    left parentheses on it. *)
Definition stack_ok (tok : Token) : bool :=
  match fst tok with
  | operator => is_operator_text (snd tok)
  | lparen => true
  | _ => false
  end.

Definition is_operator_token (tok : Token) : bool := token_kind_eqb (fst tok) operator.

Definition opens (operators : list Token) : nat :=
  List.length (filter (fun tok => token_kind_eqb (fst tok) lparen) operators).

(** [operators.pop()] appended to the output. *)
Definition popped_token (tok : Token) : ConvertedToken := (fst tok, TStr (snd tok)).

(** Expressions as trees, for the statements about parentheses.  An
    operand that is itself an operation is written between parentheses;
    [infix] gives the tokens of the tree in source order, [postfix_of] its
    operands and operators in postfix order, [eval] its value, the left
    operand first. *)
Inductive tree : Type :=
| Num (d : Decimal)
| Bin (o : binop) (l r : tree).

Definition parenthesized (e : tree) (tokens : list ConvertedToken) : list ConvertedToken :=
  match e with
  | Num _ => tokens
  | Bin _ _ _ => ((lparen, TStr "(") :: tokens ++ [(rparen, TStr ")")])%list
  end.

Fixpoint infix (e : tree) : list ConvertedToken :=
  match e with
  | Num d => [(number, TDecimal d)]
  | Bin o l r =>
      (parenthesized l (infix l) ++ [(operator, TStr (binop_text o))] ++
       parenthesized r (infix r))%list
  end.

Fixpoint postfix_of (e : tree) : list ConvertedToken :=
  match e with
  | Num d => [(number, TDecimal d)]
  | Bin o l r => (postfix_of l ++ postfix_of r ++ [(operator, TStr (binop_text o))])%list
  end.

Fixpoint eval (p : Z) (e : tree) : result Decimal :=
  match e with
  | Num d => Ok d
  | Bin o l r =>
      do x <- eval p l;
      do y <- eval p r;
      apply_operator p (binop_text o) x y
  end.

(** The integer operation of an operator other than [/], and where a
    run of digits stops: at the end of the text or before a character that
    is neither a digit nor the point. *)
Definition binop_int (o : binop) (a b : Z) : Z :=
  match o with
  | Plus => a + b
  | Minus => a - b
  | Times => a * b
  | Divide => 0
  end.

Definition stops (rest : string) : bool :=
  match rest with
  | EmptyString => true
  | String c _ => negb (_ALLOWED_DIGITS c) && negb (Ascii.eqb c ".")
  end.

(** The text after the optional sign of a literal, and whether a text
    begins with a digit. *)
Definition unsigned (s : string) : string :=
  match s with
  | String ch s' => if PyStr.contains "+-" ch then s' else s
  | EmptyString => s
  end.

Definition starts_with_digit (s : string) : bool :=
  match s with
  | String ch _ => _ALLOWED_DIGITS ch
  | EmptyString => false
  end.

(** The characters the tokenizer knows: white space, the operators, the
    parentheses and the digits. *)
Definition token_char (ch : ascii) : bool :=
  PyStr.isspace ch || PyStr.contains "+-*/" ch || Ascii.eqb ch "(" ||
  Ascii.eqb ch ")" || _ALLOWED_DIGITS ch.

(** The exceptions that [calculate] can raise. *)
Definition calculate_error (e : exception) : bool :=
  match e with
  | ValueError_expression_empty | ValueError_negative_precision
  | ValueError_unexpected_character _ | ValueError_invalid_number
  | ValueError_mismatched_parentheses | ValueError_incomplete_expression
  | ValueError_not_single_value | DivisionByZero | InvalidOperation _
  | IndexError_string_index => true
  | ValueError_invalid_digit ch => Ascii.eqb ch "+"
  | _ => false
  end.

(** Expressions over non-negative integer literals, for the end-to-end
    statement: the integer value of a tree, its text with the white space
    [w1] before and [w2] after every operator and with compound operands
    between parentheses, the tokens of that text, and the same tree over
    Decimals. *)
Inductive int_tree : Type :=
| ILit (a : Z)
| IOp (o : binop) (l r : int_tree).

Fixpoint int_value (e : int_tree) : Z :=
  match e with
  | ILit a => a
  | IOp o l r => binop_int o (int_value l) (int_value r)
  end.

Definition in_parens (e : int_tree) (s : string) : string :=
  match e with
  | ILit _ => s
  | IOp _ _ _ => "(" ++ s ++ ")"
  end.

Fixpoint int_text (w1 w2 : string) (e : int_tree) : string :=
  match e with
  | ILit a => _int_to_base12 a
  | IOp o l r =>
      in_parens l (int_text w1 w2 l) ++ w1 ++ binop_text o ++ w2 ++
      in_parens r (int_text w1 w2 r)
  end.

Definition paren_tokens (e : int_tree) (tokens : list Token) : list Token :=
  match e with
  | ILit _ => tokens
  | IOp _ _ _ => ((lparen, "(") :: tokens ++ [(rparen, ")")])%list
  end.

Fixpoint int_tokens (e : int_tree) : list Token :=
  match e with
  | ILit a => [(number, _int_to_base12 a)]
  | IOp o l r =>
      (paren_tokens l (int_tokens l) ++ [(operator, binop_text o)] ++
       paren_tokens r (int_tokens r))%list
  end.

Fixpoint decimal_tree (e : int_tree) : tree :=
  match e with
  | ILit a => Num (of_int a)
  | IOp o l r => Bin o (decimal_tree l) (decimal_tree r)
  end.

(** Every literal is a non-negative int below [10^P], no operator is
    [/], and every intermediate result is below [10^P] in magnitude. *)
Fixpoint int_tree_fits (P : Z) (e : int_tree) : Prop :=
  match e with
  | ILit a => 0 <= a < 10 ^ P
  | IOp o l r =>
      o <> Divide /\ int_tree_fits P l /\ int_tree_fits P r /\
      Z.abs (binop_int o (int_value l) (int_value r)) < 10 ^ P
  end.

(** The Decimal [d] is the int [n] written with exponent 0; a zero may
    carry either sign. *)
Definition whole (d : Decimal) (n : Z) : Prop :=
  dexp d = 0 /\ coeff d = Z.abs n /\ (n <> 0 -> dsign d = (n <? 0)).

(** *** Numbers that fit, and texts that decode exactly *)



(** *** Expressions without parentheses

    The grouping of [a0 o1 a1 o2 a2 ...] that precedence and left
    associativity give.  The expression is a sum of terms, and a term is
    a product of operands: [sum] is the tree of the terms already
    closed, with the [+] or [-] that follows them, and [term] the tree
    of the product being read.  A [*] or [/] takes the product so far as
    its left operand; a [+] or [-] closes the term, which becomes the
    right operand of the pending [+] or [-], the sum so far being its
    left operand. *)
Definition multiplicative (o : binop) : bool :=
  match o with
  | Times | Divide => true
  | Plus | Minus => false
  end.

Definition close_sum (sum : option (tree * binop)) (term : tree) : tree :=
  match sum with
  | None => term
  | Some (s, o) => Bin o s term
  end.

Fixpoint grouping (sum : option (tree * binop)) (term : tree)
    (rest : list (binop * Decimal)) : tree :=
  match rest with
  | [] => close_sum sum term
  | (o, a) :: rest' =>
      if multiplicative o
      then grouping sum (Bin o term (Num a)) rest'
      else grouping (Some (close_sum sum term, o)) (Num a) rest'
  end.

(** The operands and operators of a tree, read from left to right. *)
Fixpoint flat (e : tree) : Decimal * list (binop * Decimal) :=
  match e with
  | Num d => (d, [])
  | Bin o l r =>
      let '(a, xs) := flat l in
      let '(b, ys) := flat r in
      (a, (xs ++ (o, b) :: ys)%list)
  end.

(** How tightly the root of a tree binds; an operand binds tighter than
    every operator. *)
Definition root_precedence (e : tree) : Z :=
  match e with
  | Num _ => 3
  | Bin o _ _ => precedence_of o
  end.

(** A tree that is read without parentheses: the left operand of every
    operator binds at least as tightly as the operator (operators of
    equal precedence associate to the left) and the right operand binds
    tighter. *)
Fixpoint grouped (e : tree) : bool :=
  match e with
  | Num _ => true
  | Bin o l r =>
      (precedence_of o <=? root_precedence l) &&
      (precedence_of o <? root_precedence r) && grouped l && grouped r
  end.

(** An operator on the stack of [_to_postfix]. *)
Definition binop_token (o : binop) : Token := (operator, binop_text o).

(** * Lemmas *)

(** Case analysis on every conditional of a hypothesis [H : ... = r]. *)
Ltac break_ifs H :=
  repeat match type of H with
         | (if ?b then _ else _) = _ => destruct b
         | (let '(_, _) := ?x in _) = _ => destruct x
         end.

(** ** Characters and strings *)

Lemma allowed_digit_props (c : ascii) :
  _ALLOWED_DIGITS c = true ->
  PyStr.isspace c = false /\ PyStr.upper_char c = c /\
  Ascii.eqb c "." = false /\ Ascii.eqb c "-" = false /\ Ascii.eqb c "+" = false /\
  0 <= PyStr.index _DOZENAL_DIGITS c < 12.
Proof.
  destruct c as [[] [] [] [] [] [] [] []]; vm_compute; intros H; try discriminate H;
    repeat split; congruence.
Qed.

Lemma digit_char_allowed (r : Z) :
  0 <= r < 12 ->
  _ALLOWED_DIGITS (digit_char r) = true /\ PyStr.index _DOZENAL_DIGITS (digit_char r) = r.
Proof.
  intros H.
  assert (Hr : r = 0 \/ r = 1 \/ r = 2 \/ r = 3 \/ r = 4 \/ r = 5 \/ r = 6 \/
               r = 7 \/ r = 8 \/ r = 9 \/ r = 10 \/ r = 11) by lia.
  repeat (destruct Hr as [-> | Hr]; [split; reflexivity |]).
  subst r; split; reflexivity.
Qed.

Lemma join_app (l1 l2 : list ascii) :
  PyStr.join (l1 ++ l2) = PyStr.join l1 ++ PyStr.join l2.
Proof.
  unfold PyStr.join. induction l1 as [| c l1 IH]; simpl; [reflexivity | now rewrite IH].
Qed.

Lemma all_chars_app (f : ascii -> bool) (s1 s2 : string) :
  all_chars f (s1 ++ s2) = all_chars f s1 && all_chars f s2.
Proof.
  induction s1 as [| c s1 IH]; simpl; [reflexivity | now rewrite IH, andb_assoc].
Qed.

Lemma all_chars_impl (f g : ascii -> bool) (s : string) :
  (forall c, f c = true -> g c = true) -> all_chars f s = true -> all_chars g s = true.
Proof.
  intros Hfg. induction s as [| c s IH]; simpl; [reflexivity |].
  intros H. apply andb_true_iff in H as [Hc Hs]. now rewrite (Hfg c Hc), IH.
Qed.

Lemma lstrip_id (s : string) :
  all_chars (fun c => negb (PyStr.isspace c)) s = true -> PyStr.lstrip s = s.
Proof.
  destruct s as [| c s]; simpl; [reflexivity |].
  intros H. apply andb_true_iff in H as [Hc _].
  now destruct (PyStr.isspace c).
Qed.

Lemma rstrip_id (s : string) :
  all_chars (fun c => negb (PyStr.isspace c)) s = true -> PyStr.rstrip s = s.
Proof.
  induction s as [| c s IH]; simpl; [reflexivity |].
  intros H. apply andb_true_iff in H as [Hc Hs].
  rewrite (IH Hs). destruct s; [| reflexivity].
  now destruct (PyStr.isspace c).
Qed.

Lemma strip_id (s : string) :
  all_chars (fun c => negb (PyStr.isspace c)) s = true -> PyStr.strip s = s.
Proof.
  intros H. unfold PyStr.strip. now rewrite (lstrip_id s H), rstrip_id.
Qed.

Lemma upper_id (s : string) :
  all_chars (fun c => Ascii.eqb (PyStr.upper_char c) c) s = true -> PyStr.upper s = s.
Proof.
  induction s as [| c s IH]; simpl; [reflexivity |].
  intros H. apply andb_true_iff in H as [Hc Hs].
  apply Ascii.eqb_eq in Hc. now rewrite Hc, IH.
Qed.

Lemma split_no_sep (sep : ascii) (s : string) :
  all_chars (fun c => negb (Ascii.eqb c sep)) s = true -> PyStr.split sep s = [s].
Proof.
  induction s as [| c s IH]; simpl; [reflexivity |].
  intros H. apply andb_true_iff in H as [Hc Hs].
  rewrite (IH Hs). now destruct (Ascii.eqb c sep).
Qed.

(** ** Integers in base 12 *)

Lemma _int_to_base12_loop_acc (fuel : nat) (n : Z) (acc : list ascii) :
  _int_to_base12_loop fuel n acc = (acc ++ _int_to_base12_loop fuel n [])%list.
Proof.
  revert n acc. induction fuel as [| fuel IH]; intros n acc; simpl.
  - now rewrite app_nil_r.
  - destruct (0 <? n); [| now rewrite app_nil_r].
    rewrite IH. rewrite (IH _ [digit_char (n mod 12)]).
    now rewrite app_assoc.
Qed.

Lemma _int_from_base12_loop_app (s1 s2 : string) (total : Z) :
  _int_from_base12_loop (s1 ++ s2) total =
  (do t <- _int_from_base12_loop s1 total; _int_from_base12_loop s2 t).
Proof.
  revert total. induction s1 as [| c s1 IH]; intros total;
    cbn [append _int_from_base12_loop bind]; [now destruct (_int_from_base12_loop s2 total) |].
  destruct (PyStr.contains _DOZENAL_DIGITS c); cbn [negb bind]; [apply IH | reflexivity].
Qed.

(** With enough fuel the loop of [_int_to_base12] writes digits only, and
    [_int_from_base12] reads them back. *)
Lemma _int_to_base12_loop_spec (fuel : nat) (n : Z) :
  0 <= n < 12 ^ Z.of_nat fuel ->
  let s := PyStr.join (rev (_int_to_base12_loop fuel n [])) in
  all_chars _ALLOWED_DIGITS s = true /\
  _int_from_base12_loop s 0 = Ok n /\
  (0 < n -> s <> "").
Proof.
  revert n. induction fuel as [| fuel IH]; intros n Hn.
  - simpl in Hn. assert (n = 0) by lia. subst n. simpl. repeat split; try reflexivity; lia.
  - cbn [_int_to_base12_loop].
    destruct (Z.ltb_spec 0 n) as [Hpos | Hle].
    + rewrite _int_to_base12_loop_acc, rev_app_distr, join_app. cbn [rev app].
      assert (Hq : 0 <= n / 12 < 12 ^ Z.of_nat fuel).
      { split; [apply Z.div_pos; lia |].
        apply Z.div_lt_upper_bound; [lia |].
        rewrite Nat2Z.inj_succ, Z.pow_succ_r in Hn; lia. }
      destruct (IH _ Hq) as (Hall & Hfrom & _).
      assert (Hr : 0 <= n mod 12 < 12) by (apply Z.mod_pos_bound; lia).
      destruct (digit_char_allowed _ Hr) as [Hd Hi].
      cbn zeta. repeat split.
      * rewrite all_chars_app, Hall.
        unfold PyStr.join. cbn [string_of_list_ascii all_chars andb]. now rewrite Hd.
      * rewrite _int_from_base12_loop_app, Hfrom.
        unfold PyStr.join. cbn [bind string_of_list_ascii _int_from_base12_loop].
        unfold _ALLOWED_DIGITS in Hd. rewrite Hd. cbn [negb]. rewrite Hi.
        f_equal. pose proof (Z.div_mod n 12). lia.
      * intros _ Habs.
        destruct (PyStr.join (rev (_int_to_base12_loop fuel (n / 12) []))); discriminate Habs.
    + assert (n = 0) by lia. subst n. cbn. repeat split; try reflexivity; lia.
Qed.

Lemma log2_fuel_12 (n : Z) : 0 < n -> n < 12 ^ Z.of_nat (S (Z.to_nat (Z.log2 n))).
Proof.
  intros Hn.
  pose proof (Z.log2_nonneg n) as H0.
  pose proof (Z.log2_spec n Hn) as [_ Hlt].
  rewrite Nat2Z.inj_succ, Z2Nat.id by lia.
  eapply Z.lt_le_trans; [exact Hlt |].
  apply Z.pow_le_mono_l. lia.
Qed.

(** [_int_to_base12] on a non-negative int: a non-empty string of digits
    that [_int_from_base12] reads back: the loop always ends within its
    fuel. *)
Lemma _int_to_base12_spec (n : Z) :
  0 <= n ->
  all_chars _ALLOWED_DIGITS (_int_to_base12 n) = true /\
  _int_from_base12 (_int_to_base12 n) = Ok n /\
  _int_to_base12 n <> "".
Proof.
  intros Hn. unfold _int_to_base12, _int_from_base12.
  destruct (Z.eqb_spec n 0) as [-> | Hne].
  - repeat split; try reflexivity; discriminate.
  - assert (Hpos : 0 < n) by lia.
    destruct (_int_to_base12_loop_spec (S (Z.to_nat (Z.log2 n))) n) as (Ha & Hf & He).
    { split; [lia | now apply log2_fuel_12]. }
    repeat split; auto.
Qed.

(** ** Claims about [decimal_to_dozenal] and [dozenal_to_decimal] on ints *)

Lemma dozenal_to_decimal_int_string (sign : bool) (m : Z) (ctx : context) :
  0 <= m ->
  dozenal_to_decimal ((if sign then "-" else "") ++ _int_to_base12 m) ctx =
  Ok (IntValue ((if sign then -1 else 1) * m)).
Proof.
  intros Hm.
  destruct (_int_to_base12_spec m Hm) as (Hall & Hfrom & Hne).
  set (D := _int_to_base12 m) in *.
  assert (Hsp : all_chars (fun c => negb (PyStr.isspace c)) D = true).
  { eapply all_chars_impl; [| exact Hall]. intros c Hc.
    destruct (allowed_digit_props c Hc) as (-> & _). reflexivity. }
  assert (Hup : all_chars (fun c => Ascii.eqb (PyStr.upper_char c) c) D = true).
  { eapply all_chars_impl; [| exact Hall]. intros c Hc.
    destruct (allowed_digit_props c Hc) as (_ & -> & _). apply Ascii.eqb_refl. }
  assert (Hdot : all_chars (fun c => negb (Ascii.eqb c ".")) D = true).
  { eapply all_chars_impl; [| exact Hall]. intros c Hc.
    destruct (allowed_digit_props c Hc) as (_ & _ & -> & _). reflexivity. }
  unfold dozenal_to_decimal.
  rewrite strip_id, upper_id.
  2: { rewrite all_chars_app, Hup. now destruct sign. }
  2: { rewrite all_chars_app, Hsp. now destruct sign. }
  destruct D as [| c D'] eqn:ED; [congruence |].
  assert (Hc : Ascii.eqb c "-" = false).
  { cbn [all_chars] in Hall. apply andb_true_iff in Hall as [Hc _].
    now destruct (allowed_digit_props c Hc) as (_ & _ & _ & -> & _). }
  destruct sign; cbn [append String.eqb Ascii.eqb Bool.eqb]; cbv iota beta.
  - cbn [Ascii.eqb Bool.eqb]. cbv iota.
    rewrite (split_no_sep _ _ Hdot). cbn [List.length nth Z.of_nat Z.ltb Z.compare Pos.compare].
    simpl (2 <? _). cbv iota.
    cbn [String.eqb]. rewrite Hfrom. cbn [bind]. reflexivity.
  - destruct (String.eqb_spec (String c D') "") as [E | _]; [discriminate E |].
    rewrite Hc.
    rewrite (split_no_sep _ _ Hdot). cbn [List.length nth].
    simpl (2 <? _). cbv iota.
    cbn [String.eqb]. rewrite Hfrom. cbn [bind]. reflexivity.
Qed.

(** C1. For every integer [n] and every [frac_precision], whatever the
    context, [decimal_to_dozenal(n, p)] returns a string that does not
    depend on [p] and that [dozenal_to_decimal] maps back to the int [n]. *)
Theorem C1_integer_round_trip (n p : Z) (ctx ctx' : context) :
  exists s : string,
    decimal_to_dozenal (PyInt n) p ctx = (Ok s, ctx) /\
    dozenal_to_decimal s ctx' = Ok (IntValue n) /\
    (forall p' : Z, decimal_to_dozenal (PyInt n) p' ctx = (Ok s, ctx)).
Proof.
  exists ((if n <? 0 then "-" else "") ++ _int_to_base12 (Z.abs n)).
  split; [reflexivity | split; [| reflexivity]].
  rewrite dozenal_to_decimal_int_string by lia.
  do 2 f_equal. destruct (Z.ltb_spec n 0); lia.
Qed.

(** ** Negative fractional precision *)

(** C7, as the code has it. For every negative [frac_precision]:
    [calculate] raises the negative-precision error on every expression
    that is not blank (a blank one raises the empty-expression error
    first), and leaves the context alone; [decimal_to_dozenal] does not
    reject the argument: it returns what it returns for precision 0 (the
    sign and the integer part), and never the negative-precision error. *)
Theorem C7_negative_precision (p : Z) (ctx : context) :
  p < 0 ->
  (forall expression : string,
      calculate expression p ctx =
      (Error (if String.eqb (PyStr.upper (PyStr.strip expression)) ""
              then ValueError_expression_empty
              else ValueError_negative_precision), ctx)) /\
  (forall value : pyvalue,
      decimal_to_dozenal value p ctx = decimal_to_dozenal value 0 ctx /\
      fst (decimal_to_dozenal value p ctx) <> Error ValueError_negative_precision) /\
  (forall n : Z,
      decimal_to_dozenal (PyInt n) p ctx =
      (Ok ((if n <? 0 then "-" else "") ++ _int_to_base12 (Z.abs n)), ctx)).
Proof.
  intros Hp. split; [| split].
  - intros expression. unfold calculate.
    destruct (String.eqb _ ""); [reflexivity |].
    destruct (Z.ltb_spec p 0); [reflexivity | lia].
  - intros value.
    assert (Hmax : Z.max 28 (p * 3) = Z.max 28 (0 * 3)) by lia.
    assert (Hle : (p <=? 0) = true) by (apply Z.leb_le; lia).
    split.
    + destruct value as [n | f | d]; [reflexivity | |];
        unfold decimal_to_dozenal; rewrite Hmax, Hle; reflexivity.
    + destruct value as [n | f | d]; [discriminate | |];
        unfold decimal_to_dozenal; rewrite Hle; cbn [fst orb prec bind].
      * destruct (truediv _ _ _) as [dec | e] eqn:E; cbn [bind].
        -- destruct (floordiv _ _ _) as [q | e] eqn:E'; cbn [bind]; [discriminate |].
           unfold floordiv in E'.
           break_ifs E'; try discriminate E'; injection E' as <-; discriminate.
        -- unfold truediv in E.
           break_ifs E; try discriminate E; injection E as <-; discriminate.
      * destruct (floordiv _ _ _) as [q | e] eqn:E'; cbn [bind]; [discriminate |].
        unfold floordiv in E'.
        break_ifs E'; try discriminate E'; injection E' as <-; discriminate.
  - intros n. reflexivity.
Qed.

Lemma C7_negative_precision_witness :
  -1 < 0 /\
  calculate "1+1" (-1) DefaultContext = (Error ValueError_negative_precision, DefaultContext) /\
  decimal_to_dozenal (PyDec (make false 55 (-1))) (-1) DefaultContext =
  decimal_to_dozenal (PyDec (make false 55 (-1))) 0 DefaultContext.
Proof.
  split; [lia |].
  destruct (C7_negative_precision (-1) DefaultContext ltac:(lia)) as (Hc & Hd & _).
  split; [exact (Hc "1+1") | exact (proj1 (Hd (PyDec (make false 55 (-1)))))].
Defined.

(** C7 fails as stated: [decimal_to_dozenal(5, -1)] and
    [decimal_to_dozenal(Decimal("5.5"), -1)] return ["5"] instead of
    raising, and [calculate("", -1)] raises the empty-expression error. *)
Lemma C7_counterexample :
  -1 < 0 /\
  fst (decimal_to_dozenal (PyInt 5) (-1) DefaultContext) = Ok "5" /\
  fst (decimal_to_dozenal (PyDec (make false 55 (-1))) (-1) DefaultContext) = Ok "5" /\
  fst (calculate "" (-1) DefaultContext) = Error ValueError_expression_empty.
Proof. repeat split; vm_compute; congruence. Qed.

(** ** The calculator on small expressions *)

Lemma lookup_precedence_binop (o : binop) :
  lookup_precedence (binop_text o) = Ok (precedence_of o).
Proof. now destruct o. Qed.

(** The rewrite of a chain of operators of one precedence, entered with
    the previous operator on the stack: each operator pops the one before
    it. *)
Lemma _to_postfix_loop_chain (k : Z) (rest : list (binop * Decimal)) :
  Forall (fun oa => precedence_of (fst oa) = k) rest ->
  forall (output : list ConvertedToken) (prev : binop),
    precedence_of prev = k ->
    _to_postfix_loop (chain_tokens rest) output [(operator, binop_text prev)] =
    Ok (output ++ (operator, TStr (binop_text prev)) :: chain_postfix rest)%list.
Proof.
  induction 1 as [| [o a] rest Ho _ IH]; intros output prev Hprev.
  - reflexivity.
  - cbn [fst] in Ho.
    cbn [chain_tokens chain_postfix flat_map app _to_postfix_loop pop_higher].
    rewrite !lookup_precedence_binop. cbn [bind].
    rewrite Ho, Hprev, Z.leb_refl. cbn [pop_higher bind].
    fold (chain_tokens rest). rewrite (IH _ o Ho).
    fold (chain_postfix rest). f_equal.
    now rewrite <- !app_assoc.
Qed.

Lemma _evaluate_postfix_loop_chain (p : Z) (rest : list (binop * Decimal)) :
  forall (acc : Decimal) (stack : list Decimal),
    _evaluate_postfix_loop p (chain_postfix rest) (acc :: stack) =
    (do x <- fold_chain p acc rest; Ok (x :: stack)).
Proof.
  induction rest as [| [o a] rest IH]; intros acc stack.
  - reflexivity.
  - cbn [chain_postfix flat_map app _evaluate_postfix_loop token_kind_eqb fold_chain].
    destruct (apply_operator p (binop_text o) acc a) as [x | e]; cbn [bind];
      [| reflexivity].
    fold (chain_postfix rest). apply IH.
Qed.

(** ** Decimal: digit counts and rounding *)

Lemma coeff_make (s : bool) (c e : Z) : 0 <= c -> coeff (make s c e) = c.
Proof. intros H. unfold coeff, make. cbn [dint]. lia. Qed.

Lemma coeff_nonneg (d : Decimal) : 0 <= coeff d.
Proof. unfold coeff. lia. Qed.

Lemma dexp_make (s : bool) (c e : Z) : dexp (make s c e) = e.
Proof. reflexivity. Qed.

Lemma dsign_make (s : bool) (c e : Z) : dsign (make s c e) = s.
Proof. reflexivity. Qed.

Lemma ndigits_aux_spec (fuel : nat) (n : Z) :
  0 < n < 10 ^ (Z.of_nat fuel + 1) ->
  1 <= ndigits_aux fuel n /\
  10 ^ (ndigits_aux fuel n - 1) <= n < 10 ^ ndigits_aux fuel n.
Proof.
  revert n. induction fuel as [| fuel IH]; intros n Hn.
  - cbn in *. lia.
  - cbn [ndigits_aux]. destruct (Z.ltb_spec n 10) as [Hlt | Hge]; [cbn; lia |].
    assert (Hq : 0 < n / 10 < 10 ^ (Z.of_nat fuel + 1)).
    { split; [apply Z.div_str_pos; lia |].
      apply Z.div_lt_upper_bound; [lia |].
      rewrite Nat2Z.inj_succ in Hn.
      replace (Z.succ (Z.of_nat fuel) + 1) with (Z.succ (Z.of_nat fuel + 1)) in Hn by lia.
      rewrite Z.pow_succ_r in Hn by lia. lia. }
    destruct (IH _ Hq) as (H1 & Hlo & Hhi).
    set (k := ndigits_aux fuel (n / 10)) in *.
    pose proof (Z.div_mod n 10 ltac:(lia)) as Hdm.
    pose proof (Z.mod_pos_bound n 10 ltac:(lia)) as Hmod.
    replace (1 + k - 1) with (Z.succ (k - 1)) by lia.
    replace (1 + k) with (Z.succ k) by lia.
    rewrite !Z.pow_succ_r by lia. lia.
Qed.

Lemma ndigits_spec (n : Z) :
  0 < n -> 1 <= ndigits n /\ 10 ^ (ndigits n - 1) <= n < 10 ^ ndigits n.
Proof.
  intros Hn. unfold ndigits. apply ndigits_aux_spec.
  pose proof (Z.log2_nonneg n) as H0.
  pose proof (Z.log2_spec n Hn) as [_ Hlt].
  rewrite Z2Nat.id by lia. split; [lia |].
  eapply Z.lt_le_trans; [exact Hlt |].
  replace (Z.succ (Z.log2 n)) with (Z.log2 n + 1) by lia.
  apply Z.pow_le_mono_l. lia.
Qed.


Lemma ndigits_le (n k : Z) : 1 <= k -> 0 <= n < 10 ^ k -> ndigits n <= k.
Proof.
  intros Hk [Hlo Hhi].
  destruct (Z.eq_dec n 0) as [-> | Hne]; [cbn; lia |].
  destruct (ndigits_spec n ltac:(lia)) as (H1 & Hlo' & Hhi').
  assert (ndigits n - 1 < k); [| lia].
  apply (Z.pow_lt_mono_r_iff 10); lia.
Qed.

Lemma round_half_even_bounds (c k : Z) :
  0 <= c -> c / 10 ^ k <= round_half_even c k <= c / 10 ^ k + 1.
Proof.
  intros Hc. unfold round_half_even.
  destruct (_ || _); lia.
Qed.

(** Rounding keeps a nonzero value nonzero. *)
Lemma _fix_nonzero (p : Z) (d : Decimal) :
  1 <= p -> is_zero d = false -> is_zero (_fix p d) = false.
Proof.
  intros Hp Hz. unfold _fix. rewrite Hz.
  destruct (Z.ltb_spec (dexp d) (ndigits (coeff d) + dexp d - p)) as [Hlt | _]; [| exact Hz].
  unfold is_zero in Hz. apply Z.eqb_neq in Hz.
  pose proof (coeff_nonneg d) as Hc.
  destruct (ndigits_spec (coeff d) ltac:(lia)) as (H1 & Hlo & Hhi).
  set (nd := ndigits (coeff d)) in *.
  replace (nd + dexp d - p - dexp d) with (nd - p) by lia.
  pose proof (round_half_even_bounds (coeff d) (nd - p) Hc) as [Hq _].
  assert (Hq1 : 10 ^ (p - 1) <= coeff d / 10 ^ (nd - p)).
  { apply Z.div_le_lower_bound; [apply Z.pow_pos_nonneg; lia |].
    rewrite <- Z.pow_add_r by lia. replace (nd - p + (p - 1)) with (nd - 1) by lia. exact Hlo. }
  assert (Hpos : 0 < 10 ^ (p - 1)) by (apply Z.pow_pos_nonneg; lia).
  set (c := round_half_even (coeff d) (nd - p)) in *.
  destruct (Z.ltb_spec p (ndigits c)) as [Hbig | _].
  - unfold is_zero. rewrite coeff_make.
    + apply Z.eqb_neq.
      destruct (ndigits_spec c ltac:(lia)) as (_ & Hlo' & _).
      assert (10 ^ p <= c).
      { eapply Z.le_trans; [| exact Hlo']. apply Z.pow_le_mono_r; lia. }
      assert (10 ^ (p - 1) <= c / 10).
      { apply Z.div_le_lower_bound; [lia |].
        replace (10 * 10 ^ (p - 1)) with (10 ^ (Z.succ (p - 1))) by (rewrite Z.pow_succ_r; lia).
        replace (Z.succ (p - 1)) with p by lia. lia. }
      lia.
    + apply Z.div_pos; lia.
  - unfold is_zero. rewrite coeff_make by lia. apply Z.eqb_neq. lia.
Qed.

Lemma mul_nonzero (p : Z) (a b : Decimal) :
  1 <= p -> is_zero a = false -> is_zero b = false -> is_zero (mul p a b) = false.
Proof.
  intros Hp Ha Hb. unfold mul. apply _fix_nonzero; [exact Hp |].
  unfold is_zero in *. apply Z.eqb_neq in Ha, Hb.
  pose proof (coeff_nonneg a). pose proof (coeff_nonneg b).
  rewrite coeff_make by nia. apply Z.eqb_neq. nia.
Qed.

Lemma truediv_ok (p : Z) (a b : Decimal) :
  is_zero b = false -> exists r : Decimal, truediv p a b = Ok r.
Proof.
  intros Hb. unfold truediv. rewrite Hb.
  destruct (is_zero a); [eexists; reflexivity |].
  cbv zeta.
  destruct (negb _); [eexists; reflexivity |].
  destruct (strip_zeros _ _ _ _); eexists; reflexivity.
Qed.

Lemma truediv_zero_divisor (p : Z) (a b : Decimal) :
  is_zero b = true -> truediv p a b = Error (zero_divisor_error a).
Proof.
  intros Hb. unfold truediv, zero_divisor_error. rewrite Hb. now destruct (is_zero a).
Qed.

(** ** Division by zero in the evaluator *)

Lemma _evaluate_postfix_loop_app (p : Z) (pre post : list ConvertedToken)
    (stack : list Decimal) :
  _evaluate_postfix_loop p (pre ++ post) stack =
  (do stack' <- _evaluate_postfix_loop p pre stack; _evaluate_postfix_loop p post stack').
Proof.
  revert stack. induction pre as [| [kind value] pre IH]; intros stack.
  - cbn [app _evaluate_postfix_loop bind]. reflexivity.
  - cbn [app _evaluate_postfix_loop].
    destruct (token_kind_eqb kind number).
    + destruct value; [apply IH | reflexivity].
    + destruct stack as [| rhs [| lhs stack]]; try reflexivity.
      destruct value; [reflexivity |].
      destruct (apply_operator p s lhs rhs); cbn [bind]; [apply IH | reflexivity].
Qed.

(** C9. Whenever the postfix evaluation of an expression reaches a [/]
    token with a zero on top of the stack (the right operand), [calculate]
    returns no result: it raises [decimal.DivisionByZero] when the left
    operand is nonzero and [decimal.InvalidOperation] (division undefined)
    when the left operand is zero as well; both are ArithmeticErrors and
    none of the ValueErrors of the program. *)
Theorem C9_division_by_zero (expression : string) (p : Z) (ctx : context)
    (toks : list Token) (tokens pre post : list ConvertedToken)
    (lhs rhs : Decimal) (below : list Decimal) :
  String.eqb (PyStr.upper (PyStr.strip expression)) "" = false ->
  0 <= p ->
  _tokenize (PyStr.upper (PyStr.strip expression)) = Ok toks ->
  _convert_numbers toks (mkContext (Z.max 28 (p * 3))) = Ok tokens ->
  _to_postfix tokens = Ok (pre ++ (operator, TStr "/") :: post)%list ->
  _evaluate_postfix_loop (Z.max 28 (p * 3)) pre [] = Ok (rhs :: lhs :: below) ->
  is_zero rhs = true ->
  fst (calculate expression p ctx) = Error (zero_divisor_error lhs) /\
  class_of (zero_divisor_error lhs) <> ValueError /\
  (is_zero lhs = false -> zero_divisor_error lhs = DivisionByZero) /\
  (is_zero lhs = true -> zero_divisor_error lhs = InvalidOperation DivisionUndefined).
Proof.
  intros Hne Hp Htok Hconv Hpost Hpre Hzero.
  split; [| unfold zero_divisor_error; destruct (is_zero lhs); repeat split;
            intros; cbn; congruence].
  unfold calculate. rewrite Hne.
  destruct (Z.ltb_spec p 0) as [Hneg | _]; [lia |].
  cbn [fst]. rewrite Htok. cbn [bind]. rewrite Hconv. cbn [bind].
  rewrite Hpost. cbn [bind].
  unfold _evaluate_postfix. cbn [prec].
  rewrite _evaluate_postfix_loop_app, Hpre. cbn [bind _evaluate_postfix_loop token_kind_eqb].
  unfold apply_operator. cbn [String.eqb Ascii.eqb Bool.eqb].
  rewrite (truediv_zero_divisor _ _ _ Hzero). reflexivity.
Qed.

Lemma C9_division_by_zero_witness :
  fst (calculate "1/0" 12 DefaultContext) = Error DivisionByZero /\
  fst (calculate "2*(0/(1-1))" 12 DefaultContext) = Error (InvalidOperation DivisionUndefined).
Proof.
  split.
  - exact (proj1 (C9_division_by_zero "1/0" 12 DefaultContext
             [(number, "1"); (operator, "/"); (number, "0")]
             [(number, TDecimal (of_int 1)); (operator, TStr "/");
              (number, TDecimal (of_int 0))]
             [(number, TDecimal (of_int 1)); (number, TDecimal (of_int 0))] []
             (of_int 1) (of_int 0) []
             eq_refl ltac:(lia) eq_refl eq_refl eq_refl eq_refl eq_refl)).
  - exact (proj1 (C9_division_by_zero "2*(0/(1-1))" 12 DefaultContext
             [(number, "2"); (operator, "*"); (lparen, "("); (number, "0");
              (operator, "/"); (lparen, "("); (number, "1"); (operator, "-");
              (number, "1"); (rparen, ")"); (rparen, ")")]
             [(number, TDecimal (of_int 2)); (operator, TStr "*"); (lparen, TStr "(");
              (number, TDecimal (of_int 0)); (operator, TStr "/"); (lparen, TStr "(");
              (number, TDecimal (of_int 1)); (operator, TStr "-");
              (number, TDecimal (of_int 1)); (rparen, TStr ")"); (rparen, TStr ")")]
             [(number, TDecimal (of_int 2)); (number, TDecimal (of_int 0));
              (number, TDecimal (of_int 1)); (number, TDecimal (of_int 1));
              (operator, TStr "-")]
             [(operator, TStr "*")]
             (of_int 0) (of_int 0) [of_int 2]
             eq_refl ltac:(lia) eq_refl eq_refl eq_refl eq_refl eq_refl)).
Defined.

(** ** Which strings [dozenal_to_decimal] rejects *)

Lemma count_char_nonneg (ch : ascii) (u : string) : 0 <= count_char ch u.
Proof.
  induction u as [| c u IH]; cbn [count_char]; [lia |].
  destruct (Ascii.eqb c ch); lia.
Qed.

Lemma split_length (sep : ascii) (u : string) :
  Z.of_nat (List.length (PyStr.split sep u)) = count_char sep u + 1.
Proof.
  induction u as [| c u IH]; [reflexivity |].
  cbn [PyStr.split count_char].
  pose proof (count_char_nonneg sep u) as H0.
  destruct (Ascii.eqb c sep).
  - cbn [List.length]. lia.
  - destruct (PyStr.split sep u) as [| a rest]; cbn [List.length] in *; lia.
Qed.

Lemma split_forallb (u : string) :
  forallb (all_chars _ALLOWED_DIGITS) (PyStr.split "." u) = all_chars digit_or_point u.
Proof.
  induction u as [| c u IH]; [reflexivity |].
  cbn [PyStr.split all_chars]. unfold digit_or_point at 1.
  destruct (Ascii.eqb c ".") eqn:Ec.
  - cbn [forallb all_chars]. rewrite IH. now rewrite orb_true_r.
  - rewrite orb_false_r, <- IH.
    destruct (PyStr.split "." u) as [| a rest]; cbn [forallb all_chars].
    + now rewrite !andb_true_r.
    + now rewrite andb_assoc.
Qed.

Lemma _int_from_base12_loop_ok (s : string) (total : Z) :
  all_chars _ALLOWED_DIGITS s = true ->
  exists n : Z, _int_from_base12_loop s total = Ok n.
Proof.
  revert total. induction s as [| c s IH]; intros total H; cbn [_int_from_base12_loop].
  - eexists; reflexivity.
  - cbn [all_chars] in H. apply andb_true_iff in H as [Hc Hs].
    unfold _ALLOWED_DIGITS in Hc. rewrite Hc. cbn [negb]. now apply IH.
Qed.

Lemma _int_from_base12_loop_err (s : string) (total : Z) :
  all_chars _ALLOWED_DIGITS s = false ->
  exists c : ascii,
    _int_from_base12_loop s total = Error (ValueError_invalid_digit c) /\
    _ALLOWED_DIGITS c = false.
Proof.
  revert total. induction s as [| c s IH]; intros total H; cbn [_int_from_base12_loop].
  - discriminate H.
  - cbn [all_chars] in H. unfold _ALLOWED_DIGITS at 1 in H.
    destruct (PyStr.contains _DOZENAL_DIGITS c) eqn:Hc; cbn [negb andb] in *.
    + now apply IH.
    + exists c. split; [reflexivity | exact Hc].
Qed.

Lemma of_int_nonzero (n : Z) : n <> 0 -> is_zero (of_int n) = false.
Proof.
  intros H. unfold is_zero, of_int. rewrite coeff_make by lia. apply Z.eqb_neq. lia.
Qed.

Lemma dozenal_to_decimal_loop_ok (p : Z) (s : string) (frac_total power : Decimal) :
  1 <= p -> is_zero power = false ->
  all_chars _ALLOWED_DIGITS s = true ->
  exists r : Decimal, dozenal_to_decimal_loop p s frac_total power = Ok r.
Proof.
  intros Hp. revert frac_total power.
  induction s as [| c s IH]; intros frac_total power Hpow H; cbn [dozenal_to_decimal_loop].
  - eexists; reflexivity.
  - cbn [all_chars] in H. apply andb_true_iff in H as [Hc Hs].
    unfold _ALLOWED_DIGITS in Hc. rewrite Hc. cbn [negb].
    assert (Hpow' : is_zero (mul p power (of_int 12)) = false).
    { apply mul_nonzero; [exact Hp | exact Hpow | apply of_int_nonzero; lia]. }
    destruct (truediv_ok p (of_int (PyStr.index _DOZENAL_DIGITS c)) _ Hpow') as [t ->].
    cbn [bind]. now apply IH.
Qed.

Lemma dozenal_to_decimal_loop_err (p : Z) (s : string) (frac_total power : Decimal) :
  1 <= p -> is_zero power = false ->
  all_chars _ALLOWED_DIGITS s = false ->
  exists c : ascii,
    dozenal_to_decimal_loop p s frac_total power = Error (ValueError_invalid_digit c) /\
    _ALLOWED_DIGITS c = false.
Proof.
  intros Hp. revert frac_total power.
  induction s as [| c s IH]; intros frac_total power Hpow H; cbn [dozenal_to_decimal_loop].
  - discriminate H.
  - cbn [all_chars] in H. unfold _ALLOWED_DIGITS at 1 in H.
    destruct (PyStr.contains _DOZENAL_DIGITS c) eqn:Hc; cbn [negb andb] in *.
    + assert (Hpow' : is_zero (mul p power (of_int 12)) = false).
      { apply mul_nonzero; [exact Hp | exact Hpow | apply of_int_nonzero; lia]. }
      destruct (truediv_ok p (of_int (PyStr.index _DOZENAL_DIGITS c)) _ Hpow') as [t ->].
      cbn [bind]. now apply IH.
    + exists c. split; [reflexivity | exact Hc].
Qed.

(** The outcome of [dozenal_to_decimal], case by case, under a context
    precision of at least 1 (the least the [decimal] module accepts). *)
Lemma dozenal_to_decimal_cases (s : string) (ctx : context) :
  1 <= prec ctx ->
  let t := PyStr.upper (PyStr.strip s) in
  let u := without_sign t in
  (t = "" -> dozenal_to_decimal s ctx = Error ValueError_empty_string) /\
  (t <> "" -> 1 < count_char "." u ->
   dozenal_to_decimal s ctx = Error ValueError_more_than_one_point) /\
  (t <> "" -> count_char "." u <= 1 -> all_chars digit_or_point u = false ->
   exists c : ascii,
     dozenal_to_decimal s ctx = Error (ValueError_invalid_digit c) /\
     _ALLOWED_DIGITS c = false) /\
  (t <> "" -> count_char "." u <= 1 -> all_chars digit_or_point u = true ->
   exists v : number_value, dozenal_to_decimal s ctx = Ok v).
Proof.
  intros Hp t u.
  assert (Hdef : dozenal_to_decimal s ctx =
    if String.eqb t "" then Error ValueError_empty_string
    else
      let parts := PyStr.split "."%char u in
      if 2 <? Z.of_nat (List.length parts) then Error ValueError_more_than_one_point
      else
        let int_str := if String.eqb (nth 0 parts "") "" then "0" else nth 0 parts "" in
        do integer_value <- _int_from_base12 int_str;
        if Z.of_nat (List.length parts) =? 1
        then Ok (IntValue ((if match t with
                               | String c _ => Ascii.eqb c "-"
                               | EmptyString => false
                               end then -1 else 1) * integer_value))
        else
          do frac_total <- dozenal_to_decimal_loop (prec ctx) (nth 1 parts "")
                             (of_int 0) (of_int 1);
          Ok (DecimalValue
                (mul (prec ctx) (add (prec ctx) (of_int integer_value) frac_total)
                   (of_int (if match t with
                               | String c _ => Ascii.eqb c "-"
                               | EmptyString => false
                               end then -1 else 1))))).
  { unfold dozenal_to_decimal. fold t. unfold u, without_sign.
    destruct t as [| c t']; [reflexivity |].
    destruct (Ascii.eqb c "-"); reflexivity. }
  rewrite Hdef. clear Hdef.
  pose proof (split_length "." u) as Hlen.
  pose proof (split_forallb u) as Hall.
  destruct (String.eqb_spec t "") as [Ht | Ht].
  { split; [reflexivity |]. repeat split; intros; contradiction. }
  split; [intros; contradiction |].
  cbv zeta.
  destruct (PyStr.split "." u) as [| a [| b rest]] eqn:Es.
  - cbn [List.length] in Hlen. pose proof (count_char_nonneg "." u). lia.
  - (* no point *)
    cbn [List.length] in Hlen. cbn [forallb] in Hall. rewrite andb_true_r in Hall.
    assert (Hcount : count_char "." u = 0) by lia.
    cbn [List.length nth]. change (2 <? Z.of_nat 1) with false. cbv iota.
    change (Z.of_nat 1 =? 1) with true.
    split; [intros _ H; lia |].
    split; intros _ _ Hchars; rewrite Hchars in Hall.
    + destruct a as [| c a']; [discriminate Hall |].
      destruct (String.eqb_spec (String c a') "") as [E | _]; [discriminate E |].
      destruct (_int_from_base12_loop_err _ 0 Hall) as (ch & Herr & Hch).
      exists ch. unfold _int_from_base12. rewrite Herr. split; [reflexivity | exact Hch].
    + destruct (String.eqb_spec a "") as [E | _].
      * eexists. reflexivity.
      * destruct (_int_from_base12_loop_ok _ 0 Hall) as (n & Hok).
        unfold _int_from_base12. rewrite Hok. eexists. reflexivity.
  - destruct rest as [| c rest].
    + (* one point *)
      cbn [List.length] in Hlen. cbn [forallb] in Hall. rewrite andb_true_r in Hall.
      cbn [List.length nth]. change (2 <? Z.of_nat 2) with false. cbv iota.
      change (Z.of_nat 2 =? 1) with false.
      assert (Hone : is_zero (of_int 1) = false) by reflexivity.
      split; [intros _ H; lia |].
      split; intros _ _ Hchars; rewrite Hchars in Hall.
      * destruct (all_chars _ALLOWED_DIGITS a) eqn:Ha.
        -- cbn [andb] in Hall.
           assert (Hint : exists n, _int_from_base12
                     (if String.eqb a "" then "0" else a) = Ok n).
           { destruct (String.eqb_spec a "") as [E | _]; [eexists; reflexivity |].
             exact (_int_from_base12_loop_ok _ 0 Ha). }
           destruct Hint as (n & ->). cbn [bind].
           destruct (dozenal_to_decimal_loop_err (prec ctx) b (of_int 0) (of_int 1)
                       Hp Hone Hall) as (ch & Herr & Hch).
           exists ch. rewrite Herr. split; [reflexivity | exact Hch].
        -- destruct a as [| c a']; [discriminate Ha |].
           destruct (String.eqb_spec (String c a') "") as [E | _]; [discriminate E |].
           destruct (_int_from_base12_loop_err _ 0 Ha) as (ch & Herr & Hch).
           exists ch. unfold _int_from_base12. rewrite Herr. split; [reflexivity | exact Hch].
      * apply andb_true_iff in Hall as [Ha Hb].
        assert (Hint : exists n, _int_from_base12
                  (if String.eqb a "" then "0" else a) = Ok n).
        { destruct (String.eqb_spec a "") as [E | _]; [eexists; reflexivity |].
          exact (_int_from_base12_loop_ok _ 0 Ha). }
        destruct Hint as (n & ->). cbn [bind].
        destruct (dozenal_to_decimal_loop_ok (prec ctx) b (of_int 0) (of_int 1)
                    Hp Hone Hb) as (r & ->).
        cbn [bind]. eexists. reflexivity.
    + (* two points or more *)
      cbn [List.length] in Hlen.
      assert (Hbig : (2 <? Z.of_nat (List.length (a :: b :: c :: rest))) = true).
      { apply Z.ltb_lt. cbn [List.length]. lia. }
      rewrite Hbig.
      split; [reflexivity |].
      split; intros _ H; lia.
Qed.

(** C4, as the code has it. Under a context precision of at least 1,
    [dozenal_to_decimal(s)] raises if and only if [s] is empty after
    trimming and case folding, or what remains after one optional leading
    ['-'] holds more than one point or a character that is neither a digit
    of the alphabet nor the point; the error is then the empty-string
    error, the more-than-one-point error, or an invalid-digit error, in
    that order of precedence.  This is the rule of the claim except on the
    lone sign ["-"], which is accepted.  ["T"] is 10, ["E"] is 11, ["G"]
    raises the invalid-digit error and ["1.2.3"] the invalid-format
    error. *)
Theorem C4_rejected_strings (s : string) (ctx : context) :
  1 <= prec ctx ->
  is_ok (dozenal_to_decimal s ctx) = negb (rejected s) /\
  (rejected s = true ->
   dozenal_to_decimal s ctx =
     (if String.eqb (PyStr.upper (PyStr.strip s)) "" then Error ValueError_empty_string
      else Error ValueError_more_than_one_point) \/
   exists c : ascii,
     dozenal_to_decimal s ctx = Error (ValueError_invalid_digit c) /\
     _ALLOWED_DIGITS c = false) /\
  (PyStr.upper (PyStr.strip s) <> "-" -> rejected s = rejected_as_claimed s) /\
  dozenal_to_decimal "T" ctx = Ok (IntValue 10) /\
  dozenal_to_decimal "E" ctx = Ok (IntValue 11) /\
  dozenal_to_decimal "G" ctx = Error (ValueError_invalid_digit "G") /\
  dozenal_to_decimal "1.2.3" ctx = Error ValueError_more_than_one_point.
Proof.
  intros Hp.
  destruct (dozenal_to_decimal_cases s ctx Hp) as (He & Hm & Hd & Hok).
  unfold rejected, rejected_as_claimed.
  set (t := PyStr.upper (PyStr.strip s)) in *.
  set (u := without_sign t) in *.
  split; [| split; [| split; [| repeat split]]].
  - destruct (String.eqb_spec t "") as [Ht | Ht].
    + rewrite (He Ht). reflexivity.
    + cbn [orb]. destruct (Z.ltb_spec 1 (count_char "." u)) as [Hc | Hc].
      * rewrite (Hm Ht Hc). reflexivity.
      * cbn [orb]. destruct (all_chars digit_or_point u) eqn:Ha.
        -- destruct (Hok Ht Hc eq_refl) as (v & ->). reflexivity.
        -- destruct (Hd Ht Hc eq_refl) as (c & -> & _). reflexivity.
  - destruct (String.eqb_spec t "") as [Ht | Ht].
    + intros _. left. exact (He Ht).
    + cbn [orb]. destruct (Z.ltb_spec 1 (count_char "." u)) as [Hc | Hc].
      * intros _. left. exact (Hm Ht Hc).
      * cbn [orb]. destruct (all_chars digit_or_point u) eqn:Ha; [discriminate |].
        intros _. right. exact (Hd Ht Hc eq_refl).
  - intros Hminus. f_equal. f_equal.
    subst u. destruct t as [| c t']; [reflexivity |].
    cbn [without_sign]. destruct (Ascii.eqb_spec c "-") as [-> | Hc].
    + destruct t' as [| c' t'']; [contradiction | reflexivity].
    + reflexivity.
Qed.

Lemma C4_rejected_strings_witness :
  1 <= prec DefaultContext /\
  is_ok (dozenal_to_decimal " -1e.6 " DefaultContext) = negb (rejected " -1e.6 ") /\
  is_ok (dozenal_to_decimal "1-2" DefaultContext) = negb (rejected "1-2").
Proof.
  split; [cbn; lia |].
  split.
  - exact (proj1 (C4_rejected_strings " -1e.6 " DefaultContext ltac:(cbn; lia))).
  - exact (proj1 (C4_rejected_strings "1-2" DefaultContext ltac:(cbn; lia))).
Defined.

(** C4 fails as stated on the lone sign: after trimming and removing the
    leading ['-'] the string ["-"] is empty, so the claim has it rejected,
    but the code takes the empty integer part for ["0"] and returns 0. *)
Lemma C4_counterexample :
  without_sign (PyStr.upper (PyStr.strip "-")) = "" /\
  rejected_as_claimed "-" = true /\
  dozenal_to_decimal "-" DefaultContext = Ok (IntValue 0).
Proof. repeat split. Qed.

(** ** The tokenizer *)

Lemma append_assoc (a b c : string) : (a ++ b) ++ c = a ++ b ++ c.
Proof.
  induction a as [| x a IH]; cbn [append]; [reflexivity | now rewrite IH].
Qed.

Lemma count_char_app (ch : ascii) (a b : string) :
  count_char ch (a ++ b) = count_char ch a + count_char ch b.
Proof.
  induction a as [| c a IH]; cbn [append count_char]; [lia | rewrite IH; lia].
Qed.

Lemma length_app (a b : string) :
  String.length (a ++ b) = (String.length a + String.length b)%nat.
Proof.
  induction a as [| c a IH]; cbn [append String.length]; [reflexivity | now rewrite IH].
Qed.

Lemma digits_have_no_point (ds : string) :
  all_chars _ALLOWED_DIGITS ds = true ->
  count_char "." ds = 0 /\ all_chars digit_or_point ds = true.
Proof.
  induction ds as [| c ds IH]; cbn [all_chars count_char]; [split; reflexivity |].
  intros H. apply andb_true_iff in H as [Hc Hs].
  destruct (IH Hs) as [-> ->].
  destruct (allowed_digit_props c Hc) as (_ & _ & -> & _).
  unfold digit_or_point. rewrite Hc. split; reflexivity.
Qed.

Lemma span_digits_spec (s : string) :
  s = fst (span_digits s) ++ snd (span_digits s) /\
  all_chars _ALLOWED_DIGITS (fst (span_digits s)) = true.
Proof.
  induction s as [| c s [IH1 IH2]]; cbn [span_digits]; [split; reflexivity |].
  destruct (_ALLOWED_DIGITS c) eqn:Hc; [| split; reflexivity].
  destruct (span_digits s) as [ds rest]. cbn [fst snd append all_chars] in *.
  rewrite Hc, IH2. split; [now rewrite <- IH1 | reflexivity].
Qed.

Lemma contains_sign (ch : ascii) :
  PyStr.contains "+-" ch = true -> ch = "+"%char \/ ch = "-"%char.
Proof.
  cbn [PyStr.contains]. intros H.
  destruct (Ascii.eqb_spec "+" ch) as [E | _]; [now left |].
  destruct (Ascii.eqb_spec "-" ch) as [E | _]; [now right | discriminate H].
Qed.

(** [_parse_number] returns a literal of the expected shape, cut from the
    front of the text, and leaves a strictly shorter text. *)
Lemma _parse_number_spec (s tok rest : string) :
  _parse_number s = Ok (tok, rest) ->
  number_text tok /\ s = tok ++ rest /\
  (String.length rest < String.length s)%nat.
Proof.
  unfold _parse_number. destruct s as [| c0 t0]; [discriminate |].
  set (s := String c0 t0).
  set (sg := if PyStr.contains "+-" c0 then (str1 c0, t0) else (EmptyString, s)).
  assert (Hsg : s = fst sg ++ snd sg /\
                (fst sg = "" \/ fst sg = "+" \/ fst sg = "-")).
  { subst sg s.
    destruct (PyStr.contains "+-" c0) eqn:Hc; [| split; [reflexivity | now left]].
    cbn [fst snd]. split; [reflexivity |].
    destruct (contains_sign c0 Hc) as [-> | ->]; [right; now left | right; now right]. }
  destruct sg as [sign s1]. cbn [fst snd] in Hsg. destruct Hsg as [Hs Hsign].
  destruct (span_digits_spec s1) as [Hs1 Hds].
  destruct (span_digits s1) as [ds s2]. cbn [fst snd] in Hs1, Hds.
  destruct (digits_have_no_point ds Hds) as [Hds0 Hdsg].
  assert (Hfinish : forall (frac s3 : string) (digits_seen : bool),
             s2 = frac ++ s3 ->
             all_chars digit_or_point frac = true -> count_char "." frac <= 1 ->
             (digits_seen = true -> ds ++ frac <> "") ->
             (if negb digits_seen then Error ValueError_invalid_number
              else Ok (sign ++ ds ++ frac, s3)) = Ok (tok, rest) ->
             number_text tok /\ s = tok ++ rest /\
             (String.length rest < String.length s)%nat).
  { intros frac s3 digits_seen Hs2 Hfg Hfc Hseen H.
    destruct digits_seen; [| discriminate H]. cbn [negb] in H.
    injection H as <- <-.
    assert (Hw : s = sign ++ (ds ++ frac) ++ s3).
    { rewrite Hs, Hs1, Hs2. now rewrite append_assoc. }
    split; [| split].
    - exists sign, (ds ++ frac). repeat split; auto.
      + now rewrite all_chars_app, Hdsg, Hfg.
      + rewrite count_char_app. lia.
    - rewrite Hw. now rewrite !append_assoc.
    - rewrite Hw, !length_app.
      assert (String.length (ds ++ frac) <> 0)%nat.
      { specialize (Hseen eq_refl). destruct (ds ++ frac); [contradiction | discriminate]. }
      rewrite length_app in *. lia. }
  destruct s2 as [| ch s2'].
  - apply (Hfinish "" ""); try reflexivity; [cbn; lia |].
    intros H. destruct ds; [discriminate H | discriminate].
  - destruct (Ascii.eqb_spec ch ".") as [-> | Hch].
    + destruct (span_digits_spec s2') as [Hs2 Hfs].
      destruct (span_digits s2') as [fs s3]. cbn [fst snd] in Hs2, Hfs.
      destruct (digits_have_no_point fs Hfs) as [Hfs0 Hfsg].
      apply (Hfinish ("." ++ fs) s3).
      * cbn [append]. now rewrite <- Hs2.
      * cbn [append all_chars]. now rewrite Hfsg.
      * cbn [append count_char Ascii.eqb Bool.eqb]. lia.
      * intros _ H. destruct ds; discriminate H.
    + apply (Hfinish "" (String ch s2')); try reflexivity; [cbn; lia |].
      intros H. destruct ds; [discriminate H | discriminate].
Qed.

(** The fuel of [_tokenize_loop] is never exhausted: from the length of
    the unread text on, more fuel changes nothing. *)
Lemma _tokenize_loop_fuel (fuel : nat) :
  forall (s : string) (can_start : bool) (tokens : list Token),
    (String.length s <= fuel)%nat ->
    _tokenize_loop (S fuel) s can_start tokens = _tokenize_loop fuel s can_start tokens.
Proof.
  induction fuel as [| fuel IH]; intros s can_start tokens Hlen.
  - destruct s; [reflexivity | cbn in Hlen; lia].
  - destruct s as [| ch s']; [reflexivity |].
    cbn [String.length] in Hlen.
    assert (Hs' : (String.length s' <= fuel)%nat) by lia.
    assert (Hparse : forall cs toks,
               (do '(token, rest) <- _parse_number (String ch s');
                _tokenize_loop (S fuel) rest cs (toks ++ [(number, token)])%list) =
               (do '(token, rest) <- _parse_number (String ch s');
                _tokenize_loop fuel rest cs (toks ++ [(number, token)])%list)).
    { intros cs toks.
      destruct (_parse_number (String ch s')) as [[token rest] | e] eqn:Ep; [| reflexivity].
      cbn [bind]. apply IH.
      destruct (_parse_number_spec _ _ _ Ep) as (_ & _ & Hlt).
      cbn [String.length] in Hlt. lia. }
    cbn [_tokenize_loop].
    repeat match goal with
           | |- (if ?b then _ else _) = (if ?b then _ else _) => destruct b
           end;
      try reflexivity; try (apply IH; exact Hs'); apply Hparse.
Qed.


Lemma token_wf_other (k : token_kind) (v : string) : k <> number -> token_wf (k, v).
Proof. intros Hk H. cbn in H. contradiction. Qed.

Lemma token_wf_zero : token_wf (number, "0").
Proof.
  intros _. exists "", "0". repeat split; auto; [cbn; lia | discriminate].
Qed.

Lemma _tokenize_loop_wf (fuel : nat) :
  forall (s : string) (can_start : bool) (acc toks : list Token),
    Forall token_wf acc ->
    _tokenize_loop fuel s can_start acc = Ok toks ->
    Forall token_wf toks.
Proof.
  induction fuel as [| fuel IH]; intros s can_start acc toks Hacc H.
  - destruct s; cbn in H; injection H as <-; exact Hacc.
  - destruct s as [| ch s']; [cbn in H; injection H as <-; exact Hacc |].
    assert (Hparse : forall cs,
               (do '(token, rest) <- _parse_number (String ch s');
                _tokenize_loop fuel rest cs (acc ++ [(number, token)])%list) = Ok toks ->
               Forall token_wf toks).
    { intros cs Hp.
      destruct (_parse_number (String ch s')) as [[token rest] | e] eqn:Ep;
        [| discriminate Hp].
      cbn [bind] in Hp.
      eapply IH; [| exact Hp].
      apply Forall_app. split; [exact Hacc |].
      constructor; [| constructor].
      intros _. exact (proj1 (_parse_number_spec _ _ _ Ep)). }
    assert (Hop : forall (k : token_kind) (v : string),
               k <> number -> Forall token_wf (acc ++ [(k, v)])).
    { intros k v Hk. apply Forall_app. split; [exact Hacc |].
      constructor; [now apply token_wf_other | constructor]. }
    cbn [_tokenize_loop] in H.
    break_ifs H;
      try discriminate H;
      try (apply (Hparse _ H));
      try (eapply IH; [| exact H]; first
            [ exact Hacc
            | apply Hop; discriminate
            | apply Forall_app; split; [exact Hacc |];
              constructor; [exact token_wf_zero |];
              constructor; [apply token_wf_other; discriminate | constructor] ]).
Qed.

Lemma _tokenize_wf (expression : string) (toks : list Token) :
  _tokenize expression = Ok toks -> Forall token_wf toks.
Proof. intros H. eapply _tokenize_loop_wf; [constructor | exact H]. Qed.


(** ** Converting the number tokens *)

Lemma digit_or_point_props (c : ascii) :
  digit_or_point c = true ->
  PyStr.isspace c = false /\ PyStr.upper_char c = c /\
  Ascii.eqb c "-" = false /\ Ascii.eqb c "+" = false.
Proof.
  unfold digit_or_point. intros H. apply orb_true_iff in H as [H | H].
  - destruct (allowed_digit_props c H) as (H1 & H2 & _ & H3 & H4 & _). auto.
  - apply Ascii.eqb_eq in H. subst c. repeat split.
Qed.

Lemma plain_text_fixed (sign w : string) :
  sign = "" \/ sign = "+" \/ sign = "-" ->
  all_chars digit_or_point w = true ->
  PyStr.upper (PyStr.strip (sign ++ w)) = sign ++ w.
Proof.
  intros Hsign Hw.
  assert (Hsp : all_chars (fun c => negb (PyStr.isspace c)) w = true).
  { eapply all_chars_impl; [| exact Hw]. intros c Hc.
    destruct (digit_or_point_props c Hc) as (-> & _). reflexivity. }
  assert (Hup : all_chars (fun c => Ascii.eqb (PyStr.upper_char c) c) w = true).
  { eapply all_chars_impl; [| exact Hw]. intros c Hc.
    destruct (digit_or_point_props c Hc) as (_ & -> & _). apply Ascii.eqb_refl. }
  rewrite strip_id, upper_id; [reflexivity | |].
  - rewrite all_chars_app, Hup. now destruct Hsign as [-> | [-> | ->]].
  - rewrite all_chars_app, Hsp. now destruct Hsign as [-> | [-> | ->]].
Qed.

(** A literal without a sign, or with the sign ['-'], converts. *)
Lemma _dozenal_number_to_decimal_ok (minus : bool) (w : string) (ctx : context) :
  1 <= prec ctx ->
  all_chars digit_or_point w = true -> count_char "." w <= 1 -> w <> "" ->
  exists d : Decimal,
    _dozenal_number_to_decimal ((if minus then "-" else "") ++ w) ctx = Ok d.
Proof.
  intros Hp Hw Hc Hne.
  destruct (dozenal_to_decimal_cases ((if minus then "-" else "") ++ w) ctx Hp)
    as (_ & _ & _ & Hok).
  rewrite plain_text_fixed in Hok; [| destruct minus; auto | exact Hw].
  assert (Hu : without_sign ((if minus then "-" else "") ++ w) = w).
  { destruct minus; [reflexivity |].
    destruct w as [| c w']; [reflexivity |].
    cbn [append without_sign]. cbn [all_chars] in Hw.
    apply andb_true_iff in Hw as [Hcw _].
    now destruct (digit_or_point_props c Hcw) as (_ & _ & -> & _). }
  rewrite Hu in Hok.
  destruct Hok as (v & Hv); auto.
  { destruct minus; [discriminate |]. destruct w; [contradiction | discriminate]. }
  unfold _dozenal_number_to_decimal. rewrite Hv. cbn [bind].
  destruct v; eexists; reflexivity.
Qed.

(** A literal with the sign ['+'] is refused: [dozenal_to_decimal] strips
    a leading ['-'] only, and ['+'] is not a digit. *)
Lemma dozenal_to_decimal_plus (w : string) (ctx : context) :
  all_chars digit_or_point w = true -> count_char "." w <= 1 ->
  dozenal_to_decimal ("+" ++ w) ctx = Error (ValueError_invalid_digit "+").
Proof.
  intros Hw Hc. unfold dozenal_to_decimal.
  rewrite (plain_text_fixed "+" w); [| auto | exact Hw].
  cbn [append String.eqb Ascii.eqb Bool.eqb]. cbv iota.
  pose proof (split_length "." ("+" ++ w)) as Hlen.
  cbn [append count_char Ascii.eqb Bool.eqb] in Hlen.
  cbn [PyStr.split Ascii.eqb Bool.eqb] in *. cbv iota in *.
  destruct (PyStr.split "." w) as [| a rest]; cbn [List.length nth] in *.
  - reflexivity.
  - destruct (Z.ltb_spec 2 (Z.of_nat (S (List.length rest)))) as [Hbig | _]; [lia |].
    reflexivity.
Qed.

Lemma _convert_numbers_plus (ctx : context) (toks : list Token) :
  1 <= prec ctx ->
  Forall token_wf toks ->
  (exists rest : string, In (number, String "+" rest) toks) ->
  _convert_numbers toks ctx = Error (ValueError_invalid_digit "+").
Proof.
  intros Hp Hwf. induction Hwf as [| [kind value] toks Htok Hwf IH]; intros (rest & Hin).
  - destruct Hin.
  - cbn [_convert_numbers].
    destruct kind.
    2-4: destruct Hin as [Habs | Hin]; [discriminate Habs |];
         cbn [bind]; rewrite IH by (exists rest; exact Hin); reflexivity.
    destruct (Htok eq_refl) as (sign & w & Hv & Hsign & Hw & Hc & Hne).
    cbn [snd] in Hv. subst value.
    destruct Hsign as [-> | [-> | ->]].
    + destruct (_dozenal_number_to_decimal_ok false w ctx Hp Hw Hc Hne) as (d & Hd).
      cbn [append] in Hd |- *. rewrite Hd. cbn [bind].
      destruct Hin as [Habs | Hin].
      * injection Habs as Habs. subst w. cbn [all_chars] in Hw.
        apply andb_true_iff in Hw as [Hplus _]. discriminate Hplus.
      * rewrite IH by (exists rest; exact Hin). reflexivity.
    + unfold _dozenal_number_to_decimal.
      rewrite (dozenal_to_decimal_plus w ctx Hw Hc). reflexivity.
    + destruct (_dozenal_number_to_decimal_ok true w ctx Hp Hw Hc Hne) as (d & Hd).
      rewrite Hd. cbn [bind].
      destruct Hin as [Habs | Hin]; [discriminate Habs |].
      rewrite IH by (exists rest; exact Hin). reflexivity.
Qed.

(** C10. Where a number may start, a ['+'] not followed by ['('] is read
    by the tokenizer as the sign of a literal; whenever the tokenizer
    accepts an expression and one of its number tokens begins with ['+'],
    [calculate] raises the invalid-digit error on ['+'] (for every
    non-negative precision), because the decoding of a literal removes a
    leading ['-'] only; the same literal with ['-'] converts.  So
    [calculate("+2")] and [calculate("1*+2")] raise, while
    [calculate("-2")] and [calculate("1*-2")] return -2. *)
Theorem C10_plus_signed_literal :
  (forall (fuel : nat) (s' tok rest : string) (tokens : list Token),
      (forall r : string, s' <> String "(" r) ->
      _parse_number (String "+" s') = Ok (tok, rest) ->
      _tokenize_loop (S fuel) (String "+" s') true tokens =
        _tokenize_loop fuel rest false (tokens ++ [(number, tok)]) /\
      exists w : string, tok = String "+" w) /\
  (forall (expression : string) (p : Z) (ctx : context) (toks : list Token)
          (rest : string),
      0 <= p ->
      _tokenize (PyStr.upper (PyStr.strip expression)) = Ok toks ->
      In (number, String "+" rest) toks ->
      fst (calculate expression p ctx) = Error (ValueError_invalid_digit "+")) /\
  (forall (w : string) (ctx : context),
      1 <= prec ctx ->
      all_chars digit_or_point w = true -> count_char "." w <= 1 -> w <> "" ->
      _dozenal_number_to_decimal ("+" ++ w) ctx = Error (ValueError_invalid_digit "+") /\
      exists d : Decimal, _dozenal_number_to_decimal ("-" ++ w) ctx = Ok d) /\
  _tokenize "+2" = Ok [(number, "+2")] /\
  _tokenize "1*+2" = Ok [(number, "1"); (operator, "*"); (number, "+2")] /\
  (forall ctx : context,
      fst (calculate "+2" 12 ctx) = Error (ValueError_invalid_digit "+") /\
      fst (calculate "1*+2" 12 ctx) = Error (ValueError_invalid_digit "+") /\
      fst (calculate "-2" 12 ctx) = Ok (mkCalculatorResult (of_int (-2)) "-2") /\
      fst (calculate "1*-2" 12 ctx) = Ok (mkCalculatorResult (of_int (-2)) "-2")).
Proof.
  split; [| split; [| split; [| repeat split]]].
  - intros fuel s' tok rest tokens Hnext Hparse.
    split.
    + cbn [_tokenize_loop]. change (PyStr.isspace "+") with false.
      change (PyStr.contains "+-" "+") with true. cbn [andb]. cbv iota.
      destruct s' as [| c r].
      * cbn [String.eqb]. rewrite Hparse. reflexivity.
      * destruct (String.eqb_spec (str1 c) "(") as [E | _].
        -- injection E as ->. now destruct (Hnext r).
        -- rewrite Hparse. reflexivity.
    + unfold _parse_number in Hparse.
      change (PyStr.contains "+-" "+") with true in Hparse. cbv iota in Hparse.
      destruct (span_digits s') as [ds s2].
      destruct s2 as [| ch s2'].
      * destruct (negb _); [discriminate Hparse |].
        injection Hparse as <- _. eexists. reflexivity.
      * destruct (Ascii.eqb ch ".").
        -- destruct (span_digits s2') as [fs s3].
           destruct (negb _); [discriminate Hparse |].
           injection Hparse as <- _. eexists. reflexivity.
        -- destruct (negb _); [discriminate Hparse |].
           injection Hparse as <- _. eexists. reflexivity.
  - intros expression p ctx toks rest Hp Htok Hin.
    unfold calculate.
    destruct (String.eqb_spec (PyStr.upper (PyStr.strip expression)) "") as [E | _].
    { rewrite E in Htok. cbn in Htok. injection Htok as <-. destruct Hin. }
    destruct (Z.ltb_spec p 0) as [Hneg | _]; [lia |].
    cbn [fst]. rewrite Htok. cbn [bind].
    rewrite (_convert_numbers_plus _ toks).
    + reflexivity.
    + cbn [prec]. lia.
    + exact (_tokenize_wf _ _ Htok).
    + exists rest. exact Hin.
  - intros w ctx Hp Hw Hc Hne. split.
    + unfold _dozenal_number_to_decimal.
      rewrite (dozenal_to_decimal_plus w ctx Hw Hc). reflexivity.
    + exact (_dozenal_number_to_decimal_ok true w ctx Hp Hw Hc Hne).
Qed.

Lemma C10_plus_signed_literal_witness :
  _tokenize_loop 3 "+2" true [] = _tokenize_loop 2 "" false [(number, "+2")] /\
  fst (calculate " 1*+2 " 12 DefaultContext) = Error (ValueError_invalid_digit "+") /\
  _dozenal_number_to_decimal "+2.6" DefaultContext = Error (ValueError_invalid_digit "+") /\
  (exists d : Decimal, _dozenal_number_to_decimal "-2.6" DefaultContext = Ok d).
Proof.
  destruct C10_plus_signed_literal as (Hstep & Hcalc & Hconv & _).
  split; [| split].
  - refine (proj1 (Hstep 2%nat "2" "+2" "" [] _ eq_refl)). intros r H. discriminate H.
  - refine (Hcalc " 1*+2 " 12 DefaultContext
              [(number, "1"); (operator, "*"); (number, "+2")] "2" _ eq_refl _).
    + lia.
    + right. right. left. reflexivity.
  - refine (Hconv "2.6" DefaultContext _ eq_refl _ _).
    + cbn. lia.
    + cbn. lia.
    + discriminate.
Defined.

(** ** Decimal arithmetic that needs no rounding *)

Lemma _fix_exact (p : Z) (d : Decimal) : ndigits (coeff d) <= p -> _fix p d = d.
Proof.
  intros H. unfold _fix. destruct (is_zero d); [reflexivity |].
  destruct (Z.ltb_spec (dexp d) (ndigits (coeff d) + dexp d - p)); [lia | reflexivity].
Qed.

Lemma is_zero_make (s : bool) (c e : Z) : 0 <= c -> is_zero (make s c e) = (c =? 0).
Proof. intros H. unfold is_zero. now rewrite coeff_make. Qed.

Lemma copy_abs_make (v : Decimal) : copy_abs v = make false (coeff v) (dexp v).
Proof.
  unfold copy_abs, make, coeff. f_equal. lia.
Qed.

Lemma of_int_nonneg (n : Z) : 0 <= n -> of_int n = make false n 0.
Proof.
  intros H. unfold of_int. destruct (Z.ltb_spec n 0); [lia |]. now rewrite Z.abs_eq.
Qed.

Lemma pow10_pos (k : Z) : 0 <= k -> 0 < 10 ^ k.
Proof. intros H. apply Z.pow_pos_nonneg; lia. Qed.

Lemma to_int_make_0 (q : Z) : 0 <= q -> to_int (make false q 0) = q.
Proof.
  intros H. unfold to_int. rewrite dsign_make, dexp_make, coeff_make by lia.
  change (0 <=? 0) with true. cbv iota. rewrite Z.pow_0_r. lia.
Qed.

Lemma scaled_make (s : bool) (c e e' : Z) :
  0 <= c -> scaled (make s c e) e' = (if s then -1 else 1) * c * 10 ^ (e - e').
Proof.
  intros H. unfold scaled. now rewrite dsign_make, dexp_make, coeff_make.
Qed.

Lemma eqb_zero_make (m e : Z) :
  0 <= m -> eqb (make false m e) (of_int 0) = (m =? 0).
Proof.
  intros Hm. unfold eqb, cmp. rewrite dexp_make. change (dexp (of_int 0)) with 0.
  rewrite scaled_make by lia.
  change (scaled (of_int 0) (Z.min e 0)) with (1 * 0 * 10 ^ (0 - Z.min e 0)).
  assert (Hpos : 0 < 10 ^ (e - Z.min e 0)) by (apply pow10_pos; lia).
  destruct (Z.eqb_spec m 0) as [-> | Hne].
  - now rewrite !Z.mul_0_r, !Z.mul_0_l.
  - destruct (Z.compare_spec (1 * m * 10 ^ (e - Z.min e 0))
                (1 * 0 * 10 ^ (0 - Z.min e 0))) as [H | H | H];
      try reflexivity; nia.
Qed.

Lemma ltb_zero (v : Decimal) :
  ltb v (of_int 0) = dsign v && negb (is_zero v).
Proof.
  unfold ltb, cmp, is_zero, scaled. change (dexp (of_int 0)) with 0.
  change (coeff (of_int 0)) with 0. change (dsign (of_int 0)) with false.
  pose proof (coeff_nonneg v) as Hc.
  assert (Hpos : 0 < 10 ^ (dexp v - Z.min (dexp v) 0)) by (apply pow10_pos; lia).
  rewrite Z.mul_0_r, Z.mul_0_l.
  destruct (dsign v); cbn [andb].
  - destruct (Z.eqb_spec (coeff v) 0) as [-> | Hne]; cbn [negb].
    + now rewrite Z.mul_0_r, Z.mul_0_l.
    + destruct (Z.compare_spec (-1 * coeff v * 10 ^ (dexp v - Z.min (dexp v) 0)) 0)
        as [H | H | H]; try reflexivity; nia.
  - destruct (Z.compare_spec (1 * coeff v * 10 ^ (dexp v - Z.min (dexp v) 0)) 0)
      as [H | H | H]; try reflexivity; nia.
Qed.

Lemma digits_getitem_digit (d : Z) :
  0 <= d < 12 -> digits_getitem d = Ok (digit_char d).
Proof.
  intros H.
  assert (Hd : d = 0 \/ d = 1 \/ d = 2 \/ d = 3 \/ d = 4 \/ d = 5 \/ d = 6 \/
               d = 7 \/ d = 8 \/ d = 9 \/ d = 10 \/ d = 11) by lia.
  repeat (destruct Hd as [-> | Hd]; [reflexivity |]).
  subst d; reflexivity.
Qed.

(** Under a working precision [p >= 1]. *)
Section ExactArithmetic.

Variable p : Z.
Hypothesis Hp : 1 <= p.

Lemma _fix_make_exact (s : bool) (c e : Z) :
  0 <= c < 10 ^ p -> _fix p (make s c e) = make s c e.
Proof.
  intros Hc. apply _fix_exact. rewrite coeff_make by lia. now apply ndigits_le.
Qed.

(** [abs] of a Decimal that fits is its exact magnitude. *)
Lemma abs_exact (v : Decimal) :
  coeff v < 10 ^ p -> abs p v = make false (coeff v) (dexp v).
Proof.
  intros Hc. unfold abs. rewrite copy_abs_make.
  apply _fix_make_exact. pose proof (coeff_nonneg v). lia.
Qed.

(** The product by 12 of a Decimal with two spare digits is exact. *)
Lemma mul_12_exact (m e : Z) :
  0 <= m -> 12 * m < 10 ^ p ->
  mul p (make false m e) (of_int 12) = make false (12 * m) e.
Proof.
  intros Hm Hlt. unfold mul.
  rewrite coeff_make by lia. rewrite dexp_make, dsign_make.
  change (coeff (of_int 12)) with 12. change (dexp (of_int 12)) with 0.
  change (dsign (of_int 12)) with false. cbn [xorb].
  rewrite Z.add_0_r, (Z.mul_comm m 12).
  apply _fix_make_exact; lia.
Qed.

(** [d // 1] for a non-negative Decimal below [10^p]: the integer part. *)
Lemma floordiv_one_exact (c e : Z) :
  0 <= c -> c * 10 ^ Z.max 0 e < 10 ^ p ->
  floordiv p (make false c e) (of_int 1) =
  Ok (make false (if 0 <=? e then c * 10 ^ e else c / 10 ^ (- e)) 0).
Proof.
  intros Hc Hfit. unfold floordiv.
  change (is_zero (of_int 1)) with false. cbv iota.
  rewrite dsign_make. change (dsign (of_int 1)) with false. cbn [xorb].
  unfold adjusted. rewrite !dexp_make, !coeff_make by lia.
  change (coeff (of_int 1)) with 1. change (dexp (of_int 1)) with 0.
  change (0 + ndigits 1 - 1) with 0.
  rewrite is_zero_make by lia.
  destruct (Z.eqb_spec c 0) as [-> | Hne].
  { cbn [orb]. do 2 f_equal. destruct (0 <=? e); [lia | reflexivity]. }
  cbn [orb].
  destruct (ndigits_spec c ltac:(lia)) as (Hnd & Hlo & Hhi).
  set (nd := ndigits c) in *.
  assert (Hmax : 0 <= Z.max 0 e) by lia.
  assert (Hadj : e + nd - 1 < p).
  { assert (H : 10 ^ (nd - 1 + Z.max 0 e) < 10 ^ p).
    { rewrite Z.pow_add_r by lia.
      eapply Z.le_lt_trans; [| exact Hfit].
      apply Z.mul_le_mono_nonneg_r; [pose proof (pow10_pos _ Hmax); lia | exact Hlo]. }
    apply (Z.pow_lt_mono_r_iff 10) in H; lia. }
  destruct (Z.leb_spec (e + nd - 1 - 0) (-2)) as [Hsmall | Hbig].
  { (* below one tenth: the quotient is 0 *)
    do 2 f_equal. destruct (Z.leb_spec 0 e) as [He | He]; [lia |].
    symmetry. apply Z.div_small. split; [lia |].
    eapply Z.lt_le_trans; [exact Hhi |]. apply Z.pow_le_mono_r; lia. }
  destruct (Z.leb_spec (e + nd - 1 - 0) p) as [_ | Habs]; [| lia].
  destruct (Z.leb_spec 0 e) as [He | He].
  - rewrite Z.sub_0_r, Z.div_1_r.
    rewrite Z.max_r in Hfit by lia.
    destruct (Z.ltb_spec (c * 10 ^ e) (10 ^ p)); [reflexivity | lia].
  - rewrite Z.mul_1_l, Z.sub_0_l.
    rewrite Z.max_l, Z.pow_0_r, Z.mul_1_r in Hfit by lia.
    assert (Hq : c / 10 ^ (- e) <= c).
    { apply Z.div_le_upper_bound; [apply pow10_pos; lia |].
      pose proof (pow10_pos (- e) ltac:(lia)). nia. }
    destruct (Z.ltb_spec (c / 10 ^ (- e)) (10 ^ p)); [reflexivity | lia].
Qed.

(** Subtracting the integer part from a non-negative Decimal below
    [10^p] leaves the exact fractional part, at the exponent of the
    operand when that is negative. *)
Lemma sub_floor_exact (c e : Z) :
  0 <= c -> c * 10 ^ Z.max 0 e < 10 ^ p ->
  sub p (make false c e)
        (of_int (if 0 <=? e then c * 10 ^ e else c / 10 ^ (- e))) =
  make false (if 0 <=? e then 0 else c mod 10 ^ (- e)) (Z.min e 0).
Proof.
  intros Hc Hfit.
  set (q := if 0 <=? e then c * 10 ^ e else c / 10 ^ (- e)).
  assert (Hq : 0 <= q).
  { subst q. destruct (Z.leb_spec 0 e).
    - pose proof (pow10_pos e ltac:(lia)). nia.
    - apply Z.div_pos; [lia | apply pow10_pos; lia]. }
  unfold sub, add. rewrite (of_int_nonneg q Hq).
  assert (Hneg : copy_negate (make false q 0) = make true q 0) by reflexivity.
  rewrite Hneg. rewrite !is_zero_make, !dexp_make, !dsign_make by lia.
  rewrite !scaled_make by lia.
  destruct (Z.leb_spec 0 e) as [He | He]; subst q.
  - (* an integer-valued Decimal: the difference is zero *)
    rewrite Z.max_r in Hfit by lia.
    rewrite Z.min_r by lia.
    destruct (Z.eqb_spec c 0) as [-> | Hne].
    + rewrite Z.mul_0_l. change (0 =? 0) with true. cbn [andb].
      unfold _fix. now rewrite is_zero_make by lia.
    + pose proof (pow10_pos e He) as Hpe.
      destruct (Z.eqb_spec (c * 10 ^ e) 0) as [H0 | _]; [nia |].
      cbn [andb]. rewrite Z.sub_0_r, Z.pow_0_r.
      replace (1 * c * 10 ^ e + -1 * (c * 10 ^ e) * 1) with 0 by lia.
      change (0 =? 0) with true. cbv iota.
      unfold _fix. now rewrite is_zero_make by lia.
  - rewrite Z.max_l, Z.pow_0_r, Z.mul_1_r in Hfit by lia.
    rewrite Z.min_l by lia.
    pose proof (pow10_pos (- e) ltac:(lia)) as Hpk.
    pose proof (Z.div_mod c (10 ^ (- e)) ltac:(lia)) as Hdm.
    pose proof (Z.mod_pos_bound c (10 ^ (- e)) Hpk) as Hmod.
    destruct (Z.eqb_spec c 0) as [-> | Hne].
    + rewrite Z.div_0_l by lia. change (0 =? 0) with true. cbn [andb].
      rewrite Z.mod_0_l by lia.
      unfold _fix. now rewrite is_zero_make by lia.
    + cbn [andb]. destruct (Z.eqb_spec (c / 10 ^ (- e)) 0) as [Hq0 | Hq0].
      * (* the integer part is 0: the operand itself *)
        unfold rescale_pad. rewrite is_zero_make by lia.
        destruct (Z.eqb_spec c 0) as [| _]; [contradiction |].
        rewrite dsign_make, dexp_make, coeff_make by lia.
        replace (Z.max e (e - p - 1)) with e by lia.
        rewrite Z.sub_diag, Z.pow_0_r, Z.mul_1_r.
        rewrite _fix_make_exact by lia.
        f_equal. rewrite Hq0 in Hdm. lia.
      * replace (e - e) with 0 by lia. replace (0 - e) with (- e) by lia.
        rewrite Z.pow_0_r.
        replace (1 * c * 1 + -1 * (c / 10 ^ (- e)) * 10 ^ (- e))
          with (c mod 10 ^ (- e)) by lia.
        destruct (Z.eqb_spec (c mod 10 ^ (- e)) 0) as [Hm0 | Hm0].
        -- rewrite Hm0. unfold _fix. now rewrite is_zero_make by lia.
        -- destruct (Z.ltb_spec (c mod 10 ^ (- e)) 0) as [Habs | _]; [lia |].
           rewrite Z.abs_eq by lia.
           apply _fix_make_exact.
           assert (c mod 10 ^ (- e) <= c) by (apply Z.mod_le; lia). lia.
Qed.

Section Loop.

Variable k : Z.
Hypothesis Hk : 1 <= k.
Hypothesis Hguard : 12 * 10 ^ k <= 10 ^ p.

(** The loop of [decimal_to_dozenal] on a fraction [m / 10^k] with two
    spare digits in the working precision: every step is exact. *)
Lemma decimal_to_dozenal_loop_exact (n : nat) :
  forall (m : Z) (acc : list ascii),
    0 <= m < 10 ^ k ->
    decimal_to_dozenal_loop p n (make false m (- k)) acc =
    Ok (acc ++ map digit_char (fraction_digits_scaled k n m))%list.
Proof.
  induction n as [| n IH]; intros m acc Hm.
  - cbn [decimal_to_dozenal_loop fraction_digits_scaled map]. now rewrite app_nil_r.
  - cbn [decimal_to_dozenal_loop fraction_digits_scaled].
    pose proof (pow10_pos k ltac:(lia)) as Hpk.
    assert (H12 : 12 * m < 10 ^ p) by lia.
    rewrite (mul_12_exact m (- k)) by lia.
    rewrite (floordiv_one_exact (12 * m) (- k)) by (rewrite ?Z.max_l by lia; lia).
    destruct (Z.leb_spec 0 (- k)) as [Habs | _]; [lia |].
    replace (- - k) with k by lia.
    cbn [bind].
    assert (Hd : 0 <= 12 * m / 10 ^ k < 12).
    { split; [apply Z.div_pos; lia | apply Z.div_lt_upper_bound; lia]. }
    rewrite to_int_make_0 by lia.
    rewrite (digits_getitem_digit _ Hd). cbn [bind].
    pose proof (sub_floor_exact (12 * m) (- k) ltac:(lia)) as Hsub.
    rewrite Z.max_l in Hsub by lia.
    specialize (Hsub ltac:(lia)).
    destruct (Z.leb_spec 0 (- k)) as [Habs | _]; [lia |].
    replace (- - k) with k in Hsub by lia.
    rewrite Z.min_l in Hsub by lia.
    rewrite Hsub.
    pose proof (Z.mod_pos_bound (12 * m) (10 ^ k) Hpk) as Hmod.
    rewrite eqb_zero_make by lia.
    destruct (Z.eqb_spec (12 * m mod 10 ^ k) 0) as [Hz | Hz].
    + reflexivity.
    + rewrite IH by lia. cbn [map]. now rewrite <- app_assoc.
Qed.

End Loop.

End ExactArithmetic.

(** ** The exact rendering on rationals and on scaled integers *)

Lemma Qeq_bool_ext (f g z : Q) : Qeq f g -> Qeq_bool f z = Qeq_bool g z.
Proof.
  intros H. destruct (Qeq_bool f z) eqn:Ef, (Qeq_bool g z) eqn:Eg; try reflexivity.
  - apply Qeq_bool_iff in Ef. rewrite H in Ef. apply Qeq_bool_iff in Ef. congruence.
  - apply Qeq_bool_iff in Eg. rewrite <- H in Eg. apply Qeq_bool_iff in Eg. congruence.
Qed.

Lemma step_ext (f g : Q) :
  Qeq f g ->
  Qfloor (Qmult f (inject_Z 12)) = Qfloor (Qmult g (inject_Z 12)) /\
  Qeq (Qminus (Qmult f (inject_Z 12)) (inject_Z (Qfloor (Qmult f (inject_Z 12)))))
      (Qminus (Qmult g (inject_Z 12)) (inject_Z (Qfloor (Qmult g (inject_Z 12))))).
Proof.
  intros H.
  assert (Hx : Qeq (Qmult f (inject_Z 12)) (Qmult g (inject_Z 12)))
    by (rewrite H; reflexivity).
  assert (Hfl : Qfloor (Qmult f (inject_Z 12)) = Qfloor (Qmult g (inject_Z 12)))
    by (now rewrite Hx).
  split; [exact Hfl |]. rewrite Hfl, Hx. reflexivity.
Qed.

Lemma fraction_digits_spec_ext (n : nat) :
  forall f g : Q, Qeq f g -> fraction_digits_spec n f = fraction_digits_spec n g.
Proof.
  induction n as [| n IH]; intros f g H; cbn [fraction_digits_spec]; [reflexivity |].
  destruct (step_ext f g H) as [Hfl Hr].
  cbv zeta. rewrite (Qeq_bool_ext _ _ _ Hr), (IH _ _ Hr), Hfl. reflexivity.
Qed.


(** One step on [m / 10^k]: the digit and the remainder. *)
Lemma step_scaled (k m : Z) :
  0 <= k ->
  let f := Qmake m (Z.to_pos (10 ^ k)) in
  Qfloor (Qmult f (inject_Z 12)) = 12 * m / 10 ^ k /\
  Qeq (Qminus (Qmult f (inject_Z 12)) (inject_Z (Qfloor (Qmult f (inject_Z 12)))))
      (Qmake (12 * m mod 10 ^ k) (Z.to_pos (10 ^ k))).
Proof.
  intros Hk f.
  pose proof (pow10_pos k Hk) as Hpk.
  assert (HB : Zpos (Z.to_pos (10 ^ k)) = 10 ^ k) by (apply Z2Pos.id; exact Hpk).
  assert (Hfl : Qfloor (Qmult f (inject_Z 12)) = 12 * m / 10 ^ k).
  { subst f. unfold Qmult, Qfloor, inject_Z. cbn [Qnum Qden].
    rewrite Pos.mul_1_r, HB. f_equal. lia. }
  split; [exact Hfl |].
  rewrite Hfl. subst f.
  unfold Qeq, Qminus, Qplus, Qopp, Qmult, inject_Z. cbn [Qnum Qden].
  rewrite !Pos.mul_1_r, HB.
  pose proof (Z.div_mod (12 * m) (10 ^ k) ltac:(lia)) as Hdm.
  nia.
Qed.

Lemma Qeq_bool_scaled_zero (k m : Z) :
  0 <= k -> Qeq_bool (Qmake m (Z.to_pos (10 ^ k))) (inject_Z 0) = (m =? 0).
Proof.
  intros Hk. unfold Qeq_bool, inject_Z. cbn [Qnum Qden].
  rewrite Z.mul_1_r, Z.mul_0_l. reflexivity.
Qed.

Lemma fraction_digits_spec_scaled (k : Z) (n : nat) :
  0 <= k ->
  forall m : Z,
    fraction_digits_spec n (Qmake m (Z.to_pos (10 ^ k))) = fraction_digits_scaled k n m.
Proof.
  intros Hk. induction n as [| n IH]; intros m;
    cbn [fraction_digits_spec fraction_digits_scaled]; [reflexivity |].
  destruct (step_scaled k m Hk) as [Hfl Hr].
  cbv zeta. rewrite (Qeq_bool_ext _ _ _ Hr), Qeq_bool_scaled_zero by exact Hk.
  rewrite (fraction_digits_spec_ext n _ _ Hr), IH, Hfl. reflexivity.
Qed.

(** The integer and fractional parts of a Decimal, as integers. *)
Lemma integer_part_of_scaled (v : Decimal) :
  integer_part_of v =
  if 0 <=? dexp v then coeff v * 10 ^ dexp v else coeff v / 10 ^ (- dexp v).
Proof.
  unfold integer_part_of, magnitude.
  destruct (Z.leb_spec 0 (dexp v)) as [He | He].
  - apply Qfloor_Z.
  - unfold Qfloor. rewrite Z2Pos.id by (apply pow10_pos; lia). reflexivity.
Qed.

Lemma fraction_of_scaled (v : Decimal) :
  Qeq (fraction_of v)
      (if 0 <=? dexp v then inject_Z 0
       else Qmake (coeff v mod 10 ^ (- dexp v)) (Z.to_pos (10 ^ (- dexp v)))).
Proof.
  unfold fraction_of. rewrite integer_part_of_scaled. unfold magnitude.
  destruct (Z.leb_spec 0 (dexp v)) as [He | He].
  - unfold Qeq, Qminus, Qplus, Qopp, inject_Z. cbn [Qnum Qden]. lia.
  - pose proof (pow10_pos (- dexp v) ltac:(lia)) as Hpk.
    unfold Qeq, Qminus, Qplus, Qopp, inject_Z. cbn [Qnum Qden].
    rewrite !Pos.mul_1_r, Z2Pos.id by exact Hpk.
    pose proof (Z.div_mod (coeff v) (10 ^ (- dexp v)) ltac:(lia)) as Hdm.
    nia.
Qed.

Lemma append_nil_r (s : string) : s ++ "" = s.
Proof. induction s as [| c s IH]; cbn [append]; [reflexivity | now rewrite IH]. Qed.


(** On a Decimal that fits the working precision, [decimal_to_dozenal]
    returns the exact rendering. *)
Lemma decimal_to_dozenal_exact (v : Decimal) (frac_precision : Z) (ctx : context) :
  fits (Z.max 28 (frac_precision * 3)) v ->
  decimal_to_dozenal (PyDec v) frac_precision ctx =
  (Ok (render_spec v frac_precision), mkContext (Z.max 28 (frac_precision * 3))).
Proof.
  intros [Hc He].
  set (P := Z.max 28 (frac_precision * 3)) in *.
  assert (HP : 28 <= P) by lia.
  pose proof (coeff_nonneg v) as Hc0.
  pose proof (pow10_pos (Z.max 0 (dexp v)) ltac:(lia)) as Hpm.
  assert (Hc1 : coeff v < 10 ^ P) by nia.
  unfold decimal_to_dozenal. fold P. cbn [prec bind]. f_equal.
  rewrite ltb_zero, (abs_exact P ltac:(lia) v Hc1).
  rewrite (floordiv_one_exact P ltac:(lia) (coeff v) (dexp v)) by lia.
  cbn [bind].
  assert (Hq : 0 <= (if 0 <=? dexp v then coeff v * 10 ^ dexp v
                     else coeff v / 10 ^ (- dexp v))).
  { destruct (Z.leb_spec 0 (dexp v)).
    - pose proof (pow10_pos (dexp v) ltac:(lia)). nia.
    - apply Z.div_pos; [lia | apply pow10_pos; lia]. }
  rewrite to_int_make_0 by exact Hq.
  rewrite (sub_floor_exact P ltac:(lia) (coeff v) (dexp v)) by lia.
  unfold render_spec, sign_text.
  rewrite <- integer_part_of_scaled.
  rewrite (Qeq_bool_ext _ _ _ (fraction_of_scaled v)).
  destruct (Z.leb_spec 0 (dexp v)) as [Hpos | Hneg].
  - rewrite eqb_zero_make by lia. change (0 =? 0) with true.
    change (Qeq_bool (inject_Z 0) (inject_Z 0)) with true.
    rewrite orb_true_r. now rewrite append_nil_r.
  - pose proof (pow10_pos (- dexp v) ltac:(lia)) as Hpk.
    pose proof (Z.mod_pos_bound (coeff v) (10 ^ (- dexp v)) Hpk) as Hmod.
    rewrite eqb_zero_make by lia.
    rewrite Qeq_bool_scaled_zero by lia.
    destruct ((frac_precision <=? 0) || (coeff v mod 10 ^ (- dexp v) =? 0)) eqn:Eg.
    + now rewrite append_nil_r.
    + rewrite Z.min_l by lia.
      replace (dexp v) with (- - dexp v) at 2 by lia.
      rewrite (decimal_to_dozenal_loop_exact P ltac:(lia) (- dexp v)); try lia.
      * cbn [bind app]. do 4 f_equal.
        rewrite (fraction_digits_spec_ext _ _ _ (fraction_of_scaled v)).
        destruct (Z.leb_spec 0 (dexp v)) as [Habs | _]; [lia |].
        now rewrite fraction_digits_spec_scaled by lia.
      * (* two guard digits *)
        assert (H2 : 10 ^ (- dexp v) * 10 ^ 2 <= 10 ^ P).
        { rewrite <- Z.pow_add_r by lia. apply Z.pow_le_mono_r; lia. }
        change (10 ^ 2) with 100 in H2. lia.
Qed.




(** ** Fractional digits *)




(** * Further properties of the converter *)

(** ** The base-12 numerals of integers *)

Lemma _int_from_base12_loop_value (s : string) :
  all_chars _ALLOWED_DIGITS s = true ->
  exists v : Z,
    0 <= v < 12 ^ PyStr.len s /\
    forall total : Z, _int_from_base12_loop s total = Ok (total * 12 ^ PyStr.len s + v).
Proof.
  induction s as [| c s IH]; intros H.
  - exists 0. split; [cbn; lia |]. intros total. cbn. f_equal. lia.
  - cbn [all_chars] in H. apply andb_true_iff in H as [Hc Hs].
    destruct (IH Hs) as (v & Hv & Hloop).
    destruct (allowed_digit_props c Hc) as (_ & _ & _ & _ & _ & Hi).
    assert (Hlen : PyStr.len (String c s) = PyStr.len s + 1).
    { unfold PyStr.len. cbn [String.length]. lia. }
    assert (Hl0 : 0 <= PyStr.len s) by (unfold PyStr.len; lia).
    pose proof (Z.pow_pos_nonneg 12 (PyStr.len s) ltac:(lia) Hl0) as Hpos.
    exists (PyStr.index _DOZENAL_DIGITS c * 12 ^ PyStr.len s + v).
    rewrite Hlen, Z.pow_add_r, Z.pow_1_r by lia.
    split; [nia |].
    intros total. cbn [_int_from_base12_loop].
    unfold _ALLOWED_DIGITS in Hc. rewrite Hc. cbn [negb].
    rewrite Hloop. f_equal. ring.
Qed.

Lemma index_digit_inj (c1 c2 : ascii) :
  _ALLOWED_DIGITS c1 = true -> _ALLOWED_DIGITS c2 = true ->
  PyStr.index _DOZENAL_DIGITS c1 = PyStr.index _DOZENAL_DIGITS c2 -> c1 = c2.
Proof.
  intros H1 H2 Hi.
  assert (Hback : forall c, _ALLOWED_DIGITS c = true ->
                    digit_char (PyStr.index _DOZENAL_DIGITS c) = c).
  { intros c. destruct c as [[] [] [] [] [] [] [] []]; vm_compute; intros H;
      try discriminate H; reflexivity. }
  rewrite <- (Hback c1 H1), <- (Hback c2 H2), Hi. reflexivity.
Qed.

(** Two numerals of the same length and value are the same string. *)
Lemma _int_from_base12_inj_len (s1 : string) :
  forall (s2 : string) (v : Z),
    all_chars _ALLOWED_DIGITS s1 = true -> all_chars _ALLOWED_DIGITS s2 = true ->
    String.length s1 = String.length s2 ->
    _int_from_base12 s1 = Ok v -> _int_from_base12 s2 = Ok v -> s1 = s2.
Proof.
  unfold _int_from_base12.
  induction s1 as [| c1 s1 IH]; intros [| c2 s2] v H1 H2 Hlen E1 E2;
    try discriminate Hlen; [reflexivity |].
  cbn [all_chars] in H1, H2.
  apply andb_true_iff in H1 as [Hc1 Hs1]. apply andb_true_iff in H2 as [Hc2 Hs2].
  destruct (_int_from_base12_loop_value s1 Hs1) as (v1 & Hv1 & L1).
  destruct (_int_from_base12_loop_value s2 Hs2) as (v2 & Hv2 & L2).
  cbn [_int_from_base12_loop] in E1, E2.
  unfold _ALLOWED_DIGITS in Hc1, Hc2. rewrite Hc1 in E1. rewrite Hc2 in E2.
  cbn [negb] in E1, E2. rewrite L1 in E1. rewrite L2 in E2.
  set (i1 := PyStr.index _DOZENAL_DIGITS c1) in *.
  set (i2 := PyStr.index _DOZENAL_DIGITS c2) in *.
  assert (E1' : (0 * 12 + i1) * 12 ^ PyStr.len s1 + v1 = v) by congruence.
  assert (E2' : (0 * 12 + i2) * 12 ^ PyStr.len s2 + v2 = v) by congruence.
  clear E1 E2.
  injection Hlen as Hlen.
  assert (Hl : PyStr.len s1 = PyStr.len s2) by (unfold PyStr.len; lia).
  rewrite Hl in *.
  destruct (allowed_digit_props c1 Hc1) as (_ & _ & _ & _ & _ & Hi1).
  destruct (allowed_digit_props c2 Hc2) as (_ & _ & _ & _ & _ & Hi2).
  fold i1 in Hi1. fold i2 in Hi2.
  assert (Hl0 : 0 <= PyStr.len s2) by (unfold PyStr.len; lia).
  pose proof (Z.pow_pos_nonneg 12 (PyStr.len s2) ltac:(lia) Hl0) as Hpos.
  assert (Hidx : i1 = i2 /\ v1 = v2).
  { assert (Hq : i1 = i2).
    { destruct (Z.lt_trichotomy i1 i2) as [Hlt | [Heq | Hgt]]; [| exact Heq |].
      - assert ((i1 + 1) * 12 ^ PyStr.len s2 <= i2 * 12 ^ PyStr.len s2)
          by (apply Z.mul_le_mono_nonneg_r; lia). lia.
      - assert ((i2 + 1) * 12 ^ PyStr.len s2 <= i1 * 12 ^ PyStr.len s2)
          by (apply Z.mul_le_mono_nonneg_r; lia). lia. }
    split; [exact Hq | rewrite Hq in E1'; lia]. }
  destruct Hidx as [Hidx Hv].
  f_equal.
  - now apply index_digit_inj.
  - apply (IH s2 v1); auto; rewrite ?L1, ?L2; f_equal; lia.
Qed.

Lemma _int_to_base12_loop_zero (fuel : nat) (acc : list ascii) :
  _int_to_base12_loop fuel 0 acc = acc.
Proof. destruct fuel; reflexivity. Qed.

(** The digits written do not depend on the fuel, once it is enough. *)
Lemma _int_to_base12_loop_more (fuel : nat) :
  forall (fuel' : nat) (n : Z),
    0 <= n < 12 ^ Z.of_nat fuel -> n < 12 ^ Z.of_nat fuel' ->
    _int_to_base12_loop fuel n [] = _int_to_base12_loop fuel' n [].
Proof.
  induction fuel as [| fuel IH]; intros fuel' n Hn Hn'.
  - cbn in Hn. assert (n = 0) by lia. subst n.
    now rewrite !_int_to_base12_loop_zero.
  - destruct fuel' as [| fuel'].
    + cbn in Hn'. assert (n = 0) by lia. subst n.
      now rewrite !_int_to_base12_loop_zero.
    + cbn [_int_to_base12_loop]. destruct (Z.ltb_spec 0 n) as [Hpos | _]; [| reflexivity].
      rewrite _int_to_base12_loop_acc.
      rewrite (_int_to_base12_loop_acc fuel').
      f_equal. rewrite !Nat2Z.inj_succ, !Z.pow_succ_r in * by lia.
      apply IH.
      * split; [apply Z.div_pos; lia | apply Z.div_lt_upper_bound; lia].
      * apply Z.div_lt_upper_bound; lia.
Qed.

(** One more digit: the numeral of [n] is that of [n // 12] followed by
    the digit of [n % 12]. *)
Lemma _int_to_base12_step (n : Z) :
  0 < n ->
  _int_to_base12 n =
  (if n <? 12 then "" else _int_to_base12 (n / 12)) ++ str1 (digit_char (n mod 12)).
Proof.
  intros Hn. unfold _int_to_base12 at 1.
  destruct (Z.eqb_spec n 0) as [-> | _]; [lia |].
  cbn [_int_to_base12_loop]. destruct (Z.ltb_spec 0 n) as [_ | Habs]; [| lia].
  rewrite _int_to_base12_loop_acc, rev_app_distr, join_app. cbn [rev app].
  f_equal.
  pose proof (log2_fuel_12 n Hn) as Hfuel.
  rewrite Nat2Z.inj_succ, Z.pow_succ_r in Hfuel by lia.
  destruct (Z.ltb_spec n 12) as [Hsmall | Hbig].
  - rewrite Z.div_small by lia. now rewrite _int_to_base12_loop_zero.
  - assert (Hq : 0 < n / 12) by (apply Z.div_str_pos; lia).
    unfold _int_to_base12.
    destruct (Z.eqb_spec (n / 12) 0) as [E | _]; [lia |].
    do 2 f_equal. apply _int_to_base12_loop_more.
    + split; [lia | apply Z.div_lt_upper_bound; lia].
    + now apply log2_fuel_12.
Qed.

Lemma len_app (a b : string) : PyStr.len (a ++ b) = PyStr.len a + PyStr.len b.
Proof. unfold PyStr.len. rewrite length_app. lia. Qed.

Lemma leading_nonzero_app (a b : string) :
  leading_nonzero a = true -> leading_nonzero (a ++ b) = true.
Proof. destruct a; [discriminate | trivial]. Qed.

(** The numeral of a positive int: digits, no leading zero, and as many
    of them as the int needs. *)
Lemma _int_to_base12_shape (n : Z) :
  0 < n ->
  all_chars _ALLOWED_DIGITS (_int_to_base12 n) = true /\
  leading_nonzero (_int_to_base12 n) = true /\
  12 ^ (PyStr.len (_int_to_base12 n) - 1) <= n < 12 ^ PyStr.len (_int_to_base12 n).
Proof.
  intros Hn. assert (H0 : 0 <= n) by lia. revert Hn.
  pattern n. apply Z_lt_induction; [| exact H0]. clear n H0.
  intros n IH Hn.
  rewrite (_int_to_base12_step n Hn).
  assert (Hr : 0 <= n mod 12 < 12) by (apply Z.mod_pos_bound; lia).
  destruct (digit_char_allowed _ Hr) as [Hd Hi].
  pose proof (Z.div_mod n 12 ltac:(lia)) as Hdm.
  destruct (Z.ltb_spec n 12) as [Hsmall | Hbig].
  - rewrite Z.mod_small in * by lia. cbn [append str1 all_chars leading_nonzero].
    rewrite Hd. repeat split; try (cbn; lia).
    assert (Hc : n = 1 \/ n = 2 \/ n = 3 \/ n = 4 \/ n = 5 \/ n = 6 \/ n = 7 \/
                 n = 8 \/ n = 9 \/ n = 10 \/ n = 11) by lia.
    repeat (destruct Hc as [-> | Hc]; [reflexivity |]). subst n; reflexivity.
  - assert (Hq : 0 <= n / 12 < n).
    { split; [apply Z.div_pos; lia | apply Z.div_lt; lia]. }
    destruct (IH (n / 12) Hq ltac:(apply Z.div_str_pos; lia)) as (Ha & Hl & Hlo & Hhi).
    set (sq := _int_to_base12 (n / 12)) in *.
    rewrite all_chars_app, Ha, len_app.
    cbn [str1 all_chars]. rewrite Hd.
    change (PyStr.len (str1 (digit_char (n mod 12)))) with 1.
    assert (Hlen : 1 <= PyStr.len sq).
    { unfold PyStr.len. destruct sq; [discriminate Hl | cbn [String.length]; lia]. }
    repeat split; [now apply leading_nonzero_app | |].
    + replace (PyStr.len sq + 1 - 1) with (Z.succ (PyStr.len sq - 1)) by lia.
      rewrite Z.pow_succ_r by lia. lia.
    + rewrite Z.pow_add_r, Z.pow_1_r by lia. lia.
Qed.

Lemma canonical_of_shape (s : string) :
  all_chars _ALLOWED_DIGITS s = true -> leading_nonzero s = true -> canonical s = true.
Proof.
  destruct s as [| c [| c' s']]; cbn [canonical all_chars leading_nonzero]; intros Ha Hl.
  - discriminate Hl.
  - now rewrite andb_true_r in Ha.
  - now rewrite Hl, Ha.
Qed.

(** X1. [_int_to_base12] writes canonical numerals: ["0"] for 0, and for
    a positive int a string of alphabet digits without a leading zero,
    whose length [L] is the number of base-12 digits of the int,
    [12^(L-1) <= n < 12^L].  On a negative int (outside its contract) it
    returns the empty string. *)
Theorem X1_int_to_base12_canonical (n : Z) :
  (0 <= n -> canonical (_int_to_base12 n) = true) /\
  (0 < n ->
   leading_nonzero (_int_to_base12 n) = true /\
   12 ^ (PyStr.len (_int_to_base12 n) - 1) <= n < 12 ^ PyStr.len (_int_to_base12 n)) /\
  (n = 0 -> _int_to_base12 n = "0") /\
  (n < 0 -> _int_to_base12 n = "").
Proof.
  split; [| split; [| split]].
  - intros Hn. destruct (Z.eq_dec n 0) as [-> | Hne]; [reflexivity |].
    destruct (_int_to_base12_shape n ltac:(lia)) as (Ha & Hl & _).
    now apply canonical_of_shape.
  - intros Hn. destruct (_int_to_base12_shape n Hn) as (_ & Hl & Hb). now split.
  - intros ->. reflexivity.
  - intros Hn. unfold _int_to_base12.
    destruct (Z.eqb_spec n 0) as [E | _]; [lia |].
    cbn [_int_to_base12_loop]. destruct (Z.ltb_spec 0 n) as [Habs | _]; [lia | reflexivity].
Qed.

Lemma X1_int_to_base12_canonical_witness :
  canonical (_int_to_base12 143) = true /\
  12 ^ (PyStr.len (_int_to_base12 143) - 1) <= 143 < 12 ^ PyStr.len (_int_to_base12 143) /\
  _int_to_base12 (-5) = "".
Proof.
  destruct (X1_int_to_base12_canonical 143) as (H1 & H2 & _).
  destruct (X1_int_to_base12_canonical (-5)) as (_ & _ & _ & H4).
  split; [apply H1; lia | split; [apply H2; lia | apply H4; lia]].
Defined.

Lemma index_leading_nonzero (c : ascii) :
  _ALLOWED_DIGITS c = true -> Ascii.eqb c "0" = false ->
  1 <= PyStr.index _DOZENAL_DIGITS c.
Proof.
  intros Ha Hz. destruct (allowed_digit_props c Ha) as (_ & _ & _ & _ & _ & Hi).
  destruct (Z.eq_dec (PyStr.index _DOZENAL_DIGITS c) 0) as [E | NE]; [| lia].
  assert (c = "0"%char) by (apply index_digit_inj; [assumption | reflexivity | exact E]).
  subst c. discriminate Hz.
Qed.

(** A numeral without a leading zero is worth at least [12^(L-1)]. *)
Lemma _int_from_base12_lower (s : string) (v : Z) :
  all_chars _ALLOWED_DIGITS s = true -> leading_nonzero s = true ->
  _int_from_base12 s = Ok v ->
  12 ^ (PyStr.len s - 1) <= v < 12 ^ PyStr.len s.
Proof.
  intros Ha Hl E. destruct s as [| c t]; [discriminate Hl |].
  cbn [all_chars] in Ha. apply andb_true_iff in Ha as [Hc Ht].
  cbn [leading_nonzero] in Hl. apply negb_true_iff in Hl.
  pose proof (index_leading_nonzero c Hc Hl) as Hi.
  destruct (allowed_digit_props c Hc) as (_ & _ & _ & _ & _ & Hi').
  destruct (_int_from_base12_loop_value t Ht) as (vt & Hvt & Hloop).
  unfold _int_from_base12 in E. cbn [_int_from_base12_loop] in E.
  unfold _ALLOWED_DIGITS in Hc. rewrite Hc in E. cbn [negb] in E.
  set (i := PyStr.index _DOZENAL_DIGITS c) in *.
  rewrite Hloop in E. injection E as <-.
  assert (Hlen : PyStr.len (String c t) = Z.succ (PyStr.len t)).
  { unfold PyStr.len. cbn [String.length]. lia. }
  assert (Hnn : 0 <= PyStr.len t) by (unfold PyStr.len; lia).
  rewrite Hlen, Z.pow_succ_r by lia.
  replace (Z.succ (PyStr.len t) - 1) with (PyStr.len t) by lia.
  assert (Hp : 0 < 12 ^ PyStr.len t) by (apply Z.pow_pos_nonneg; lia).
  split; nia.
Qed.

Lemma canonical_inv (s : string) :
  canonical s = true ->
  all_chars _ALLOWED_DIGITS s = true /\ (s = "0" \/ leading_nonzero s = true).
Proof.
  destruct s as [| c [| c' t]]; cbn [canonical]; intros H.
  - discriminate H.
  - cbn [all_chars leading_nonzero]. rewrite H. split; [reflexivity |].
    destruct (Ascii.eqb_spec c "0") as [-> | NE]; [now left | now right].
  - apply andb_true_iff in H as [Hl Ha]. split; [exact Ha | now right].
Qed.

Lemma pow12_length_unique (a b v : Z) :
  0 <= a -> 0 <= b ->
  12 ^ (a - 1) <= v < 12 ^ a -> 12 ^ (b - 1) <= v < 12 ^ b -> a = b.
Proof.
  intros Ha Hb [Hal Hau] [Hbl Hbu].
  destruct (Z.lt_trichotomy a b) as [L | [E | L]]; [| exact E |].
  - assert (12 ^ a <= 12 ^ (b - 1)) by (apply Z.pow_le_mono_r; lia). lia.
  - assert (12 ^ b <= 12 ^ (a - 1)) by (apply Z.pow_le_mono_r; lia). lia.
Qed.

(** X2. Every canonical numeral (["0"], or alphabet digits without a
    leading zero) is read by [_int_from_base12] as a non-negative int
    that [_int_to_base12] writes back as the same string: the two helpers
    are inverse bijections between the non-negative ints and the
    canonical numerals. *)
Theorem X2_canonical_numeral_round_trip (s : string) :
  canonical s = true ->
  exists v : Z,
    0 <= v /\ _int_from_base12 s = Ok v /\ _int_to_base12 v = s.
Proof.
  intros Hcan. destruct (canonical_inv s Hcan) as (Ha & [-> | Hl]).
  - exists 0. repeat split; try reflexivity; lia.
  - destruct (_int_from_base12_loop_value s Ha) as (v & Hv & Hloop).
    assert (E : _int_from_base12 s = Ok v).
    { unfold _int_from_base12. rewrite Hloop. f_equal; lia. }
    exists v. split; [lia |]. split; [exact E |].
    pose proof (_int_from_base12_lower s v Ha Hl E) as Hb.
    assert (Hpos : 0 < v).
    { assert (0 < 12 ^ (PyStr.len s - 1)); [| lia].
      apply Z.pow_pos_nonneg; [lia |].
      unfold PyStr.len. destruct s; [discriminate Hl | cbn [String.length]; lia]. }
    destruct (_int_to_base12_shape v Hpos) as (Ha' & Hl' & Hb').
    destruct (_int_to_base12_spec v ltac:(lia)) as (_ & E' & _).
    apply (_int_from_base12_inj_len _ _ v); auto.
    apply Nat2Z.inj.
    apply (pow12_length_unique _ _ v); unfold PyStr.len in *; auto; lia.
Qed.

Lemma X2_canonical_numeral_round_trip_witness :
  exists v : Z, 0 <= v /\ _int_from_base12 "1E0" = Ok v /\ _int_to_base12 v = "1E0".
Proof. apply (X2_canonical_numeral_round_trip "1E0"). reflexivity. Defined.

Lemma zeros_all_digits (k : nat) : all_chars _ALLOWED_DIGITS (zeros k) = true.
Proof. induction k as [| k IH]; [reflexivity | cbn [zeros all_chars]; now rewrite IH]. Qed.

Lemma _int_from_base12_loop_zeros (k : nat) (s : string) :
  _int_from_base12_loop (zeros k ++ s) 0 = _int_from_base12_loop s 0.
Proof. induction k as [| k IH]; [reflexivity | exact IH]. Qed.

(** X3. [_int_from_base12] reads a numeral positionally: the value of a
    concatenation of two digit strings is the value of the first, times
    12 to the length of the second, plus the value of the second, which
    is below that power.  Leading zeros do not count, whatever follows
    them. *)
Theorem X3_positional_value (s1 s2 : string) :
  all_chars _ALLOWED_DIGITS s1 = true -> all_chars _ALLOWED_DIGITS s2 = true ->
  (exists v1 v2 : Z,
     _int_from_base12 s1 = Ok v1 /\ _int_from_base12 s2 = Ok v2 /\
     0 <= v1 /\ 0 <= v2 < 12 ^ PyStr.len s2 /\
     _int_from_base12 (s1 ++ s2) = Ok (v1 * 12 ^ PyStr.len s2 + v2)) /\
  (forall (k : nat) (s : string),
     _int_from_base12 (zeros k ++ s) = _int_from_base12 s).
Proof.
  intros H1 H2. split.
  - destruct (_int_from_base12_loop_value s1 H1) as (v1 & Hv1 & L1).
    destruct (_int_from_base12_loop_value s2 H2) as (v2 & Hv2 & L2).
    exists v1, v2. unfold _int_from_base12.
    rewrite _int_from_base12_loop_app, L1, L2. cbn [bind]. rewrite L2.
    repeat split; try lia; f_equal; lia.
  - intros k s. apply _int_from_base12_loop_zeros.
Qed.

Lemma X3_positional_value_witness :
  (exists v1 v2 : Z,
     _int_from_base12 "1T" = Ok v1 /\ _int_from_base12 "E05" = Ok v2 /\
     0 <= v1 /\ 0 <= v2 < 12 ^ PyStr.len "E05" /\
     _int_from_base12 ("1T" ++ "E05") = Ok (v1 * 12 ^ PyStr.len "E05" + v2)) /\
  (forall (k : nat) (s : string),
     _int_from_base12 (zeros k ++ s) = _int_from_base12 s).
Proof. apply (X3_positional_value "1T" "E05"); reflexivity. Defined.

Lemma _int_from_base12_loop_first_invalid (s : string) :
  forall total : Z,
    match _int_from_base12_loop s total with
    | Ok _ => all_chars _ALLOWED_DIGITS s = true
    | Error e =>
        exists (pre : string) (c : ascii) (post : string),
          s = pre ++ String c post /\ all_chars _ALLOWED_DIGITS pre = true /\
          _ALLOWED_DIGITS c = false /\ e = ValueError_invalid_digit c
    end.
Proof.
  induction s as [| c s IH]; intros total; cbn [_int_from_base12_loop].
  - reflexivity.
  - destruct (PyStr.contains _DOZENAL_DIGITS c) eqn:Hc; cbn [negb].
    + specialize (IH (total * 12 + PyStr.index _DOZENAL_DIGITS c)).
      destruct (_int_from_base12_loop s _) as [v | e].
      * cbn [all_chars]. unfold _ALLOWED_DIGITS at 1. now rewrite Hc, IH.
      * destruct IH as (pre & c' & post & -> & Hpre & Hc' & ->).
        exists (String c pre), c', post. repeat split; auto.
        cbn [all_chars]. unfold _ALLOWED_DIGITS at 1. now rewrite Hc, Hpre.
    + exists "", c, s. repeat split; auto.
Qed.

(** X4. [_int_from_base12] accepts exactly the strings of alphabet
    digits (the empty string among them, read as 0) and returns a value
    in [[0, 12^len)]; on any other string it raises ValueError naming the
    first character that is not in the alphabet, lower-case [t] and [e]
    included. *)
Theorem X4_first_invalid_digit (s : string) :
  match _int_from_base12 s with
  | Ok v => all_chars _ALLOWED_DIGITS s = true /\ 0 <= v < 12 ^ PyStr.len s
  | Error e =>
      exists (pre : string) (c : ascii) (post : string),
        s = pre ++ String c post /\ all_chars _ALLOWED_DIGITS pre = true /\
        _ALLOWED_DIGITS c = false /\ e = ValueError_invalid_digit c /\
        class_of e = ValueError
  end.
Proof.
  unfold _int_from_base12.
  pose proof (_int_from_base12_loop_first_invalid s 0) as H.
  destruct (_int_from_base12_loop s 0) as [v | e] eqn:E.
  - split; [exact H |].
    destruct (_int_from_base12_loop_value s H) as (v' & Hv' & L).
    rewrite L in E. injection E as <-. lia.
  - destruct H as (pre & c & post & -> & Hpre & Hc & ->).
    exists pre, c, post. repeat split; auto.
Qed.

Lemma zeros_snoc (k : nat) : zeros k ++ "0" = zeros (S k).
Proof. induction k as [| k IH]; [reflexivity |]. cbn [zeros append] in *. now rewrite IH. Qed.

Lemma _int_to_base12_shift (n r : Z) :
  0 < n -> 0 <= r < 12 ->
  _int_to_base12 (12 * n + r) = _int_to_base12 n ++ str1 (digit_char r).
Proof.
  intros Hn Hr. rewrite _int_to_base12_step by lia.
  destruct (Z.ltb_spec (12 * n + r) 12) as [Habs | _]; [lia |].
  replace ((12 * n + r) / 12) with n
    by (apply (Z.div_unique _ _ n r); lia).
  replace ((12 * n + r) mod 12) with r
    by (apply (Z.mod_unique _ _ n r); lia).
  reflexivity.
Qed.

(** X5. Appending a digit is multiplying by twelve: for a positive [n]
    and [0 <= r < 12] the numeral of [12 * n + r] is the numeral of [n]
    followed by the digit of [r].  So the powers of twelve, which the
    interactive mode lists, are written as a one followed by zeros. *)
Theorem X5_shift_by_a_digit (n r : Z) :
  0 < n -> 0 <= r < 12 ->
  _int_to_base12 (12 * n + r) = _int_to_base12 n ++ str1 (digit_char r) /\
  forall k : nat, _int_to_base12 (12 ^ Z.of_nat k) = String "1" (zeros k).
Proof.
  intros Hn Hr. split; [now apply _int_to_base12_shift |].
  induction k as [| k IH]; [reflexivity |].
  rewrite Nat2Z.inj_succ, Z.pow_succ_r by lia.
  replace (12 * 12 ^ Z.of_nat k) with (12 * 12 ^ Z.of_nat k + 0) by lia.
  rewrite _int_to_base12_shift, IH by (try apply Z.pow_pos_nonneg; lia).
  change (str1 (digit_char 0)) with "0".
  cbn [append]. now rewrite zeros_snoc.
Qed.

Lemma X5_shift_by_a_digit_witness :
  _int_to_base12 (12 * 143 + 10) = _int_to_base12 143 ++ str1 (digit_char 10) /\
  forall k : nat, _int_to_base12 (12 ^ Z.of_nat k) = String "1" (zeros k).
Proof. apply (X5_shift_by_a_digit 143 10); lia. Defined.

(** ** What [dozenal_to_decimal] looks at *)

Lemma upper_char_props (c : ascii) :
  PyStr.isspace (PyStr.upper_char c) = PyStr.isspace c /\
  PyStr.upper_char (PyStr.upper_char c) = PyStr.upper_char c /\
  Ascii.eqb (PyStr.upper_char c) "-" = Ascii.eqb c "-" /\
  Ascii.eqb (PyStr.upper_char c) "." = Ascii.eqb c ".".
Proof. destruct c as [[] [] [] [] [] [] [] []]; vm_compute; repeat split. Qed.

Lemma upper_upper (s : string) : PyStr.upper (PyStr.upper s) = PyStr.upper s.
Proof.
  induction s as [| c s IH]; [reflexivity |]. cbn [PyStr.upper].
  destruct (upper_char_props c) as (_ & -> & _). now rewrite IH.
Qed.

Lemma lstrip_upper (s : string) :
  PyStr.lstrip (PyStr.upper s) = PyStr.upper (PyStr.lstrip s).
Proof.
  induction s as [| c s IH]; [reflexivity |]. cbn [PyStr.upper PyStr.lstrip].
  destruct (upper_char_props c) as (-> & _).
  destruct (PyStr.isspace c); [exact IH | reflexivity].
Qed.

Lemma rstrip_upper (s : string) :
  PyStr.rstrip (PyStr.upper s) = PyStr.upper (PyStr.rstrip s).
Proof.
  induction s as [| c s IH]; [reflexivity |]. cbn [PyStr.upper PyStr.rstrip].
  rewrite IH. destruct (upper_char_props c) as (-> & _).
  destruct (PyStr.rstrip s); cbn [PyStr.upper]; [| reflexivity].
  destruct (PyStr.isspace c); reflexivity.
Qed.

Lemma strip_upper (s : string) :
  PyStr.strip (PyStr.upper s) = PyStr.upper (PyStr.strip s).
Proof. unfold PyStr.strip. now rewrite lstrip_upper, rstrip_upper. Qed.

Lemma rstrip_spaces (w : string) :
  all_chars PyStr.isspace w = true -> PyStr.rstrip w = "".
Proof.
  induction w as [| c w IH]; [reflexivity |]. cbn [all_chars PyStr.rstrip].
  intros H. apply andb_true_iff in H as [Hc Hw]. now rewrite (IH Hw), Hc.
Qed.

Lemma rstrip_app_spaces (s w : string) :
  all_chars PyStr.isspace w = true -> PyStr.rstrip (s ++ w) = PyStr.rstrip s.
Proof.
  intros Hw. induction s as [| c s IH]; cbn [append PyStr.rstrip].
  - now apply rstrip_spaces.
  - now rewrite IH.
Qed.

Lemma lstrip_spaces_app (w s : string) :
  all_chars PyStr.isspace w = true -> PyStr.lstrip (w ++ s) = PyStr.lstrip s.
Proof.
  induction w as [| c w IH]; [reflexivity |]. cbn [all_chars append PyStr.lstrip].
  intros H. apply andb_true_iff in H as [Hc Hw]. now rewrite Hc, IH.
Qed.

Lemma strip_app_spaces (s w : string) :
  all_chars PyStr.isspace w = true -> PyStr.strip (s ++ w) = PyStr.strip s.
Proof.
  intros Hw. unfold PyStr.strip. induction s as [| c s IH]; cbn [append PyStr.lstrip].
  - rewrite (rstrip_id ""), rstrip_spaces; trivial.
    clear -Hw. induction w as [| c w IH]; [reflexivity |].
    cbn [all_chars PyStr.lstrip] in *. apply andb_true_iff in Hw as [Hc Hw].
    rewrite Hc. now apply IH.
  - destruct (PyStr.isspace c); [exact IH |].
    exact (rstrip_app_spaces (String c s) w Hw).
Qed.

Lemma strip_pad (w1 s w2 : string) :
  all_chars PyStr.isspace w1 = true -> all_chars PyStr.isspace w2 = true ->
  PyStr.strip (w1 ++ s ++ w2) = PyStr.strip s.
Proof.
  intros H1 H2. rewrite <- (strip_app_spaces s w2 H2).
  unfold PyStr.strip. now rewrite lstrip_spaces_app.
Qed.

(** The result depends on the trimmed, upper-cased text only. *)
Lemma dozenal_to_decimal_ext (a b : string) (ctx : context) :
  PyStr.upper (PyStr.strip a) = PyStr.upper (PyStr.strip b) ->
  dozenal_to_decimal a ctx = dozenal_to_decimal b ctx.
Proof. intros E. unfold dozenal_to_decimal. now rewrite E. Qed.

(** X6. [dozenal_to_decimal] ignores letter case and surrounding white
    space: two strings that agree after upper-casing give the same
    result or the same error, also when one of them is wrapped in white
    space (blanks, tabs, line ends). *)
Theorem X6_case_and_blank_insensitive (s s' w1 w2 : string) (ctx : context) :
  all_chars PyStr.isspace w1 = true -> all_chars PyStr.isspace w2 = true ->
  PyStr.upper s = PyStr.upper s' ->
  dozenal_to_decimal (w1 ++ s ++ w2) ctx = dozenal_to_decimal s' ctx.
Proof.
  intros H1 H2 E. apply dozenal_to_decimal_ext.
  rewrite strip_pad by assumption.
  now rewrite <- !strip_upper, E.
Qed.

Lemma X6_case_and_blank_insensitive_witness :
  dozenal_to_decimal ("  " ++ "-1t.e6" ++ " ") DefaultContext =
  dozenal_to_decimal "-1T.E6" DefaultContext.
Proof. apply X6_case_and_blank_insensitive; reflexivity. Defined.

Lemma _fix_negate (p : Z) (d : Decimal) :
  _fix p (copy_negate d) = copy_negate (_fix p d).
Proof.
  destruct d as [s n e]. unfold _fix, is_zero, coeff, copy_negate.
  cbn [dint dexp dsign].
  repeat match goal with |- context [if ?b then _ else _] => destruct b end;
    reflexivity.
Qed.

Lemma mul_minus_one (p : Z) (d : Decimal) :
  mul p d (of_int (-1)) = copy_negate (mul p d (of_int 1)).
Proof.
  unfold mul. rewrite <- _fix_negate. f_equal.
  change (dsign (of_int (-1))) with true.
  change (dsign (of_int 1)) with false.
  change (coeff (of_int (-1))) with 1. change (coeff (of_int 1)) with 1.
  change (dexp (of_int (-1))) with 0. change (dexp (of_int 1)) with 0.
  now destruct (dsign d).
Qed.

(** X7. A leading ['-'] negates: for a string [s] that starts with a
    character other than white space and ['-'],
    [dozenal_to_decimal("-" + s)] is the negation of
    [dozenal_to_decimal(s)] (of the int, or of the Decimal, zero
    included), and raises the same error when [s] is rejected. *)
Theorem X7_leading_minus_negates (c : ascii) (s : string) (ctx : context) :
  PyStr.isspace c = false -> Ascii.eqb c "-" = false ->
  dozenal_to_decimal (String "-" (String c s)) ctx =
  negate_result (dozenal_to_decimal (String c s) ctx).
Proof.
  intros Hsp Hm.
  assert (Hl : PyStr.strip (String c s) = PyStr.rstrip (String c s)).
  { unfold PyStr.strip. cbn [PyStr.lstrip]. now rewrite Hsp. }
  assert (Hne : exists r, PyStr.rstrip (String c s) = String c r).
  { cbn [PyStr.rstrip]. destruct (PyStr.rstrip s); [| eauto].
    rewrite Hsp. eauto. }
  assert (Hl' : PyStr.strip (String "-" (String c s)) =
                String "-" (PyStr.rstrip (String c s))).
  { unfold PyStr.strip. change (PyStr.lstrip (String "-" (String c s)))
      with (String "-" (String c s)).
    destruct Hne as (r & Hr). 
    change (PyStr.rstrip (String "-" (String c s)))
      with (match PyStr.rstrip (String c s) with
            | EmptyString => "-"
            | r => String "-" r
            end).
    now rewrite Hr. }
  unfold dozenal_to_decimal. rewrite Hl, Hl'.
  destruct Hne as (r & ->). cbn [PyStr.upper].
  destruct (upper_char_props c) as (_ & _ & Hm' & _). rewrite Hm in Hm'.
  change (PyStr.upper_char "-") with "-"%char.
  set (c' := PyStr.upper_char c) in *. set (r' := PyStr.upper r).
  change (String.eqb (String "-" (String c' r')) "") with false.
  change (String.eqb (String c' r') "") with false.
  cbv iota. change (Ascii.eqb "-" "-") with true. rewrite Hm'. cbv iota beta.
  destruct (2 <? Z.of_nat (List.length (PyStr.split "." (String c' r'))));
    [reflexivity |].
  destruct (_int_from_base12 _) as [iv | e]; [| reflexivity]. cbn [bind].
  destruct (Z.of_nat (List.length (PyStr.split "." (String c' r'))) =? 1).
  - cbn [negate_result negate_value]. do 2 f_equal. lia.
  - destruct (dozenal_to_decimal_loop _ _ _ _) as [ft | e]; [| reflexivity].
    cbn [bind negate_result negate_value]. do 2 f_equal. apply mul_minus_one.
Qed.

Lemma X7_leading_minus_negates_witness :
  dozenal_to_decimal "-0.6" DefaultContext =
  negate_result (dozenal_to_decimal "0.6" DefaultContext).
Proof. apply (X7_leading_minus_negates "0" ".6"); reflexivity. Defined.

Lemma space_is_no_point (c : ascii) :
  PyStr.isspace c = true -> Ascii.eqb c "." = false.
Proof. destruct c as [[] [] [] [] [] [] [] []]; vm_compute; congruence. Qed.

Lemma count_point_lstrip (s : string) :
  count_char "." (PyStr.lstrip s) = count_char "." s.
Proof.
  induction s as [| c s IH]; [reflexivity |]. cbn [PyStr.lstrip].
  destruct (PyStr.isspace c) eqn:Hc; [| reflexivity].
  cbn [count_char]. rewrite (space_is_no_point c Hc), IH. lia.
Qed.

Lemma count_point_rstrip (s : string) :
  count_char "." (PyStr.rstrip s) = count_char "." s.
Proof.
  induction s as [| c s IH]; [reflexivity |]. cbn [PyStr.rstrip count_char].
  rewrite <- IH. destruct (PyStr.rstrip s); [| reflexivity].
  destruct (PyStr.isspace c) eqn:Hc; [| reflexivity].
  cbn [count_char]. now rewrite (space_is_no_point c Hc).
Qed.

Lemma count_point_upper (s : string) :
  count_char "." (PyStr.upper s) = count_char "." s.
Proof.
  induction s as [| c s IH]; [reflexivity |]. cbn [PyStr.upper count_char].
  destruct (upper_char_props c) as (_ & _ & _ & ->). now rewrite IH.
Qed.

Lemma count_point_without_sign (t : string) :
  count_char "." (without_sign t) = count_char "." t.
Proof.
  destruct t as [| c t]; [reflexivity |]. cbn [without_sign].
  destruct (Ascii.eqb_spec c "-") as [-> | _]; reflexivity.
Qed.

Lemma count_point_text (s : string) :
  count_char "." (without_sign (PyStr.upper (PyStr.strip s))) = count_char "." s.
Proof.
  rewrite count_point_without_sign, count_point_upper. unfold PyStr.strip.
  now rewrite count_point_rstrip, count_point_lstrip.
Qed.

(** X8. The type of the result follows the point: when
    [dozenal_to_decimal] accepts a string it returns an int if the string
    has no point, and a Decimal if it has one (also for ["5."], whose
    value is whole). *)
Theorem X8_result_type (s : string) (ctx : context) (v : number_value) :
  dozenal_to_decimal s ctx = Ok v ->
  match v with
  | IntValue _ => count_char "." s = 0
  | DecimalValue _ => count_char "." s = 1
  end.
Proof.
  intros H. rewrite <- (count_point_text s).
  unfold dozenal_to_decimal in H.
  set (t := PyStr.upper (PyStr.strip s)) in *.
  destruct (String.eqb t ""); [discriminate H |].
  assert (Hu : snd (match t with
                    | String c s' => if Ascii.eqb c "-" then (-1, s') else (1, t)
                    | EmptyString => (1, t)
                    end) = without_sign t).
  { destruct t as [| c t']; [reflexivity |]. cbn [without_sign].
    now destruct (Ascii.eqb c "-"). }
  destruct (match t with
            | String c s' => if Ascii.eqb c "-" then (-1, s') else (1, t)
            | EmptyString => (1, t)
            end) as [sign u].
  cbn [snd] in Hu. subst u.
  pose proof (split_length "." (without_sign t)) as Hlen.
  pose proof (count_char_nonneg "." (without_sign t)) as Hnn.
  destruct (Z.ltb_spec 2 (Z.of_nat (List.length (PyStr.split "." (without_sign t)))))
    as [| Hle]; [discriminate H |].
  destruct (_int_from_base12 _) as [iv | e]; [| discriminate H]. cbn [bind] in H.
  destruct (Z.eqb_spec (Z.of_nat (List.length (PyStr.split "." (without_sign t)))) 1)
    as [E1 | N1].
  - injection H as <-. lia.
  - destruct (dozenal_to_decimal_loop _ _ _ _) as [ft | e]; [| discriminate H].
    cbn [bind] in H. injection H as <-. lia.
Qed.

Lemma X8_result_type_witness :
  count_char "." "5." = 1.
Proof.
  apply (X8_result_type "5." DefaultContext (DecimalValue (make false 5 0))).
  vm_compute. reflexivity.
Defined.

(** ** What [decimal_to_dozenal] writes *)

Lemma get_contains (s : string) :
  forall (n : nat) (c : ascii), String.get n s = Some c -> PyStr.contains s c = true.
Proof.
  induction s as [| a s IH]; intros n c H; [discriminate H |].
  cbn [PyStr.contains]. destruct n as [| n]; cbn [String.get] in H.
  - injection H as ->. now rewrite Ascii.eqb_refl.
  - rewrite (IH n c H). apply orb_true_r.
Qed.

(** Whatever the index, a successful [_DOZENAL_DIGITS[i]] is a digit of
    the alphabet. *)
Lemma digits_getitem_allowed (i : Z) (c : ascii) :
  digits_getitem i = Ok c -> _ALLOWED_DIGITS c = true.
Proof.
  unfold digits_getitem, PyStr.get. intros H.
  destruct (_ <? 0); [discriminate H |].
  destruct (String.get _ _DOZENAL_DIGITS) as [c' |] eqn:E; [| discriminate H].
  injection H as <-. exact (get_contains _ _ _ E).
Qed.

Lemma all_chars_join (f : ascii -> bool) (l : list ascii) :
  all_chars f (PyStr.join l) = forallb f l.
Proof. induction l as [| c l IH]; [reflexivity |]. cbn. now rewrite <- IH. Qed.

Lemma len_join (l : list ascii) : PyStr.len (PyStr.join l) = Z.of_nat (List.length l).
Proof.
  unfold PyStr.len. f_equal. induction l as [| c l IH]; [reflexivity |].
  cbn. now rewrite <- IH.
Qed.

(** The digit loop appends between 1 and [n] digits of the alphabet. *)
Lemma decimal_to_dozenal_loop_shape (p : Z) (n : nat) :
  forall (frac_part : Decimal) (acc ds : list ascii),
    decimal_to_dozenal_loop p n frac_part acc = Ok ds ->
    exists new : list ascii,
      ds = (acc ++ new)%list /\ forallb _ALLOWED_DIGITS new = true /\
      (List.length new <= n)%nat /\ (n <> O -> new <> []).
Proof.
  induction n as [| n IH]; intros frac_part acc ds H; cbn [decimal_to_dozenal_loop] in H.
  - injection H as <-. exists []. rewrite app_nil_r. repeat split; auto.
  - destruct (floordiv p _ _) as [q | e]; [| discriminate H]. cbn [bind] in H.
    destruct (digits_getitem (to_int q)) as [ch | e] eqn:Ech; [| discriminate H].
    cbn [bind] in H. pose proof (digits_getitem_allowed _ _ Ech) as Hch.
    destruct (eqb _ _).
    + injection H as <-. exists [ch]. cbn [forallb List.length]. rewrite Hch.
      repeat split; auto; [lia | discriminate].
    + destruct (IH _ _ _ H) as (new & -> & Hall & Hlen & _).
      exists (ch :: new). rewrite <- app_assoc. cbn [app forallb List.length].
      rewrite Hch, Hall. repeat split; auto; [lia | discriminate].
Qed.

Lemma dsign_fix (p : Z) (d : Decimal) : dsign (_fix p d) = dsign d.
Proof.
  unfold _fix.
  repeat match goal with |- context [if ?b then _ else _] => destruct b end;
    reflexivity.
Qed.

(** The integer quotient of a non-negative Decimal by 1 is a
    non-negative int. *)
Lemma floordiv_abs_nonneg (p : Z) (d q : Decimal) :
  floordiv p (abs p d) (of_int 1) = Ok q -> 0 <= to_int q.
Proof.
  unfold floordiv. change (is_zero (of_int 1)) with false. cbv iota.
  assert (Hs : dsign (abs p d) = false) by (unfold abs; now rewrite dsign_fix).
  rewrite Hs. change (dsign (of_int 1)) with false. cbn [xorb].
  assert (Hmake : forall c, 0 <= to_int (make false c 0)).
  { intros c. unfold to_int. rewrite dsign_make, dexp_make.
    change (0 <=? 0) with true. cbv iota. rewrite Z.pow_0_r.
    pose proof (coeff_nonneg (make false c 0)). lia. }
  intros H.
  repeat match type of H with
         | context [if ?b then _ else _] => destruct b
         end; try discriminate H; injection H as <-; apply Hmake.
Qed.

Lemma canonical_shape (s : string) :
  canonical s = true ->
  all_chars _ALLOWED_DIGITS s = true /\ s <> "".
Proof.
  intros H. destruct (canonical_inv s H) as (Ha & _). split; [exact Ha |].
  intros ->. discriminate H.
Qed.

Lemma _int_to_base12_canonical (n : Z) : 0 <= n -> canonical (_int_to_base12 n) = true.
Proof.
  intros Hn. destruct (Z.eq_dec n 0) as [-> | Hne]; [reflexivity |].
  destruct (_int_to_base12_shape n ltac:(lia)) as (Ha & Hl & _).
  now apply canonical_of_shape.
Qed.

(** A sign, a canonical integer part and at most one point followed by
    digits: such a text is accepted under any usable precision. *)
Lemma dozenal_to_decimal_accepts (minus : bool) (ip fr : string) (ctx : context) :
  1 <= prec ctx -> canonical ip = true ->
  (fr = "" \/ exists ds, fr = String "." ds /\ all_chars _ALLOWED_DIGITS ds = true) ->
  exists v : number_value,
    dozenal_to_decimal ((if minus then "-" else "") ++ ip ++ fr) ctx = Ok v.
Proof.
  intros Hp Hip Hfr.
  destruct (canonical_shape ip Hip) as (Ha & Hne).
  destruct (digits_have_no_point ip Ha) as (Hc0 & Hdp).
  assert (Hw : all_chars digit_or_point (ip ++ fr) = true /\
               count_char "." (ip ++ fr) <= 1).
  { rewrite all_chars_app, count_char_app, Hdp, Hc0.
    destruct Hfr as [-> | (ds & -> & Hds)]; [split; [reflexivity | cbn; lia] |].
    destruct (digits_have_no_point ds Hds) as (Hc1 & Hdp1).
    cbn [all_chars count_char andb]. rewrite Hdp1, Hc1. split; [reflexivity | cbn; lia]. }
  destruct Hw as (Hw & Hc).
  destruct (dozenal_to_decimal_cases ((if minus then "-" else "") ++ ip ++ fr) ctx Hp)
    as (_ & _ & _ & Hok).
  rewrite plain_text_fixed in Hok; [| destruct minus; auto | exact Hw].
  assert (Hu : without_sign ((if minus then "-" else "") ++ ip ++ fr) = ip ++ fr).
  { destruct minus; [reflexivity |].
    destruct ip as [| c ip']; [contradiction |].
    cbn [append without_sign]. cbn [all_chars] in Ha.
    apply andb_true_iff in Ha as [Hca _].
    now destruct (allowed_digit_props c Hca) as (_ & _ & _ & -> & _). }
  rewrite Hu in Hok. apply Hok; auto.
  destruct minus; [discriminate |]. destruct ip; [contradiction | discriminate].
Qed.

Lemma decimal_to_dozenal_shape (value : pyvalue) (frac_precision : Z)
    (ctx ctx' : context) (s : string) :
  decimal_to_dozenal value frac_precision ctx = (Ok s, ctx') ->
  exists (minus : bool) (ip fr : string),
    s = (if minus then "-" else "") ++ ip ++ fr /\
    canonical ip = true /\
    (fr = "" \/
     exists ds : string,
       fr = String "." ds /\ all_chars _ALLOWED_DIGITS ds = true /\
       1 <= PyStr.len ds <= frac_precision).
Proof.
  assert (Hnil : forall a : string, a = a ++ "") by (intros; now rewrite append_nil_r).
  assert (Hint : forall n, value = PyInt n -> 
            decimal_to_dozenal value frac_precision ctx = (Ok s, ctx') ->
            exists (minus : bool) (ip fr : string),
              s = (if minus then "-" else "") ++ ip ++ fr /\
              canonical ip = true /\
              (fr = "" \/
               exists ds : string,
                 fr = String "." ds /\ all_chars _ALLOWED_DIGITS ds = true /\
                 1 <= PyStr.len ds <= frac_precision)).
  { intros n -> H. cbn [decimal_to_dozenal] in H. injection H as <- _.
    exists (n <? 0), (_int_to_base12 (Z.abs n)), "".
    rewrite <- Hnil. repeat split; auto.
    apply _int_to_base12_canonical. lia. }
  intros H.
  assert (Hrest : forall dec0 : result Decimal,
            (do dec <- dec0;
             let P := Z.max 28 (frac_precision * 3) in
             let sign := if ltb dec (of_int 0) then "-" else "" in
             let dec := abs P dec in
             do q <- floordiv P dec (of_int 1);
             let integer_part := to_int q in
             let frac_part := sub P dec (of_int integer_part) in
             let integer_digits := _int_to_base12 integer_part in
             if (frac_precision <=? 0) || eqb frac_part (of_int 0)
             then Ok (sign ++ integer_digits)
             else
               do digits <- decimal_to_dozenal_loop P (Z.to_nat frac_precision)
                              frac_part [];
               Ok (sign ++ integer_digits ++ "." ++ PyStr.join digits)) = Ok s ->
            exists (minus : bool) (ip fr : string),
              s = (if minus then "-" else "") ++ ip ++ fr /\
              canonical ip = true /\
              (fr = "" \/
               exists ds : string,
                 fr = String "." ds /\ all_chars _ALLOWED_DIGITS ds = true /\
                 1 <= PyStr.len ds <= frac_precision)).
  { intros [dec | e] Hr; [| discriminate Hr]. cbn [bind] in Hr. cbv zeta in Hr.
    destruct (floordiv _ _ _) as [q | e] eqn:Eq; [| discriminate Hr]. cbn [bind] in Hr.
    pose proof (floordiv_abs_nonneg _ _ _ Eq) as Hq.
    pose proof (_int_to_base12_canonical _ Hq) as Hcan.
    destruct (Z.leb_spec frac_precision 0) as [Hp0 | Hp1]; cbn [orb] in Hr.
    - injection Hr as <-.
      exists (ltb dec (of_int 0)), (_int_to_base12 (to_int q)), "".
      rewrite <- Hnil. auto.
    - destruct (eqb _ _).
      + injection Hr as <-.
        exists (ltb dec (of_int 0)), (_int_to_base12 (to_int q)), "".
        rewrite <- Hnil. auto.
      + destruct (decimal_to_dozenal_loop _ _ _ _) as [ds | e] eqn:El; [| discriminate Hr].
        cbn [bind] in Hr. injection Hr as <-.
        destruct (decimal_to_dozenal_loop_shape _ _ _ _ _ El)
          as (new & -> & Hall & Hlen & Hne).
        cbn [app] in *.
        exists (ltb dec (of_int 0)), (_int_to_base12 (to_int q)),
          (String "." (PyStr.join new)).
        repeat split; auto. right. exists (PyStr.join new).
        rewrite all_chars_join, len_join. repeat split; auto; [| lia].
        destruct new; [exfalso; apply Hne; [lia | reflexivity] | cbn [List.length]; lia]. }
  destruct value as [n | f | d].
  - now apply (Hint n).
  - unfold decimal_to_dozenal in H. cbn [prec] in H.
    injection H as H _. exact (Hrest _ H).
  - unfold decimal_to_dozenal in H. cbn [prec] in H.
    injection H as H _. exact (Hrest (Ok d) H).
Qed.

(** X9. Whatever [decimal_to_dozenal] returns is a well-formed dozenal
    numeral: an optional ['-'], the canonical numeral of the integer part
    and, if there is a fractional part, a point followed by at least one
    and at most [frac_precision] digits of the alphabet.  So
    [dozenal_to_decimal] accepts every string that [decimal_to_dozenal]
    returns, for an int, a float or a Decimal. *)
Theorem X9_output_is_accepted (value : pyvalue) (frac_precision : Z)
    (ctx ctx' : context) (s : string) :
  decimal_to_dozenal value frac_precision ctx = (Ok s, ctx') ->
  (exists (minus : bool) (ip fr : string),
     s = (if minus then "-" else "") ++ ip ++ fr /\
     canonical ip = true /\
     (fr = "" \/
      exists ds : string,
        fr = String "." ds /\ all_chars _ALLOWED_DIGITS ds = true /\
        1 <= PyStr.len ds <= frac_precision)) /\
  (forall ctx2 : context, 1 <= prec ctx2 ->
     exists v : number_value, dozenal_to_decimal s ctx2 = Ok v).
Proof.
  intros H. pose proof (decimal_to_dozenal_shape _ _ _ _ _ H) as Hs.
  split; [exact Hs |].
  destruct Hs as (minus & ip & fr & -> & Hip & Hfr).
  intros ctx2 Hp. apply dozenal_to_decimal_accepts; auto.
  destruct Hfr as [-> | (ds & -> & Hds & _)]; [now left | right; eauto].
Qed.

Lemma X9_output_is_accepted_witness :
  exists s : string,
    decimal_to_dozenal (PyDec (make true 15 (-1))) 4 DefaultContext =
      (Ok s, mkContext 28) /\
    exists v : number_value, dozenal_to_decimal s (mkContext 28) = Ok v.
Proof.
  exists "-1.6". split; [vm_compute; reflexivity |].
  apply (X9_output_is_accepted (PyDec (make true 15 (-1))) 4 DefaultContext
           (mkContext 28) "-1.6"); [vm_compute; reflexivity | cbn; lia].
Defined.

(** ** Decimals beyond the working precision *)

Lemma ndigits_ge (n k : Z) : 1 <= k -> 10 ^ (k - 1) <= n -> k <= ndigits n.
Proof.
  intros Hk Hn.
  assert (Hpos : 0 < n).
  { pose proof (pow10_pos (k - 1) ltac:(lia)). lia. }
  destruct (ndigits_spec n Hpos) as (H1 & _ & Hhi).
  assert (k - 1 < ndigits n); [| lia].
  apply (Z.pow_lt_mono_r_iff 10); lia.
Qed.

Lemma make_coeff (d : Decimal) : d = make (dsign d) (coeff d) (dexp d).
Proof. destruct d as [s n e]. unfold make, coeff. cbn [dsign dint dexp]. now rewrite N2Z.id. Qed.

(** Rounding never lowers the position of the leading digit. *)
Lemma _fix_adjusted (p : Z) (d : Decimal) :
  1 <= p -> is_zero d = false ->
  exists c e : Z,
    _fix p d = make (dsign d) c e /\ 0 < c /\ adjusted d <= e + ndigits c - 1.
Proof.
  intros Hp Hz. unfold _fix. rewrite Hz.
  pose proof (coeff_nonneg d) as Hc0.
  assert (Hc : 0 < coeff d) by (unfold is_zero in Hz; apply Z.eqb_neq in Hz; lia).
  destruct (ndigits_spec (coeff d) Hc) as (H1 & Hlo & Hhi).
  unfold adjusted. set (nd := ndigits (coeff d)) in *.
  destruct (Z.ltb_spec (dexp d) (nd + dexp d - p)) as [Hlt | _].
  - replace (nd + dexp d - p - dexp d) with (nd - p) by lia.
    set (k := nd - p). assert (Hk : 1 <= k) by (unfold k; lia).
    pose proof (round_half_even_bounds (coeff d) k Hc0) as [Hq1 Hq2].
    set (c' := round_half_even (coeff d) k) in *.
    assert (Hpk : 0 < 10 ^ k) by (apply pow10_pos; lia).
    assert (Hq : 10 ^ (p - 1) <= coeff d / 10 ^ k).
    { apply Z.div_le_lower_bound; [exact Hpk |].
      rewrite <- Z.pow_add_r by lia. replace (k + (p - 1)) with (nd - 1) by (unfold k; lia).
      exact Hlo. }
    assert (Hpp : 0 < 10 ^ (p - 1)) by (apply pow10_pos; lia).
    destruct (Z.ltb_spec p (ndigits c')) as [Hbig | Hfit].
    + assert (Hc' : 10 ^ p <= c').
      { destruct (ndigits_spec c' ltac:(lia)) as (_ & Hlo' & _).
        eapply Z.le_trans; [| exact Hlo']. apply Z.pow_le_mono_r; lia. }
      assert (Hdiv : 10 ^ (p - 1) <= c' / 10).
      { apply Z.div_le_lower_bound; [lia |].
        replace (10 * 10 ^ (p - 1)) with (10 ^ p); [exact Hc' |].
        replace p with (Z.succ (p - 1)) at 1 by lia. rewrite Z.pow_succ_r by lia. lia. }
      exists (c' / 10), (nd + dexp d - p + 1). split; [reflexivity |]. split; [lia |].
      pose proof (ndigits_ge (c' / 10) p Hp Hdiv). lia.
    + exists c', (nd + dexp d - p). split; [reflexivity |]. split; [lia |].
      pose proof (ndigits_ge c' p Hp ltac:(lia)). lia.
  - exists (coeff d), (dexp d). split; [apply make_coeff |]. split; [exact Hc | fold nd; lia].
Qed.

(** The integer quotient by 1 of a Decimal whose leading digit stands at
    [10^p] or above does not fit [p] digits. *)
Lemma floordiv_one_large (p c e : Z) :
  1 <= p -> 0 < c -> p <= e + ndigits c - 1 ->
  floordiv p (make false c e) (of_int 1) = Error (InvalidOperation DivisionImpossible).
Proof.
  intros Hp Hc Hadj. unfold floordiv.
  change (is_zero (of_int 1)) with false. cbv iota.
  unfold adjusted. rewrite !dexp_make, !coeff_make by lia.
  change (coeff (of_int 1)) with 1. change (dexp (of_int 1)) with 0.
  change (0 + ndigits 1 - 1) with 0.
  rewrite is_zero_make by lia.
  destruct (Z.eqb_spec c 0) as [E | _]; [lia |]. cbn [orb].
  destruct (Z.leb_spec (e + ndigits c - 1 - 0) (-2)) as [Habs | _]; [lia |].
  destruct (Z.leb_spec (e + ndigits c - 1 - 0) p) as [Heq | _]; [| reflexivity].
  destruct (ndigits_spec c Hc) as (H1 & Hlo & _).
  set (nd := ndigits c) in *.
  assert (Hq : 10 ^ p <=
               (if 0 <=? e then c * 10 ^ (e - 0) else c) /
               (if 0 <=? e then 1 else 1 * 10 ^ (0 - e))).
  { destruct (Z.leb_spec 0 e) as [He | He].
    - rewrite Z.div_1_r, Z.sub_0_r.
      replace p with ((nd - 1) + e) by lia. rewrite Z.pow_add_r by lia.
      pose proof (pow10_pos e He). nia.
    - rewrite Z.mul_1_l.
      assert (Hpe : 0 < 10 ^ (0 - e)) by (apply pow10_pos; lia).
      apply Z.div_le_lower_bound; [exact Hpe |].
      rewrite <- Z.pow_add_r by lia.
      replace (0 - e + p) with (nd - 1) by lia. exact Hlo. }
  destruct (Z.ltb_spec ((if 0 <=? e then c * 10 ^ (e - 0) else c) /
                        (if 0 <=? e then 1 else 1 * 10 ^ (0 - e))) (10 ^ p));
    [lia | reflexivity].
Qed.

Lemma decimal_to_dozenal_large (v : Decimal) (frac_precision : Z) (ctx : context) :
  is_zero v = false -> Z.max 28 (frac_precision * 3) <= adjusted v ->
  decimal_to_dozenal (PyDec v) frac_precision ctx =
  (Error (InvalidOperation DivisionImpossible),
   mkContext (Z.max 28 (frac_precision * 3))).
Proof.
  intros Hz Hadj. unfold decimal_to_dozenal. cbn [prec bind].
  set (P := Z.max 28 (frac_precision * 3)) in *.
  assert (HP : 1 <= P) by lia.
  assert (Hz' : is_zero (copy_abs v) = false) by exact Hz.
  destruct (_fix_adjusted P (copy_abs v) HP Hz') as (c & e & Hfix & Hc & Hle).
  unfold abs. rewrite Hfix. cbn [copy_abs dsign].
  change (adjusted (copy_abs v)) with (adjusted v) in Hle.
  rewrite floordiv_one_large by lia. reflexivity.
Qed.

(** X10. A Decimal whose magnitude reaches [10^P], for the working
    precision [P = max(28, 3 * frac_precision)], is not converted:
    [decimal_to_dozenal] raises decimal.InvalidOperation (the integer
    quotient [dec // 1] needs more than [P] digits), after setting the
    context precision.  So [decimal_to_dozenal(Decimal(n))] fails for
    every int [n] with [|n| >= 10^P], while [decimal_to_dozenal(n)]
    converts the same int. *)
Theorem X10_large_decimal_raises (v : Decimal) (frac_precision : Z) (ctx : context) :
  is_zero v = false -> Z.max 28 (frac_precision * 3) <= adjusted v ->
  decimal_to_dozenal (PyDec v) frac_precision ctx =
    (Error (InvalidOperation DivisionImpossible),
     mkContext (Z.max 28 (frac_precision * 3))) /\
  class_of (InvalidOperation DivisionImpossible) = ArithmeticErrorOther /\
  (forall n : Z,
     10 ^ Z.max 28 (frac_precision * 3) <= Z.abs n ->
     fst (decimal_to_dozenal (PyDec (of_int n)) frac_precision ctx) =
       Error (InvalidOperation DivisionImpossible) /\
     is_ok (fst (decimal_to_dozenal (PyInt n) frac_precision ctx)) = true).
Proof.
  intros Hz Hadj. split; [now apply decimal_to_dozenal_large |].
  split; [reflexivity |].
  intros n Hn. split; [| reflexivity].
  set (P := Z.max 28 (frac_precision * 3)) in *.
  assert (Hpos : 0 < Z.abs n).
  { pose proof (pow10_pos P ltac:(lia)). lia. }
  rewrite decimal_to_dozenal_large; [reflexivity | |].
  - unfold is_zero, of_int. rewrite coeff_make by lia. apply Z.eqb_neq. lia.
  - unfold adjusted, of_int. rewrite dexp_make, coeff_make by lia. fold P.
    pose proof (ndigits_ge (Z.abs n) (P + 1) ltac:(lia)) as Hnd.
    replace (P + 1 - 1) with P in Hnd by lia. specialize (Hnd Hn). lia.
Qed.

Lemma X10_large_decimal_raises_witness :
  decimal_to_dozenal (PyDec (make false 1 28)) 6 DefaultContext =
    (Error (InvalidOperation DivisionImpossible), mkContext (Z.max 28 (6 * 3))).
Proof.
  apply (X10_large_decimal_raises (make false 1 28) 6 DefaultContext);
    vm_compute; congruence.
Defined.

(** ** Whole values *)





(** * Further properties of the calculator *)

(** ** Postfix evaluation *)

Lemma apply_operator_errors (p : Z) (v : string) (lhs rhs : Decimal) (e : exception) :
  is_operator_text v = true ->
  apply_operator p v lhs rhs = Error e ->
  e = DivisionByZero \/ e = InvalidOperation DivisionUndefined.
Proof.
  unfold is_operator_text, _PRECEDENCE, apply_operator.
  destruct (String.eqb v "+"); [discriminate |].
  destruct (String.eqb v "-"); [discriminate |].
  destruct (String.eqb v "*"); [discriminate |].
  destruct (String.eqb v "/"); [| discriminate].
  intros _. unfold truediv.
  destruct (is_zero rhs).
  - destruct (is_zero lhs); intros H; injection H as <-; auto.
  - destruct (is_zero lhs); [discriminate |].
    destruct (negb _); [discriminate |].
    destruct (strip_zeros _ _ _ _); discriminate.
Qed.

(** Every operand pushes one value, every operator replaces two by one. *)
Lemma _evaluate_postfix_loop_count (p : Z) (postfix : list ConvertedToken) :
  forall stack stack' : list Decimal,
    _evaluate_postfix_loop p postfix stack = Ok stack' ->
    (List.length stack' + List.length (filter (fun t => negb (is_number t)) postfix) =
     List.length stack + List.length (filter is_number postfix))%nat.
Proof.
  induction postfix as [| [kind value] rest IH]; intros stack stack' H;
    cbn [_evaluate_postfix_loop] in H.
  - injection H as <-. cbn. lia.
  - assert (Hn : is_number (kind, value) = token_kind_eqb kind number) by reflexivity.
    cbn [filter]. rewrite Hn.
    destruct (token_kind_eqb kind number); cbn [negb].
    + destruct value as [d | v]; [| discriminate H].
      apply IH in H. cbn [List.length] in *. lia.
    + destruct stack as [| rhs [| lhs stack]]; try discriminate H.
      destruct value as [d | v]; [discriminate H |].
      destruct (apply_operator p v lhs rhs) as [r | e]; [| discriminate H].
      cbn [bind] in H. apply IH in H. cbn [List.length] in *. lia.
Qed.

Lemma _evaluate_postfix_loop_errors (p : Z) (postfix : list ConvertedToken) :
  forallb postfix_ok postfix = true ->
  forall (stack : list Decimal) (e : exception),
    _evaluate_postfix_loop p postfix stack = Error e ->
    e = ValueError_incomplete_expression \/ e = DivisionByZero \/
    e = InvalidOperation DivisionUndefined.
Proof.
  induction postfix as [| [kind value] rest IH]; intros Hok stack e H;
    cbn [_evaluate_postfix_loop] in H; [discriminate H |].
  cbn [forallb] in Hok. apply andb_true_iff in Hok as [Ht Hrest].
  destruct kind, value as [d | v]; try discriminate Ht; cbn [token_kind_eqb] in H.
  - exact (IH Hrest _ _ H).
  - destruct stack as [| rhs [| lhs stack]];
      try (injection H as <-; now left).
    destruct (apply_operator p v lhs rhs) as [r | e'] eqn:Ea; cbn [bind] in H.
    + exact (IH Hrest _ _ H).
    + injection H as <-. right. exact (apply_operator_errors _ _ _ _ _ Ht Ea).
Qed.

(** X12. [_evaluate_postfix] on a sequence of operands and operators:
    it returns a value only if there is exactly one operand more than
    there are operators, and the only exceptions it raises are the
    incomplete-expression and the not-a-single-value ValueErrors and the
    two division errors of [decimal]; the unsupported-operator branch and
    the assertions are never reached. *)
Theorem X12_postfix_evaluation (postfix : list ConvertedToken) (ctx : context) :
  forallb postfix_ok postfix = true ->
  match _evaluate_postfix postfix ctx with
  | Ok _ =>
      List.length (filter is_number postfix) =
      S (List.length (filter (fun t => negb (is_number t)) postfix))
  | Error e =>
      e = ValueError_incomplete_expression \/ e = ValueError_not_single_value \/
      e = DivisionByZero \/ e = InvalidOperation DivisionUndefined
  end.
Proof.
  intros Hok. unfold _evaluate_postfix.
  destruct (_evaluate_postfix_loop (prec ctx) postfix []) as [stack | e] eqn:E;
    cbn [bind].
  - pose proof (_evaluate_postfix_loop_count _ _ _ _ E) as Hc.
    destruct stack as [| d [| d' stack]]; auto.
  - destruct (_evaluate_postfix_loop_errors _ _ Hok _ _ E) as [-> | [-> | ->]]; auto.
Qed.

Lemma X12_postfix_evaluation_witness :
  List.length (filter is_number
                 [(number, TDecimal (of_int 1)); (number, TDecimal (of_int 2));
                  (operator, TStr "+")]) =
  S (List.length (filter (fun t => negb (is_number t))
                    [(number, TDecimal (of_int 1)); (number, TDecimal (of_int 2));
                     (operator, TStr "+")])).
Proof.
  exact (X12_postfix_evaluation
           [(number, TDecimal (of_int 1)); (number, TDecimal (of_int 2));
            (operator, TStr "+")] DefaultContext eq_refl).
Defined.

(** ** The postfix rewrite *)

Lemma lookup_precedence_ok (v : string) :
  is_operator_text v = true -> exists n : Z, lookup_precedence v = Ok n.
Proof.
  unfold is_operator_text, lookup_precedence.
  destruct (_PRECEDENCE v); [eauto | discriminate].
Qed.

(** The operators popped by an incoming operator. *)
Lemma pop_higher_spec (v : string) (operators : list Token) :
  is_operator_text v = true -> forallb stack_ok operators = true ->
  forall output : list ConvertedToken,
  exists popped kept : list Token,
    pop_higher v operators output = Ok (kept, (output ++ map popped_token popped)%list) /\
    operators = (popped ++ kept)%list /\
    forallb is_operator_token popped = true.
Proof.
  intros Hv. induction operators as [| [kind top] below IH]; intros Hst output.
  - exists [], []. cbn. now rewrite app_nil_r.
  - cbn [forallb] in Hst. apply andb_true_iff in Hst as [Htop Hbelow].
    destruct kind; try discriminate Htop.
    + unfold stack_ok in Htop. cbn [fst snd] in Htop.
      destruct (lookup_precedence_ok top Htop) as (pt & Ept).
      destruct (lookup_precedence_ok v Hv) as (pv & Epv).
      cbn [pop_higher]. rewrite Ept, Epv. cbn [bind].
      destruct (pv <=? pt).
      * destruct (IH Hbelow (output ++ [(operator, TStr top)])%list)
          as (popped & kept & E & -> & Hp).
        exists ((operator, top) :: popped), kept.
        rewrite E. cbn [map popped_token fst snd app forallb is_operator_token
                        token_kind_eqb andb].
        rewrite <- app_assoc. cbn [app]. auto.
      * exists [], ((operator, top) :: below). cbn. now rewrite app_nil_r.
    + exists [], ((lparen, top) :: below). cbn. now rewrite app_nil_r.
Qed.

(** The operators popped by a right parenthesis, down to the nearest
    left parenthesis. *)
Lemma pop_to_lparen_spec (operators : list Token) :
  forallb stack_ok operators = true ->
  forall output : list ConvertedToken,
  exists popped kept : list Token,
    pop_to_lparen operators output = (kept, (output ++ map popped_token popped)%list) /\
    operators = (popped ++ kept)%list /\
    forallb is_operator_token popped = true /\
    (kept = [] \/ exists (v : string) (rest : list Token), kept = (lparen, v) :: rest).
Proof.
  induction operators as [| [kind top] below IH]; intros Hst output.
  - exists [], []. cbn. rewrite app_nil_r. auto.
  - cbn [forallb] in Hst. apply andb_true_iff in Hst as [Htop Hbelow].
    destruct kind; try discriminate Htop; cbn [pop_to_lparen token_kind_eqb negb].
    + destruct (IH Hbelow (output ++ [(operator, TStr top)])%list)
        as (popped & kept & E & -> & Hp & Hk).
      exists ((operator, top) :: popped), kept.
      rewrite E. cbn [map popped_token fst snd app forallb is_operator_token
                      token_kind_eqb andb].
      rewrite <- app_assoc. cbn [app]. auto.
    + exists [], ((lparen, top) :: below). cbn. rewrite app_nil_r.
      repeat split; auto. right. eauto.
Qed.

Lemma opens_app (a b : list Token) : opens (a ++ b) = (opens a + opens b)%nat.
Proof. unfold opens. now rewrite filter_app, List.length_app. Qed.

Lemma opens_operators (popped : list Token) :
  forallb is_operator_token popped = true -> opens popped = O.
Proof.
  induction popped as [| [kind v] rest IH]; [reflexivity |].
  cbn [forallb]. intros H. apply andb_true_iff in H as [Hk Hrest].
  destruct kind; try discriminate Hk. exact (IH Hrest).
Qed.

Lemma stack_ok_app (a b : list Token) :
  forallb stack_ok (a ++ b) = true -> forallb stack_ok a = true /\ forallb stack_ok b = true.
Proof. rewrite forallb_app. apply andb_true_iff. Qed.

(** Popped operators are postfix tokens, none of them an operand. *)
Lemma popped_operators (popped : list Token) :
  forallb stack_ok popped = true -> forallb is_operator_token popped = true ->
  forallb postfix_ok (map popped_token popped) = true /\
  filter is_number (map popped_token popped) = [].
Proof.
  induction popped as [| [kind v] rest IH]; [split; reflexivity |].
  cbn [forallb]. intros Hs Ho.
  apply andb_true_iff in Hs as [Hs1 Hs2]. apply andb_true_iff in Ho as [Ho1 Ho2].
  destruct kind; try discriminate Ho1.
  destruct (IH Hs2 Ho2) as [H1 H2].
  cbn [map popped_token fst snd forallb postfix_ok filter is_number token_kind_eqb].
  unfold stack_ok in Hs1. cbn [fst snd] in Hs1. rewrite Hs1, H1, H2. split; reflexivity.
Qed.

Lemma pop_all_spec (operators : list Token) :
  forallb stack_ok operators = true ->
  forall output : list ConvertedToken,
    pop_all operators output =
    if Nat.eqb (opens operators) 0
    then Ok (output ++ map popped_token operators)%list
    else Error ValueError_mismatched_parentheses.
Proof.
  induction operators as [| [kind v] below IH]; intros Hst output.
  - cbn. now rewrite app_nil_r.
  - cbn [forallb] in Hst. apply andb_true_iff in Hst as [Htop Hbelow].
    destruct kind; try discriminate Htop; cbn [pop_all token_kind_eqb orb].
    + rewrite (IH Hbelow). change (opens ((operator, v) :: below)) with (opens below).
      destruct (Nat.eqb (opens below) 0); [| reflexivity].
      cbn [map popped_token fst snd]. rewrite <- app_assoc. reflexivity.
    + reflexivity.
Qed.

Lemma opens_zero_operators (operators : list Token) :
  forallb stack_ok operators = true -> opens operators = O ->
  forallb is_operator_token operators = true.
Proof.
  induction operators as [| [kind v] rest IH]; [reflexivity |].
  cbn [forallb]. intros Hs Ho. apply andb_true_iff in Hs as [Hs1 Hs2].
  destruct kind; try discriminate Hs1; [| discriminate Ho].
  exact (IH Hs2 Ho).
Qed.

(** The loop of [_to_postfix] from any reachable state: it ends with the
    mismatched-parentheses error exactly when the parentheses still to
    come do not close the open ones; otherwise it appends the operands in
    their order and every operator once. *)
Lemma _to_postfix_loop_spec (tokens : list ConvertedToken) :
  forallb converted_ok tokens = true ->
  forall (output : list ConvertedToken) (operators : list Token),
    forallb stack_ok operators = true ->
    match _to_postfix_loop tokens output operators with
    | Ok res =>
        balanced tokens (opens operators) = true /\
        exists added : list ConvertedToken,
          res = (output ++ added)%list /\
          forallb postfix_ok added = true /\
          filter is_number added = filter is_number tokens /\
          (List.length added + opens operators =
           List.length (filter (fun t => negb (is_paren t)) tokens) +
           List.length operators)%nat
    | Error e =>
        balanced tokens (opens operators) = false /\
        e = ValueError_mismatched_parentheses
    end.
Proof.
  induction tokens as [| [kind value] rest IH]; intros Hok output operators Hst.
  - cbn [_to_postfix_loop balanced filter List.length].
    rewrite (pop_all_spec operators Hst).
    destruct (Nat.eqb (opens operators) 0) eqn:E; [| auto].
    apply Nat.eqb_eq in E. split; [reflexivity |].
    exists (map popped_token operators).
    destruct (popped_operators operators Hst (opens_zero_operators _ Hst E)) as [H1 H2].
    rewrite List.length_map. repeat split; auto. lia.
  - cbn [forallb] in Hok. apply andb_true_iff in Hok as [Ht Hrest].
    specialize (IH Hrest).
    destruct kind, value as [d | v]; try discriminate Ht;
      cbn [_to_postfix_loop balanced].
    + (* an operand *)
      specialize (IH (output ++ [(number, TDecimal d)])%list operators Hst).
      destruct (_to_postfix_loop rest _ operators) as [res | e]; [| exact IH].
      destruct IH as (Hb & added & -> & Hp & Hn & Hl).
      split; [exact Hb |]. exists ((number, TDecimal d) :: added).
      rewrite <- app_assoc. cbn [app forallb postfix_ok filter is_number is_paren
                                 fst token_kind_eqb orb negb List.length].
      rewrite Hp, Hn. repeat split; auto. lia.
    + (* an operator *)
      cbn [converted_ok] in Ht.
      destruct (pop_higher_spec v operators Ht Hst output)
        as (popped & kept & E & -> & Hpop).
      rewrite E. cbn [bind].
      destruct (stack_ok_app _ _ Hst) as [Hs1 Hs2].
      assert (Hst' : forallb stack_ok ((operator, v) :: kept) = true).
      { cbn [forallb]. unfold stack_ok at 1. cbn [fst snd]. now rewrite Ht, Hs2. }
      specialize (IH (output ++ map popped_token popped)%list _ Hst').
      rewrite opens_app, (opens_operators _ Hpop). cbn [Nat.add].
      change (opens ((operator, v) :: kept)) with (opens kept) in IH.
      destruct (_to_postfix_loop rest _ _) as [res | e]; [| exact IH].
      destruct IH as (Hb & added & -> & Hp & Hn & Hl).
      split; [exact Hb |]. exists (map popped_token popped ++ added)%list.
      destruct (popped_operators popped Hs1 Hpop) as [H1 H2].
      rewrite <- app_assoc, forallb_app, filter_app, H1, H2, Hp, Hn.
      cbn [filter is_number is_paren fst token_kind_eqb orb negb List.length app andb].
      rewrite !List.length_app, List.length_map. cbn [List.length] in Hl.
      repeat split; auto. lia.
    + (* a left parenthesis *)
      assert (Hst' : forallb stack_ok ((lparen, v) :: operators) = true).
      { cbn [forallb]. now rewrite Hst. }
      specialize (IH output _ Hst').
      change (opens ((lparen, v) :: operators)) with (S (opens operators)) in IH.
      destruct (_to_postfix_loop rest _ _) as [res | e]; [| exact IH].
      destruct IH as (Hb & added & -> & Hp & Hn & Hl).
      split; [exact Hb |]. exists added.
      cbn [filter is_number is_paren fst token_kind_eqb orb negb List.length] in *.
      repeat split; auto. lia.
    + (* a right parenthesis *)
      destruct (pop_to_lparen_spec operators Hst output)
        as (popped & kept & E & -> & Hpop & Hkept).
      rewrite E. rewrite opens_app, (opens_operators _ Hpop). cbn [Nat.add].
      destruct (stack_ok_app _ _ Hst) as [Hs1 Hs2].
      destruct Hkept as [-> | (v' & below & ->)]; [split; reflexivity |].
      cbn [forallb] in Hs2. apply andb_true_iff in Hs2 as [_ Hs2].
      specialize (IH (output ++ map popped_token popped)%list below Hs2).
      change (opens ((lparen, v') :: below)) with (S (opens below)).
      destruct (_to_postfix_loop rest _ _) as [res | e]; [| exact IH].
      destruct IH as (Hb & added & -> & Hp & Hn & Hl).
      split; [exact Hb |]. exists (map popped_token popped ++ added)%list.
      destruct (popped_operators popped Hs1 Hpop) as [H1 H2].
      rewrite <- app_assoc, forallb_app, filter_app, H1, H2, Hp, Hn.
      cbn [filter is_number is_paren fst token_kind_eqb orb negb List.length app andb].
      rewrite !List.length_app, List.length_map. cbn [List.length].
      repeat split; auto. lia.
Qed.

(** X13. [_to_postfix] on the tokens of an expression raises the
    mismatched-parentheses ValueError exactly when the parentheses do not
    match, and nothing else (no KeyError from the precedence table, no
    assertion, no unexpected token kind).  Otherwise its output holds no
    parenthesis, keeps the operands in their order, and holds every
    operand and operator token exactly once. *)
Theorem X13_postfix_rewrite (tokens : list ConvertedToken) :
  forallb converted_ok tokens = true ->
  match _to_postfix tokens with
  | Ok postfix =>
      balanced tokens 0 = true /\
      forallb postfix_ok postfix = true /\
      filter is_number postfix = filter is_number tokens /\
      List.length postfix = List.length (filter (fun t => negb (is_paren t)) tokens)
  | Error e =>
      balanced tokens 0 = false /\ e = ValueError_mismatched_parentheses
  end.
Proof.
  intros Hok. unfold _to_postfix.
  pose proof (_to_postfix_loop_spec tokens Hok [] [] eq_refl) as H.
  destruct (_to_postfix_loop tokens [] []) as [res | e]; [| exact H].
  destruct H as (Hb & added & -> & Hp & Hn & Hl).
  cbn [app opens filter List.length] in *. repeat split; auto. lia.
Qed.

Lemma X13_postfix_rewrite_witness :
  match _to_postfix [(lparen, TStr "("); (number, TDecimal (of_int 1));
                     (operator, TStr "+"); (number, TDecimal (of_int 2));
                     (rparen, TStr ")"); (operator, TStr "*");
                     (number, TDecimal (of_int 3))] with
  | Ok postfix => List.length postfix = 5%nat
  | Error e => False
  end.
Proof.
  exact (proj2 (proj2 (proj2 (X13_postfix_rewrite
    [(lparen, TStr "("); (number, TDecimal (of_int 1));
     (operator, TStr "+"); (number, TDecimal (of_int 2));
     (rparen, TStr ")"); (operator, TStr "*");
     (number, TDecimal (of_int 3))] eq_refl)))).
Defined.

(** ** The tokens and the exceptions of [calculate] *)

Lemma _parse_number_error (ch : ascii) (s' : string) (e : exception) :
  _parse_number (String ch s') = Error e -> e = ValueError_invalid_number.
Proof.
  unfold _parse_number. intros H.
  repeat match type of H with
         | (if ?b then _ else _) = _ => destruct b
         | (let '(_, _) := ?x in _) = _ => destruct x
         end; try discriminate H; now injection H as <-.
Qed.

Lemma operator_char_text (ch : ascii) :
  PyStr.contains "+-*/" ch = true -> is_operator_text (str1 ch) = true.
Proof. destruct ch as [[] [] [] [] [] [] [] []]; vm_compute; congruence. Qed.

Lemma sign_char_operator (ch : ascii) :
  PyStr.contains "+-" ch = true -> PyStr.contains "+-*/" ch = true.
Proof. destruct ch as [[] [] [] [] [] [] [] []]; vm_compute; congruence. Qed.

Lemma paren_char_text (ch p : ascii) :
  Ascii.eqb ch p = true -> String.eqb (str1 ch) (str1 p) = true.
Proof. intros H. apply Ascii.eqb_eq in H. subst ch. apply String.eqb_refl. Qed.

Lemma contains_app_r (a b : string) (ch : ascii) :
  PyStr.contains b ch = true -> PyStr.contains (a ++ b) ch = true.
Proof.
  intros H. induction a as [| c a IH]; [exact H |].
  cbn [append PyStr.contains]. rewrite IH. apply orb_true_r.
Qed.

Lemma forallb_snoc {A : Type} (f : A -> bool) (l : list A) (x : A) :
  forallb f l = true -> f x = true -> forallb f (l ++ [x]) = true.
Proof. intros Hl Hx. rewrite forallb_app, Hl. cbn. now rewrite Hx. Qed.

(** The loop of [_tokenize]: the tokens it appends pair kinds and texts
    as expected, and it fails on a character it does not know or on a
    sign or point without a digit. *)
Lemma _tokenize_loop_spec (fuel : nat) :
  forall (s : string) (can_start : bool) (acc : list Token),
    forallb token_ok acc = true ->
    match _tokenize_loop fuel s can_start acc with
    | Ok toks => forallb token_ok toks = true
    | Error e =>
        e = ValueError_invalid_number \/
        exists ch : ascii,
          e = ValueError_unexpected_character ch /\ token_char ch = false /\
          PyStr.contains s ch = true
    end.
Proof.
  induction fuel as [| fuel IH]; intros s can_start acc Hacc.
  - destruct s; exact Hacc.
  - destruct s as [| ch s']; [exact Hacc |].
    assert (Hlater : forall (cs : bool) (acc' : list Token),
              forallb token_ok acc' = true ->
              match _tokenize_loop fuel s' cs acc' with
              | Ok toks => forallb token_ok toks = true
              | Error e =>
                  e = ValueError_invalid_number \/
                  exists c : ascii,
                    e = ValueError_unexpected_character c /\ token_char c = false /\
                    PyStr.contains (String ch s') c = true
              end).
    { intros cs acc' Hacc'. specialize (IH s' cs acc' Hacc').
      destruct (_tokenize_loop fuel s' cs acc') as [toks | e]; [exact IH |].
      destruct IH as [-> | (c & -> & Hc & Hin)]; [now left | right].
      exists c. cbn [PyStr.contains]. rewrite Hin, orb_true_r. auto. }
    assert (Hparse : forall cs : bool,
              match (do '(token, rest) <- _parse_number (String ch s');
                     _tokenize_loop fuel rest cs (acc ++ [(number, token)])%list) with
              | Ok toks => forallb token_ok toks = true
              | Error e =>
                  e = ValueError_invalid_number \/
                  exists c : ascii,
                    e = ValueError_unexpected_character c /\ token_char c = false /\
                    PyStr.contains (String ch s') c = true
              end).
    { intros cs.
      destruct (_parse_number (String ch s')) as [[token rest] | e] eqn:Ep; cbn [bind].
      - destruct (_parse_number_spec _ _ _ Ep) as (_ & Hs & _).
        assert (Hacc' : forallb token_ok (acc ++ [(number, token)]) = true)
          by (now apply forallb_snoc).
        specialize (IH rest cs _ Hacc').
        destruct (_tokenize_loop fuel rest cs _) as [toks | e]; [exact IH |].
        destruct IH as [-> | (c & -> & Hc & Hin)]; [now left | right].
        exists c. rewrite Hs. repeat split; auto. now apply contains_app_r.
      - left. exact (_parse_number_error _ _ _ Ep). }
    cbn [_tokenize_loop].
    destruct (PyStr.isspace ch) eqn:Hsp; [now apply Hlater |].
    destruct (PyStr.contains "+-" ch && can_start) eqn:Hsign.
    { apply andb_true_iff in Hsign as [Hsg _].
      destruct (String.eqb _ "("); [| apply Hparse].
      apply Hlater. rewrite forallb_app, Hacc. cbn [forallb token_ok fst snd andb].
      now rewrite (operator_char_text ch (sign_char_operator ch Hsg)). }
    destruct (PyStr.contains "+-*/" ch) eqn:Hop.
    { apply Hlater. apply forallb_snoc; [exact Hacc |]. now apply operator_char_text. }
    destruct (Ascii.eqb ch "(") eqn:Hl.
    { apply Hlater. apply forallb_snoc; [exact Hacc |]. exact (paren_char_text _ _ Hl). }
    destruct (Ascii.eqb ch ")") eqn:Hr.
    { apply Hlater. apply forallb_snoc; [exact Hacc |]. exact (paren_char_text _ _ Hr). }
    destruct (_ALLOWED_DIGITS ch) eqn:Hd; [apply Hparse |].
    right. exists ch. unfold token_char. rewrite Hsp, Hop, Hl, Hr, Hd.
    cbn [PyStr.contains]. rewrite Ascii.eqb_refl. auto.
Qed.

(** X14. [_tokenize] either returns tokens whose kinds and texts agree
    (an operator token holds one of [+ - * /], a parenthesis token its
    parenthesis, a number token a signed literal with at least one digit
    and at most one point), or raises one of two ValueErrors: the
    invalid-number error, or the unexpected-character error on a
    character of the expression that is neither white space, an operator,
    a parenthesis nor a digit.  The point is such a character: an
    expression cannot begin with one, although a signed literal can. *)
Theorem X14_tokenizer (expression : string) :
  match _tokenize expression with
  | Ok toks => forallb token_ok toks = true /\ Forall token_wf toks
  | Error e =>
      e = ValueError_invalid_number \/
      exists ch : ascii,
        e = ValueError_unexpected_character ch /\ token_char ch = false /\
        PyStr.contains expression ch = true
  end /\
  (forall rest : string,
     _tokenize (String "." rest) = Error (ValueError_unexpected_character ".")) /\
  _tokenize "-.6" = Ok [(number, "-.6")].
Proof.
  split; [| split; reflexivity].
  pose proof (_tokenize_loop_spec (String.length expression) expression true []
                eq_refl) as H.
  fold (_tokenize expression) in H.
  destruct (_tokenize expression) as [toks | e] eqn:E; [| exact H].
  split; [exact H | exact (_tokenize_wf _ _ E)].
Qed.

Lemma _convert_numbers_spec (ctx : context) (toks : list Token) :
  1 <= prec ctx ->
  Forall token_wf toks -> forallb token_ok toks = true ->
  match _convert_numbers toks ctx with
  | Ok tokens => forallb converted_ok tokens = true
  | Error e => e = ValueError_invalid_digit "+"
  end.
Proof.
  intros Hp. induction toks as [| [kind value] rest IH]; intros Hwf Hok;
    [reflexivity |].
  inversion Hwf as [| ? ? Htok Hrest]; subst.
  cbn [forallb] in Hok. apply andb_true_iff in Hok as [Hk Hoks].
  specialize (IH Hrest Hoks). cbn [_convert_numbers].
  assert (Hother : forall k : token_kind,
            converted_ok (k, TStr value) = true ->
            match (do tok <- Ok (k, TStr value);
                   do converted <- _convert_numbers rest ctx;
                   Ok (tok :: converted)) with
            | Ok tokens => forallb converted_ok tokens = true
            | Error e => e = ValueError_invalid_digit "+"
            end).
  { intros k Hc. cbn [bind].
    destruct (_convert_numbers rest ctx) as [converted | e]; cbn [bind]; [| exact IH].
    cbn [forallb]. now rewrite Hc, IH. }
  destruct kind; [| now apply Hother | now apply Hother | now apply Hother].
  destruct (Htok eq_refl) as (sign & w & Hv & Hsign & Hw & Hc & Hne).
  cbn [snd] in Hv. subst value.
  assert (Hgood : forall minus : bool,
            match (do tok <- (do d <- _dozenal_number_to_decimal
                                        ((if minus then "-" else "") ++ w) ctx;
                              Ok (number, TDecimal d));
                   do converted <- _convert_numbers rest ctx;
                   Ok (tok :: converted)) with
            | Ok tokens => forallb converted_ok tokens = true
            | Error e => e = ValueError_invalid_digit "+"
            end).
  { intros minus.
    destruct (_dozenal_number_to_decimal_ok minus w ctx Hp Hw Hc Hne) as (d & ->).
    cbn [bind].
    destruct (_convert_numbers rest ctx) as [converted | e]; cbn [bind]; [| exact IH].
    exact IH. }
  destruct Hsign as [-> | [-> | ->]].
  - exact (Hgood false).
  - unfold _dozenal_number_to_decimal.
    rewrite (dozenal_to_decimal_plus w ctx Hw Hc). reflexivity.
  - exact (Hgood true).
Qed.

Lemma floordiv_one_error (p : Z) (a : Decimal) (e : exception) :
  floordiv p a (of_int 1) = Error e -> e = InvalidOperation DivisionImpossible.
Proof.
  unfold floordiv. change (is_zero (of_int 1)) with false. cbv iota.
  intros H.
  repeat match type of H with
         | (if ?b then _ else _) = _ => destruct b
         end; try discriminate H; now injection H as <-.
Qed.

Lemma decimal_to_dozenal_loop_error (p : Z) (n : nat) :
  forall (frac_part : Decimal) (acc : list ascii) (e : exception),
    decimal_to_dozenal_loop p n frac_part acc = Error e ->
    e = InvalidOperation DivisionImpossible \/ e = IndexError_string_index.
Proof.
  induction n as [| n IH]; intros frac_part acc e H;
    cbn [decimal_to_dozenal_loop] in H; [discriminate H |].
  destruct (floordiv p _ _) as [q | e'] eqn:Eq; cbn [bind] in H.
  - destruct (digits_getitem (to_int q)) as [ch | e'] eqn:Ech; cbn [bind] in H.
    + destruct (eqb _ _); [discriminate H | exact (IH _ _ _ H)].
    + injection H as <-. right. unfold digits_getitem in Ech.
      destruct (PyStr.get _ _); [discriminate Ech | now injection Ech as <-].
  - injection H as <-. left. exact (floordiv_one_error _ _ _ Eq).
Qed.

Lemma decimal_to_dozenal_decimal_error (d : Decimal) (frac_precision : Z)
    (ctx : context) (e : exception) :
  fst (decimal_to_dozenal (PyDec d) frac_precision ctx) = Error e ->
  e = InvalidOperation DivisionImpossible \/ e = IndexError_string_index.
Proof.
  unfold decimal_to_dozenal. cbn [fst prec bind]. intros H.
  destruct (floordiv _ _ _) as [q | e'] eqn:Eq; cbn [bind] in H.
  - destruct (_ || _); [discriminate H |].
    destruct (decimal_to_dozenal_loop _ _ _ _) as [ds | e'] eqn:El; cbn [bind] in H;
      [discriminate H |].
    injection H as <-. exact (decimal_to_dozenal_loop_error _ _ _ _ _ El).
  - injection H as <-. left. exact (floordiv_one_error _ _ _ Eq).
Qed.

(** X15. The exceptions of [calculate].  Whatever the expression, and
    for every precision whose working precision [max(28, 3 *
    frac_precision)] is at most [decimal.MAX_PREC] (above it the
    assignment of the working precision raises a ValueError of
    [decimal] itself), a call that fails raises, the exponent limits
    and the exhaustion of memory aside, one of: the empty-expression,
    negative-precision, unexpected-character, invalid-number,
    mismatched-parentheses, incomplete-expression or not-a-single-value
    ValueError; the invalid-digit ValueError on ['+'] (a literal with a
    plus sign); decimal.DivisionByZero or decimal.InvalidOperation; or
    the IndexError of the digit lookup.  It never raises a KeyError, an
    AssertionError, the unsupported-operator or unexpected-token-kind
    error, nor the converter's empty-string or more-than-one-point
    error. *)
Theorem X15_calculate_exceptions (expression : string) (frac_precision : Z)
    (ctx : context) (e : exception) :
  Z.max 28 (frac_precision * 3) <= MAX_PREC ->
  fst (calculate expression frac_precision ctx) = Error e ->
  calculate_error e = true /\
  class_of e <> KeyError /\ class_of e <> AssertionErrorClass.
Proof.
  intros _ H.
  assert (Hc : calculate_error e = true);
    [| split; [exact Hc | destruct e; try discriminate Hc; split; discriminate]].
  unfold calculate in H.
  destruct (String.eqb _ ""); [cbn [fst] in H; now injection H as <- |].
  destruct (frac_precision <? 0); [cbn [fst] in H; now injection H as <- |].
  cbn [fst] in H.
  set (expr := PyStr.upper (PyStr.strip expression)) in *.
  set (P := Z.max 28 (frac_precision * 3)) in *.
  pose proof (_tokenize_loop_spec (String.length expr) expr true [] eq_refl) as Htok.
  fold (_tokenize expr) in Htok.
  destruct (_tokenize expr) as [toks | e1] eqn:Et; cbn [bind] in H.
  2: { injection H as <-. destruct Htok as [-> | (ch & -> & _)]; reflexivity. }
  pose proof (_convert_numbers_spec (mkContext P) toks ltac:(cbn [prec]; lia)
                (_tokenize_wf _ _ Et) Htok) as Hconv.
  destruct (_convert_numbers toks (mkContext P)) as [tokens | e2]; cbn [bind] in H.
  2: { injection H as <-. subst e2. reflexivity. }
  pose proof (_to_postfix_loop_spec tokens Hconv [] [] eq_refl) as Hpost.
  fold (_to_postfix tokens) in Hpost.
  destruct (_to_postfix tokens) as [postfix | e3]; cbn [bind] in H.
  2: { injection H as <-. destruct Hpost as [_ ->]. reflexivity. }
  destruct Hpost as (_ & added & Hadd & Hok & _). cbn [app] in Hadd. subst added.
  unfold _evaluate_postfix in H.
  destruct (_evaluate_postfix_loop (prec (mkContext P)) postfix []) as [stack | e4] eqn:Ee;
    cbn [bind] in H.
  2: { injection H as <-.
       destruct (_evaluate_postfix_loop_errors _ _ Hok _ _ Ee) as [-> | [-> | ->]];
         reflexivity. }
  destruct stack as [| d [| d' stack]]; cbn [bind] in H;
    try (injection H as <-; reflexivity).
  destruct (fst (decimal_to_dozenal (PyDec d) frac_precision (mkContext P)))
    as [dz | e5] eqn:Ed; cbn [bind] in H; [discriminate H |].
  injection H as <-.
  destruct (decimal_to_dozenal_decimal_error _ _ _ _ Ed) as [-> | ->]; reflexivity.
Qed.

Lemma X15_calculate_exceptions_witness :
  calculate_error ValueError_mismatched_parentheses = true /\
  class_of ValueError_mismatched_parentheses <> KeyError /\
  class_of ValueError_mismatched_parentheses <> AssertionErrorClass.
Proof.
  apply (X15_calculate_exceptions "(1+2" 12 DefaultContext).
  - vm_compute; congruence.
  - reflexivity.
Defined.

(** ** Parentheses *)

(** A parenthesised operand, met with any operator stack, is rewritten
    to its postfix form and leaves the stack as it found it. *)
Lemma _to_postfix_loop_operand (e : tree) :
  forall (rest output : list ConvertedToken) (operators : list Token),
    _to_postfix_loop (parenthesized e (infix e) ++ rest) output operators =
    _to_postfix_loop rest (output ++ postfix_of e) operators.
Proof.
  induction e as [d | o l IHl r IHr]; intros rest output operators.
  - reflexivity.
  - cbn [parenthesized infix postfix_of].
    rewrite <- !app_comm_cons, <- !app_assoc.
    cbn [_to_postfix_loop]. rewrite IHl.
    cbn [app _to_postfix_loop pop_higher bind]. rewrite IHr.
    cbn [app _to_postfix_loop pop_to_lparen token_kind_eqb negb].
    now rewrite <- !app_assoc.
Qed.

Lemma _evaluate_postfix_loop_tree (p : Z) (e : tree) :
  forall stack : list Decimal,
    _evaluate_postfix_loop p (postfix_of e) stack =
    (do v <- eval p e; Ok (v :: stack)).
Proof.
  induction e as [d | o l IHl r IHr]; intros stack; [reflexivity |].
  cbn [postfix_of eval].
  rewrite _evaluate_postfix_loop_app, IHl.
  destruct (eval p l) as [x | e]; cbn [bind]; [| reflexivity].
  rewrite _evaluate_postfix_loop_app, IHr.
  destruct (eval p r) as [y | e]; cbn [bind]; [| reflexivity].
  cbn [_evaluate_postfix_loop token_kind_eqb].
  destruct (apply_operator p (binop_text o) x y); reflexivity.
Qed.

Lemma _to_postfix_tree (e : tree) : _to_postfix (infix e) = Ok (postfix_of e).
Proof.
  unfold _to_postfix. destruct e as [d | o l r]; [reflexivity |].
  cbn [infix postfix_of]. rewrite _to_postfix_loop_operand.
  cbn [app _to_postfix_loop pop_higher bind].
  rewrite <- (app_nil_r (parenthesized r (infix r))), _to_postfix_loop_operand.
  cbn [_to_postfix_loop pop_all token_kind_eqb orb].
  now rewrite <- app_assoc.
Qed.

(** X16. Parentheses group at any depth: for an expression tree whose
    compound operands are written between parentheses, whatever the
    operators, [_to_postfix] returns the operands and operators of the
    tree in postfix order and [_evaluate_postfix] computes the value of
    the tree, the left operand of each operation first (so the first
    division by zero met in that order is the one raised). *)
Theorem X16_parentheses_group (e : tree) (ctx : context) :
  _to_postfix (infix e) = Ok (postfix_of e) /\
  (do postfix <- _to_postfix (infix e); _evaluate_postfix postfix ctx) =
  eval (prec ctx) e.
Proof.
  split; [apply _to_postfix_tree |].
  rewrite _to_postfix_tree. cbn [bind]. unfold _evaluate_postfix.
  rewrite _evaluate_postfix_loop_tree.
  destruct (eval (prec ctx) e); reflexivity.
Qed.

(** ** Integer arithmetic, end to end *)

Lemma span_digits_app (ds rest : string) :
  all_chars _ALLOWED_DIGITS ds = true ->
  match rest with String c _ => _ALLOWED_DIGITS c = false | EmptyString => True end ->
  span_digits (ds ++ rest) = (ds, rest).
Proof.
  intros Hds Hrest. induction ds as [| c ds IH]; cbn [append].
  - destruct rest as [| c r]; [reflexivity |]. cbn [span_digits]. now rewrite Hrest.
  - cbn [all_chars] in Hds. apply andb_true_iff in Hds as [Hc Hds].
    cbn [span_digits]. now rewrite Hc, (IH Hds).
Qed.

Lemma digit_is_no_token_char (c : ascii) :
  _ALLOWED_DIGITS c = true ->
  PyStr.isspace c = false /\ PyStr.contains "+-" c = false /\
  PyStr.contains "+-*/" c = false /\ Ascii.eqb c "(" = false /\ Ascii.eqb c ")" = false.
Proof.
  destruct c as [[] [] [] [] [] [] [] []]; vm_compute; intros H; try discriminate H;
    repeat split.
Qed.

(** A run of digits that stops is one literal. *)
Lemma _parse_number_digits (c : ascii) (ds rest : string) :
  all_chars _ALLOWED_DIGITS (String c ds) = true -> stops rest = true ->
  _parse_number (String c ds ++ rest) = Ok (String c ds, rest).
Proof.
  intros Hds Hst.
  assert (Hc : _ALLOWED_DIGITS c = true).
  { cbn [all_chars] in Hds. now apply andb_true_iff in Hds as [Hc _]. }
  destruct (digit_is_no_token_char c Hc) as (_ & Hsign & _).
  unfold _parse_number. cbn [append]. rewrite Hsign.
  change (String c (ds ++ rest)) with (String c ds ++ rest).
  rewrite span_digits_app; [| exact Hds |].
  - change (String.eqb (String c ds) "") with false. cbn [negb].
    destruct rest as [| c' r]; [now rewrite append_nil_r |].
    cbn [stops] in Hst. apply andb_true_iff in Hst as [_ Hp].
    apply negb_true_iff in Hp. rewrite Hp. cbn [negb]. now rewrite append_nil_r.
  - destruct rest as [| c' r]; [exact I |].
    cbn [stops] in Hst. apply andb_true_iff in Hst as [Hd _].
    now apply negb_true_iff in Hd.
Qed.

Lemma _tokenize_loop_nil (fuel : nat) (can_start : bool) (acc : list Token) :
  _tokenize_loop fuel "" can_start acc = Ok acc.
Proof. destruct fuel; reflexivity. Qed.

(** With fuel for the whole text, a literal is read in one turn. *)
Lemma _tokenize_loop_number (fuel : nat) (c : ascii) (ds rest : string)
    (can_start : bool) (acc : list Token) :
  (String.length (String c ds ++ rest) <= fuel)%nat ->
  all_chars _ALLOWED_DIGITS (String c ds) = true -> stops rest = true ->
  _tokenize_loop fuel (String c ds ++ rest) can_start acc =
  _tokenize_loop fuel rest false (acc ++ [(number, String c ds)]).
Proof.
  intros Hlen Hds Hst.
  assert (Hc : _ALLOWED_DIGITS c = true).
  { cbn [all_chars] in Hds. now apply andb_true_iff in Hds as [Hc _]. }
  destruct (digit_is_no_token_char c Hc) as (Hsp & Hsign & Hop & Hl & Hr).
  destruct fuel as [| fuel]; [cbn [append String.length] in Hlen; lia |].
  rewrite (_tokenize_loop_fuel fuel rest).
  2: { rewrite length_app in Hlen. cbn [String.length] in Hlen. lia. }
  pose proof (_parse_number_digits c ds rest Hds Hst) as Hp.
  cbn [append] in Hp |- *. cbn [_tokenize_loop].
  rewrite Hsp, Hsign, Hop, Hl, Hr, Hc. cbn [andb]. rewrite Hp. reflexivity.
Qed.

(** After an operand, an operator character is an operator token. *)
Lemma _tokenize_loop_operator (fuel : nat) (o : binop) (rest : string)
    (acc : list Token) :
  (String.length (binop_text o ++ rest) <= fuel)%nat ->
  _tokenize_loop fuel (binop_text o ++ rest) false acc =
  _tokenize_loop fuel rest true (acc ++ [(operator, binop_text o)]).
Proof.
  intros Hlen.
  destruct fuel as [| fuel]; [destruct o; cbn [binop_text append String.length] in Hlen; lia |].
  rewrite (_tokenize_loop_fuel fuel rest).
  2: { destruct o; cbn [binop_text append String.length] in Hlen; lia. }
  destruct o; reflexivity.
Qed.

Lemma canonical_digits (s : string) :
  canonical s = true ->
  exists (c : ascii) (ds : string),
    s = String c ds /\ all_chars _ALLOWED_DIGITS (String c ds) = true.
Proof.
  intros H. destruct (canonical_shape s H) as (Ha & Hne).
  destruct s as [| c ds]; [contradiction | eauto].
Qed.

Lemma stops_operator (o : binop) (rest : string) : stops (binop_text o ++ rest) = true.
Proof. destruct o; reflexivity. Qed.

Lemma space_is_no_digit (c : ascii) :
  PyStr.isspace c = true ->
  _ALLOWED_DIGITS c = false /\ Ascii.eqb c "." = false /\ PyStr.upper_char c = c.
Proof. destruct c as [[] [] [] [] [] [] [] []]; vm_compute; intros H; try discriminate H; repeat split. Qed.

(** White space before a token is skipped. *)
Lemma _tokenize_loop_spaces (w : string) :
  all_chars PyStr.isspace w = true ->
  forall (fuel : nat) (s : string) (can_start : bool) (acc : list Token),
    (String.length (w ++ s) <= fuel)%nat ->
    _tokenize_loop fuel (w ++ s) can_start acc = _tokenize_loop fuel s can_start acc.
Proof.
  induction w as [| c w IH]; intros Hw fuel s can_start acc Hlen; [reflexivity |].
  cbn [all_chars] in Hw. apply andb_true_iff in Hw as [Hc Hw].
  cbn [append String.length] in Hlen |- *.
  destruct fuel as [| fuel]; [lia |].
  rewrite (_tokenize_loop_fuel fuel s).
  2: { rewrite length_app in Hlen. lia. }
  cbn [_tokenize_loop]. rewrite Hc. apply IH; [exact Hw | lia].
Qed.

Lemma stops_spaces (w rest : string) :
  all_chars PyStr.isspace w = true -> stops rest = true -> stops (w ++ rest) = true.
Proof.
  intros Hw Hrest. destruct w as [| c w]; [exact Hrest |].
  cbn [all_chars] in Hw. apply andb_true_iff in Hw as [Hc _].
  cbn [append stops]. now destruct (space_is_no_digit c Hc) as (-> & -> & _).
Qed.

Lemma rstrip_app_nonspace (x y : string) :
  y <> "" -> all_chars (fun c => negb (PyStr.isspace c)) y = true ->
  PyStr.rstrip (x ++ y) = x ++ y.
Proof.
  intros Hne Hy. induction x as [| c x IH]; cbn [append]; [now apply rstrip_id |].
  cbn [PyStr.rstrip]. rewrite IH.
  destruct (x ++ y) eqn:E; [| reflexivity].
  destruct x; [cbn [append] in E; contradiction | discriminate E].
Qed.

Lemma _tokenize_loop_lparen (fuel : nat) (rest : string) (can_start : bool)
    (acc : list Token) :
  (String.length (String "(" rest) <= fuel)%nat ->
  _tokenize_loop fuel (String "(" rest) can_start acc =
  _tokenize_loop fuel rest true (acc ++ [(lparen, "(")]).
Proof.
  intros Hlen. cbn [String.length] in Hlen.
  destruct fuel as [| fuel]; [lia |].
  rewrite (_tokenize_loop_fuel fuel rest) by lia.
  destruct can_start; reflexivity.
Qed.

Lemma _tokenize_loop_rparen (fuel : nat) (rest : string) (can_start : bool)
    (acc : list Token) :
  (String.length (String ")" rest) <= fuel)%nat ->
  _tokenize_loop fuel (String ")" rest) can_start acc =
  _tokenize_loop fuel rest false (acc ++ [(rparen, ")")]).
Proof.
  intros Hlen. cbn [String.length] in Hlen.
  destruct fuel as [| fuel]; [lia |].
  rewrite (_tokenize_loop_fuel fuel rest) by lia.
  destruct can_start; reflexivity.
Qed.

Lemma int_tree_fits_value (P : Z) (e : int_tree) :
  int_tree_fits P e -> Z.abs (int_value e) < 10 ^ P.
Proof.
  destruct e as [a | o l r]; cbn [int_tree_fits int_value]; [lia | tauto].
Qed.

Section IntTrees.

Variables w1 w2 : string.
Hypothesis Hw1 : all_chars PyStr.isspace w1 = true.
Hypothesis Hw2 : all_chars PyStr.isspace w2 = true.
Variable P : Z.
Hypothesis HP : 1 <= P.

(** The tokenizer reads the text of a tree as its tokens, as an operand
    between parentheses and as it stands. *)
Lemma _tokenize_loop_tree (e : int_tree) :
  int_tree_fits P e ->
  (forall (fuel : nat) (rest : string) (can_start : bool) (acc : list Token),
      (String.length (in_parens e (int_text w1 w2 e) ++ rest) <= fuel)%nat ->
      stops rest = true ->
      _tokenize_loop fuel (in_parens e (int_text w1 w2 e) ++ rest) can_start acc =
      _tokenize_loop fuel rest false (acc ++ paren_tokens e (int_tokens e))) /\
  (forall (fuel : nat) (rest : string) (can_start : bool) (acc : list Token),
      (String.length (int_text w1 w2 e ++ rest) <= fuel)%nat ->
      stops rest = true ->
      _tokenize_loop fuel (int_text w1 w2 e ++ rest) can_start acc =
      _tokenize_loop fuel rest false (acc ++ int_tokens e)).
Proof.
  induction e as [a | o l IHl r IHr]; intros Hfits.
  - cbn [int_tree_fits] in Hfits.
    assert (Hlit : forall (fuel : nat) (rest : string) (can_start : bool) (acc : list Token),
               (String.length (_int_to_base12 a ++ rest) <= fuel)%nat ->
               stops rest = true ->
               _tokenize_loop fuel (_int_to_base12 a ++ rest) can_start acc =
               _tokenize_loop fuel rest false (acc ++ [(number, _int_to_base12 a)])).
    { intros fuel rest cs acc Hlen Hst.
      destruct (canonical_digits _ (_int_to_base12_canonical a ltac:(lia)))
        as (c & ds & E & Hds).
      rewrite E in *. now apply _tokenize_loop_number. }
    split; exact Hlit.
  - cbn [int_tree_fits] in Hfits. destruct Hfits as (Ho & Hl & Hr & _).
    destruct (IHl Hl) as [IHl' _]. destruct (IHr Hr) as [IHr' _].
    assert (Hplain : forall (fuel : nat) (rest : string) (can_start : bool)
                       (acc : list Token),
               (String.length (int_text w1 w2 (IOp o l r) ++ rest) <= fuel)%nat ->
               stops rest = true ->
               _tokenize_loop fuel (int_text w1 w2 (IOp o l r) ++ rest) can_start acc =
               _tokenize_loop fuel rest false (acc ++ int_tokens (IOp o l r))).
    { intros fuel rest cs acc Hlen Hst. cbn [int_text int_tokens] in *.
      rewrite !append_assoc in *.
      set (L := in_parens l (int_text w1 w2 l)) in *.
      set (R := in_parens r (int_text w1 w2 r)) in *.
      assert (H1 : (String.length (w1 ++ binop_text o ++ w2 ++ R ++ rest) <= fuel)%nat).
      { rewrite (length_app L) in Hlen. lia. }
      assert (H2 : (String.length (binop_text o ++ w2 ++ R ++ rest) <= fuel)%nat).
      { rewrite (length_app w1) in H1. lia. }
      assert (H3 : (String.length (w2 ++ R ++ rest) <= fuel)%nat).
      { rewrite (length_app (binop_text o)) in H2. lia. }
      assert (H4 : (String.length (R ++ rest) <= fuel)%nat).
      { rewrite (length_app w2) in H3. lia. }
      rewrite IHl' by (auto using stops_spaces, stops_operator).
      rewrite _tokenize_loop_spaces by assumption.
      rewrite _tokenize_loop_operator by exact H2.
      rewrite _tokenize_loop_spaces by assumption.
      rewrite IHr' by assumption.
      now rewrite <- !app_assoc. }
    split; [| exact Hplain].
    intros fuel rest cs acc Hlen Hst.
    cbn [in_parens paren_tokens] in *.
    rewrite !append_assoc in *. cbn [append] in *.
    assert (H1 : (String.length (int_text w1 w2 (IOp o l r) ++ String ")" rest)
                  <= fuel)%nat).
    { cbn [String.length] in Hlen. lia. }
    assert (H2 : (String.length (String ")" rest) <= fuel)%nat).
    { rewrite length_app in H1. lia. }
    rewrite _tokenize_loop_lparen by exact Hlen.
    rewrite Hplain by (auto).
    rewrite _tokenize_loop_rparen by exact H2.
    f_equal. rewrite <- !app_assoc. reflexivity.
Qed.

End IntTrees.

Lemma _convert_numbers_app (ctx : context) (a b : list Token) :
  _convert_numbers (a ++ b) ctx =
  (do x <- _convert_numbers a ctx;
   do y <- _convert_numbers b ctx;
   Ok (x ++ y)%list).
Proof.
  induction a as [| [kind value] a IH]; cbn [app _convert_numbers bind].
  - now destruct (_convert_numbers b ctx).
  - destruct (match kind with
              | number => _
              | _ => _
              end) as [tok | e]; cbn [bind]; [| reflexivity].
    rewrite IH. destruct (_convert_numbers a ctx) as [x | e]; cbn [bind]; [| reflexivity].
    destruct (_convert_numbers b ctx) as [y | e]; reflexivity.
Qed.

(** The tokens of a tree convert to the infix tokens of its Decimal
    tree. *)
Lemma _convert_numbers_tree (P : Z) (ctx : context) (e : int_tree) :
  int_tree_fits P e ->
  _convert_numbers (paren_tokens e (int_tokens e)) ctx =
    Ok (parenthesized (decimal_tree e) (infix (decimal_tree e))) /\
  _convert_numbers (int_tokens e) ctx = Ok (infix (decimal_tree e)).
Proof.
  induction e as [a | o l IHl r IHr]; intros Hfits; cbn [int_tree_fits] in Hfits.
  - assert (Hlit : _convert_numbers [(number, _int_to_base12 a)] ctx =
                   Ok [(number, TDecimal (of_int a))]).
    { cbn [_convert_numbers]. unfold _dozenal_number_to_decimal.
      pose proof (dozenal_to_decimal_int_string false a ctx ltac:(lia)) as Hv.
      cbn [append] in Hv. rewrite Hv. cbn [bind]. now rewrite Z.mul_1_l. }
    split; exact Hlit.
  - destruct Hfits as (_ & Hl & Hr & _).
    destruct (IHl Hl) as [IHl' _]. destruct (IHr Hr) as [IHr' _].
    assert (Hplain : _convert_numbers (int_tokens (IOp o l r)) ctx =
                     Ok (infix (decimal_tree (IOp o l r)))).
    { cbn [int_tokens decimal_tree infix].
      rewrite _convert_numbers_app, IHl'. cbn [bind].
      rewrite _convert_numbers_app. cbn [_convert_numbers bind].
      rewrite IHr'. reflexivity. }
    split; [| exact Hplain].
    cbn [paren_tokens]. change ((lparen, "(") :: int_tokens (IOp o l r) ++ [(rparen, ")")])%list
      with ([(lparen, "(")] ++ int_tokens (IOp o l r) ++ [(rparen, ")")])%list.
    rewrite _convert_numbers_app. cbn [_convert_numbers bind].
    rewrite _convert_numbers_app, Hplain. cbn [_convert_numbers bind]. reflexivity.
Qed.

Section WholeArithmetic.

Variable p : Z.
Hypothesis Hp : 1 <= p.

Lemma whole_make (d : Decimal) (n : Z) :
  whole d n -> d = make (dsign d) (Z.abs n) 0.
Proof. intros (He & Hc & _). rewrite (make_coeff d) at 1. now rewrite He, Hc. Qed.

Lemma whole_of_int (n : Z) : whole (of_int n) n.
Proof.
  unfold whole, of_int. rewrite dexp_make, dsign_make, coeff_make by lia. auto.
Qed.

Lemma whole_scaled (d : Decimal) (n : Z) :
  whole d n -> scaled d 0 = n /\ is_zero d = (n =? 0).
Proof.
  intros (He & Hc & Hs). unfold scaled, is_zero. rewrite He, Hc.
  change (10 ^ (0 - 0)) with 1. split.
  - destruct (Z.eq_dec n 0) as [-> | Hn]; [destruct (dsign d); reflexivity |].
    rewrite (Hs Hn). destruct (Z.ltb_spec n 0); lia.
  - destruct (Z.eqb_spec (Z.abs n) 0), (Z.eqb_spec n 0); lia || reflexivity.
Qed.

Lemma whole_fix (s : bool) (n : Z) :
  Z.abs n < 10 ^ p -> (n <> 0 -> s = (n <? 0)) ->
  whole (_fix p (make s (Z.abs n) 0)) n.
Proof.
  intros Hn Hs. rewrite (_fix_make_exact p Hp) by lia.
  unfold whole. rewrite dexp_make, dsign_make, coeff_make by lia. auto.
Qed.

(** The sum of two whole Decimals that fit, like their sum, is the whole
    sum. *)
Lemma add_whole (x y : Decimal) (a b : Z) :
  whole x a -> whole y b ->
  Z.abs a < 10 ^ p -> Z.abs b < 10 ^ p -> Z.abs (a + b) < 10 ^ p ->
  whole (add p x y) (a + b).
Proof.
  intros Hx Hy Ha Hb Hab.
  destruct (whole_scaled x a Hx) as [Hsx Hzx].
  destruct (whole_scaled y b Hy) as [Hsy Hzy].
  pose proof Hx as (Hex & Hcx & Hsgx). pose proof Hy as (Hey & Hcy & Hsgy).
  unfold add. rewrite Hex, Hey, Hzx, Hzy.
  change (Z.min 0 0) with 0.
  replace (Z.max 0 (0 - p - 1)) with 0 by lia.
  destruct (Z.eqb_spec a 0) as [-> | Hna], (Z.eqb_spec b 0) as [-> | Hnb]; cbn [andb].
  - apply (whole_fix _ 0); [exact Hab | congruence].
  - unfold rescale_pad. rewrite Hzy.
    destruct (Z.eqb_spec b 0) as [E | _]; [contradiction |].
    rewrite Hey, Hcy. change (10 ^ (0 - 0)) with 1. rewrite Z.mul_1_r.
    apply (whole_fix (dsign y) (0 + b)); [exact Hab | intros _; now apply Hsgy].
  - unfold rescale_pad. rewrite Hzx.
    destruct (Z.eqb_spec a 0) as [E | _]; [contradiction |].
    rewrite Hex, Hcx. change (10 ^ (0 - 0)) with 1. rewrite Z.mul_1_r.
    rewrite Z.add_0_r in *.
    apply (whole_fix (dsign x) a); [exact Hab | intros _; now apply Hsgx].
  - rewrite Hsx, Hsy.
    destruct (Z.eqb_spec (a + b) 0) as [E | Hne].
    + rewrite E. apply (whole_fix false 0); [lia | congruence].
    + apply (whole_fix (a + b <? 0) (a + b)); auto.
Qed.

Lemma whole_negate (y : Decimal) (b : Z) : whole y b -> whole (copy_negate y) (- b).
Proof.
  intros (He & Hc & Hs). unfold whole, copy_negate, coeff in *. cbn [dexp dint dsign].
  repeat split; [exact He | rewrite Hc; lia |].
  intros Hb. rewrite (Hs ltac:(lia)).
  destruct (Z.ltb_spec b 0), (Z.ltb_spec (- b) 0); lia || reflexivity.
Qed.

Lemma mul_whole (x y : Decimal) (a b : Z) :
  whole x a -> whole y b -> Z.abs (a * b) < 10 ^ p ->
  whole (mul p x y) (a * b).
Proof.
  intros (Hex & Hcx & Hsx) (Hey & Hcy & Hsy) Hab.
  unfold mul. rewrite Hex, Hey, Hcx, Hcy. cbn [Z.add].
  rewrite <- Z.abs_mul. apply whole_fix; [exact Hab |].
  intros Hne. rewrite (Hsx ltac:(nia)), (Hsy ltac:(nia)).
  destruct (Z.ltb_spec a 0), (Z.ltb_spec b 0), (Z.ltb_spec (a * b) 0);
    cbn [xorb]; nia || reflexivity.
Qed.

(** [+], [-] and [*] on whole Decimals that fit, like the result, are
    the integer operations. *)
Lemma apply_operator_whole (o : binop) (x y : Decimal) (a b : Z) :
  o <> Divide -> whole x a -> whole y b ->
  Z.abs a < 10 ^ p -> Z.abs b < 10 ^ p -> Z.abs (binop_int o a b) < 10 ^ p ->
  exists d : Decimal,
    apply_operator p (binop_text o) x y = Ok d /\ whole d (binop_int o a b).
Proof.
  intros Ho Hx Hy Ha Hb Hr. unfold apply_operator.
  destruct o; cbn [binop_text binop_int] in *; try contradiction.
  - eexists. split; [reflexivity |]. now apply add_whole.
  - eexists. split; [reflexivity |]. unfold sub.
    apply (add_whole x (copy_negate y) a (- b)); auto using whole_negate; lia.
  - eexists. split; [reflexivity |]. now apply mul_whole.
Qed.

(** The Decimal tree of an integer tree that fits evaluates to its
    integer value. *)
Lemma eval_tree (e : int_tree) :
  int_tree_fits p e ->
  exists d : Decimal, eval p (decimal_tree e) = Ok d /\ whole d (int_value e).
Proof.
  induction e as [a | o l IHl r IHr]; intros Hfits; cbn [int_tree_fits] in Hfits.
  - exists (of_int a). split; [reflexivity | apply whole_of_int].
  - destruct Hfits as (Ho & Hl & Hr & Hres).
    destruct (IHl Hl) as (x & Ex & Hx). destruct (IHr Hr) as (y & Ey & Hy).
    cbn [decimal_tree eval int_value]. rewrite Ex, Ey. cbn [bind].
    apply apply_operator_whole; auto using int_tree_fits_value.
Qed.

End WholeArithmetic.

(** The rendering of a whole Decimal that fits the working precision is
    the rendering of the int. *)
Lemma decimal_to_dozenal_whole (d : Decimal) (r frac_precision : Z) (ctx : context) :
  whole d r -> Z.abs r < 10 ^ Z.max 28 (frac_precision * 3) ->
  decimal_to_dozenal (PyDec d) frac_precision ctx =
  (Ok ((if r <? 0 then "-" else "") ++ _int_to_base12 (Z.abs r)),
   mkContext (Z.max 28 (frac_precision * 3))).
Proof.
  intros (He & Hc & Hs) Hr. set (P := Z.max 28 (frac_precision * 3)) in *.
  rewrite decimal_to_dozenal_exact.
  2: { split; [rewrite Hc, He | rewrite He; lia].
       change (10 ^ Z.max 0 0) with 1. fold P. lia. }
  fold P. f_equal. f_equal. unfold render_spec.
  assert (Hf : Qeq_bool (fraction_of d) (inject_Z 0) = true).
  { apply Qeq_bool_iff. pose proof (fraction_of_scaled d) as H.
    rewrite He in H. exact H. }
  rewrite Hf, orb_true_r, append_nil_r.
  rewrite integer_part_of_scaled, He.
  change (0 <=? 0) with true. cbv iota. rewrite Hc, Z.pow_0_r, Z.mul_1_r.
  f_equal. unfold sign_text, is_zero. rewrite Hc.
  destruct (Z.eqb_spec (Z.abs r) 0) as [E | Hne].
  - rewrite andb_false_r. destruct (Z.ltb_spec r 0); [lia | reflexivity].
  - rewrite andb_true_r, (Hs ltac:(lia)). reflexivity.
Qed.


Lemma last_char (f : ascii -> bool) (s : string) :
  s <> "" -> all_chars f s = true ->
  exists (x : string) (c : ascii), s = x ++ str1 c /\ f c = true.
Proof.
  induction s as [| a s IH]; intros Hne Hall; [contradiction |].
  cbn [all_chars] in Hall. apply andb_true_iff in Hall as [Ha Hs].
  destruct s as [| b s'].
  - exists "", a. auto.
  - destruct (IH ltac:(discriminate) Hs) as (x & c & E & Hc).
    exists (String a x), c. cbn [append]. now rewrite <- E.
Qed.

Section IntText.

Variables w1 w2 : string.
Hypothesis Hw1 : all_chars PyStr.isspace w1 = true.
Hypothesis Hw2 : all_chars PyStr.isspace w2 = true.
Variable P : Z.

Lemma int_text_upper (e : int_tree) :
  int_tree_fits P e ->
  all_chars (fun c => Ascii.eqb (PyStr.upper_char c) c)
    (in_parens e (int_text w1 w2 e)) = true /\
  all_chars (fun c => Ascii.eqb (PyStr.upper_char c) c) (int_text w1 w2 e) = true.
Proof.
  assert (Hws : forall w, all_chars PyStr.isspace w = true ->
                  all_chars (fun c => Ascii.eqb (PyStr.upper_char c) c) w = true).
  { intros w. apply all_chars_impl. intros c Hc.
    destruct (space_is_no_digit c Hc) as (_ & _ & ->). apply Ascii.eqb_refl. }
  induction e as [a | o l IHl r IHr]; intros Hfits; cbn [int_tree_fits] in Hfits.
  - assert (Hlit : all_chars (fun c => Ascii.eqb (PyStr.upper_char c) c)
                     (_int_to_base12 a) = true).
    { destruct (canonical_shape _ (_int_to_base12_canonical a ltac:(lia))) as (Ha & _).
      revert Ha. apply all_chars_impl. intros c Hc.
      destruct (allowed_digit_props c Hc) as (_ & -> & _). apply Ascii.eqb_refl. }
    split; exact Hlit.
  - destruct Hfits as (_ & Hl & Hr & _).
    destruct (IHl Hl) as [IHl' _]. destruct (IHr Hr) as [IHr' _].
    assert (Hplain : all_chars (fun c => Ascii.eqb (PyStr.upper_char c) c)
                       (int_text w1 w2 (IOp o l r)) = true).
    { cbn [int_text]. rewrite !all_chars_app, IHl', IHr', (Hws w1 Hw1), (Hws w2 Hw2).
      destruct o; reflexivity. }
    split; [| exact Hplain].
    cbn [in_parens]. rewrite !all_chars_app, Hplain. reflexivity.
Qed.

Lemma int_text_ends (e : int_tree) :
  int_tree_fits P e ->
  ((exists (c : ascii) (s : string),
      in_parens e (int_text w1 w2 e) = String c s /\ PyStr.isspace c = false) /\
   (exists (x : string) (c : ascii),
      in_parens e (int_text w1 w2 e) = x ++ str1 c /\ PyStr.isspace c = false)) /\
  ((exists (c : ascii) (s : string),
      int_text w1 w2 e = String c s /\ PyStr.isspace c = false) /\
   (exists (x : string) (c : ascii),
      int_text w1 w2 e = x ++ str1 c /\ PyStr.isspace c = false)).
Proof.
  induction e as [a | o l IHl r IHr]; intros Hfits; cbn [int_tree_fits] in Hfits.
  - assert (Hlit : (exists (c : ascii) (s : string),
                      _int_to_base12 a = String c s /\ PyStr.isspace c = false) /\
                   (exists (x : string) (c : ascii),
                      _int_to_base12 a = x ++ str1 c /\ PyStr.isspace c = false)).
    { pose proof (_int_to_base12_canonical a ltac:(lia)) as Hcan.
      destruct (canonical_shape _ Hcan) as (Ha & Hne).
      assert (Hsp : all_chars (fun c => negb (PyStr.isspace c)) (_int_to_base12 a) = true).
      { revert Ha. apply all_chars_impl. intros c Hc.
        now destruct (allowed_digit_props c Hc) as (-> & _). }
      split.
      - destruct (_int_to_base12 a) as [| c s]; [contradiction |].
        cbn [all_chars] in Hsp. apply andb_true_iff in Hsp as [Hc _].
        exists c, s. split; [reflexivity | now apply negb_true_iff].
      - destruct (last_char _ _ Hne Hsp) as (x & c & E & Hc).
        exists x, c. split; [exact E | now apply negb_true_iff]. }
    split; exact Hlit.
  - destruct Hfits as (_ & Hl & Hr & _).
    destruct (IHl Hl) as [[(cl & sl & El & Hcl) _] _].
    destruct (IHr Hr) as [[_ (xr & cr & Er & Hcr)] _].
    split.
    + split.
      * exists "("%char, (int_text w1 w2 (IOp o l r) ++ ")"). split; reflexivity.
      * exists (String "(" (int_text w1 w2 (IOp o l r))), ")"%char. split; reflexivity.
    + cbn [int_text]. split.
      * rewrite El. cbn [append]. eauto.
      * rewrite Er. exists (in_parens l (int_text w1 w2 l) ++ w1 ++ binop_text o ++ w2 ++ xr), cr.
        split; [now rewrite !append_assoc | exact Hcr].
Qed.

Lemma int_text_fixed (e : int_tree) :
  int_tree_fits P e ->
  PyStr.upper (PyStr.strip (int_text w1 w2 e)) = int_text w1 w2 e /\
  String.eqb (int_text w1 w2 e) "" = false.
Proof.
  intros Hfits.
  destruct (int_text_ends e Hfits) as [_ [(c & s & Es & Hc) (x & c' & Ex & Hc')]].
  destruct (int_text_upper e Hfits) as [_ Hup].
  split; [| rewrite Es; reflexivity].
  assert (Hstrip : PyStr.strip (int_text w1 w2 e) = int_text w1 w2 e).
  { unfold PyStr.strip. rewrite Es at 1. cbn [PyStr.lstrip]. rewrite Hc, <- Es, Ex.
    apply rstrip_app_nonspace; [discriminate |].
    cbn [str1 all_chars]. now rewrite Hc'. }
  rewrite Hstrip. now apply upper_id.
Qed.

End IntText.

Lemma calculate_tree (e : int_tree) (w1 w2 : string) (frac_precision : Z)
    (ctx : context) :
  0 <= frac_precision ->
  all_chars PyStr.isspace w1 = true -> all_chars PyStr.isspace w2 = true ->
  int_tree_fits (Z.max 28 (frac_precision * 3)) e ->
  exists d : Decimal,
    calculate (int_text w1 w2 e) frac_precision ctx =
      (Ok (mkCalculatorResult d
             ((if int_value e <? 0 then "-" else "") ++
              _int_to_base12 (Z.abs (int_value e)))),
       mkContext (Z.max 28 (frac_precision * 3))) /\
    whole d (int_value e).
Proof.
  intros Hfp Hw1 Hw2 Hfits.
  set (P := Z.max 28 (frac_precision * 3)) in *.
  assert (HP : 1 <= P) by lia.
  destruct (int_text_fixed w1 w2 Hw1 Hw2 P e Hfits) as [Hfix Hne].
  destruct (eval_tree P HP e Hfits) as (d & Ed & Hd).
  exists d. split; [| exact Hd].
  unfold calculate. rewrite Hfix, Hne.
  destruct (Z.ltb_spec frac_precision 0) as [Hneg | _]; [lia |].
  fold P. f_equal.
  assert (Htok : _tokenize (int_text w1 w2 e) = Ok (int_tokens e)).
  { unfold _tokenize.
    destruct (_tokenize_loop_tree w1 w2 Hw1 Hw2 P e Hfits) as [_ Hplain].
    rewrite <- (append_nil_r (int_text w1 w2 e)) at 2.
    rewrite Hplain; [apply _tokenize_loop_nil | rewrite append_nil_r; lia | reflexivity]. }
  rewrite Htok. cbn [bind].
  destruct (_convert_numbers_tree P (mkContext P) e Hfits) as [_ Hconv].
  rewrite Hconv. cbn [bind].
  rewrite _to_postfix_tree. cbn [bind].
  unfold _evaluate_postfix. rewrite _evaluate_postfix_loop_tree.
  cbn [prec]. rewrite Ed. cbn [bind].
  rewrite (decimal_to_dozenal_whole d (int_value e) frac_precision (mkContext P) Hd
             (int_tree_fits_value P e Hfits)).
  reflexivity.
Qed.

(** X17. Integer arithmetic, end to end.  Take an expression tree over
    non-negative int literals and the operators [+], [-], [*], in which
    every literal and every intermediate result is below [10^P] in
    magnitude, [P = max(28, 3 * frac_precision)].  Written with base-12
    numerals, compound operands between parentheses and any white space
    around the operators, it is evaluated by [calculate] to the exact
    integer value of the tree: the [decimal] field is that int as a
    Decimal of exponent 0, the [dozenal] field is what
    [decimal_to_dozenal] returns for the int, and [dozenal_to_decimal]
    reads it back as the int. *)
Theorem X17_integer_arithmetic (e : int_tree) (w1 w2 : string) (frac_precision : Z)
    (ctx ctx' : context) :
  0 <= frac_precision ->
  all_chars PyStr.isspace w1 = true -> all_chars PyStr.isspace w2 = true ->
  int_tree_fits (Z.max 28 (frac_precision * 3)) e ->
  exists (d : Decimal) (text : string),
    calculate (int_text w1 w2 e) frac_precision ctx =
      (Ok (mkCalculatorResult d text), mkContext (Z.max 28 (frac_precision * 3))) /\
    whole d (int_value e) /\
    fst (decimal_to_dozenal (PyInt (int_value e)) frac_precision ctx) = Ok text /\
    dozenal_to_decimal text ctx' = Ok (IntValue (int_value e)).
Proof.
  intros Hfp Hw1 Hw2 Hfits.
  destruct (calculate_tree e w1 w2 frac_precision ctx Hfp Hw1 Hw2 Hfits) as (d & Hc & Hd).
  exists d, ((if int_value e <? 0 then "-" else "") ++
             _int_to_base12 (Z.abs (int_value e))).
  split; [exact Hc |]. split; [exact Hd |]. split; [reflexivity |].
  rewrite dozenal_to_decimal_int_string by lia.
  do 2 f_equal. destruct (Z.ltb_spec (int_value e) 0); lia.
Qed.

Lemma X17_integer_arithmetic_witness :
  exists (d : Decimal) (text : string),
    calculate (int_text " " " " (IOp Times (IOp Minus (ILit 3) (ILit 17)) (ILit 7)))
      12 DefaultContext =
      (Ok (mkCalculatorResult d text), mkContext (Z.max 28 (12 * 3))) /\
    whole d (int_value (IOp Times (IOp Minus (ILit 3) (ILit 17)) (ILit 7))) /\
    fst (decimal_to_dozenal
           (PyInt (int_value (IOp Times (IOp Minus (ILit 3) (ILit 17)) (ILit 7))))
           12 DefaultContext) = Ok text /\
    dozenal_to_decimal text DefaultContext =
      Ok (IntValue (int_value (IOp Times (IOp Minus (ILit 3) (ILit 17)) (ILit 7)))).
Proof.
  apply (X17_integer_arithmetic (IOp Times (IOp Minus (ILit 3) (ILit 17)) (ILit 7))
           " " " " 12 DefaultContext DefaultContext).
  - lia.
  - reflexivity.
  - reflexivity.
  - cbn [int_tree_fits int_value binop_int].
    repeat split; try discriminate; vm_compute; congruence.
Defined.

(** ** The value of the fractional digits *)




(** ** Number literals *)

Lemma span_digits_maximal (s : string) :
  starts_with_digit (snd (span_digits s)) = false.
Proof.
  induction s as [| c s IH]; [reflexivity |]. cbn [span_digits].
  destruct (_ALLOWED_DIGITS c) eqn:Hc.
  - destruct (span_digits s) as [ds rest]. exact IH.
  - cbn [snd starts_with_digit]. exact Hc.
Qed.

Lemma span_digits_none (s : string) :
  fst (span_digits s) = "" -> snd (span_digits s) = s.
Proof.
  destruct s as [| c s]; [reflexivity |]. cbn [span_digits].
  destruct (_ALLOWED_DIGITS c); [| reflexivity].
  destruct (span_digits s). discriminate.
Qed.

Lemma span_digits_some (s : string) :
  fst (span_digits s) <> "" -> starts_with_digit s = true.
Proof.
  destruct s as [| c s]; [intros H; now contradiction H |]. cbn [span_digits starts_with_digit].
  destruct (_ALLOWED_DIGITS c); [reflexivity |]. intros H. now contradiction H.
Qed.

Lemma _parse_number_tail (s : string) :
  match _parse_number s with
  | Ok (tok, rest) =>
      starts_with_digit rest = false /\
      (count_char "." tok = 0 -> forall r : string, rest <> String "." r) /\
      (starts_with_digit (unsigned s) = true \/
       exists u : string, unsigned s = String "." u /\ starts_with_digit u = true)
  | Error e =>
      (s = "" /\ e = IndexError_string_index) \/
      (s <> "" /\ e = ValueError_invalid_number /\
       starts_with_digit (unsigned s) = false /\
       (forall u : string, unsigned s = String "." u -> starts_with_digit u = false))
  end.
Proof.
  assert (Hbody : forall sign s1 : string,
    match (let '(int_digits, s2) := span_digits s1 in
           let digits_seen := negb (String.eqb int_digits "") in
           let '(frac, s3, digits_seen) :=
             match s2 with
             | String ch s2' =>
                 if Ascii.eqb ch "." then
                   let '(frac_digits, s3) := span_digits s2' in
                   let fractional_seen := negb (String.eqb frac_digits "") in
                   ("." ++ frac_digits, s3, digits_seen || fractional_seen)
                 else (EmptyString, s2, digits_seen)
             | EmptyString => (EmptyString, s2, digits_seen)
             end in
           if negb digits_seen then Error ValueError_invalid_number
           else Ok (sign ++ int_digits ++ frac, s3)) with
    | Ok (tok, rest) =>
        starts_with_digit rest = false /\
        (count_char "." tok = 0 -> forall r : string, rest <> String "." r) /\
        (starts_with_digit s1 = true \/
         exists u : string, s1 = String "." u /\ starts_with_digit u = true)
    | Error e =>
        e = ValueError_invalid_number /\
        starts_with_digit s1 = false /\
        (forall u : string, s1 = String "." u -> starts_with_digit u = false)
    end).
  { intros sign s1.
    pose proof (span_digits_maximal s1) as Hmax.
    pose proof (span_digits_none s1) as Hnone.
    pose proof (span_digits_some s1) as Hsome.
    destruct (span_digits s1) as [ds s2]. cbn [fst snd] in Hmax, Hnone, Hsome. cbv zeta.
    destruct s2 as [| ch s2'].
    - destruct (String.eqb_spec ds "") as [-> | Hne]; cbn [negb].
      + rewrite <- (Hnone eq_refl). repeat split; auto. intros u Hu. discriminate Hu.
      + split; [reflexivity |]. split; [intros _ r Hr; discriminate Hr | auto].
    - destruct (Ascii.eqb_spec ch ".") as [-> | Hch].
      + pose proof (span_digits_maximal s2') as Hmax'.
        pose proof (span_digits_none s2') as Hnone'.
        pose proof (span_digits_some s2') as Hsome'.
        destruct (span_digits s2') as [fd s3]. cbn [fst snd] in Hmax', Hnone', Hsome'.
        destruct (negb (String.eqb ds "" ) || negb (String.eqb fd "")) eqn:Hseen;
          cbn [negb].
        * split; [exact Hmax' |]. split.
          -- intros Hcount.
             rewrite !count_char_app in Hcount. cbn [append count_char] in Hcount.
             change (Ascii.eqb "." ".") with true in Hcount.
             pose proof (count_char_nonneg "." sign). pose proof (count_char_nonneg "." ds).
             pose proof (count_char_nonneg "." fd). lia.
          -- destruct (String.eqb_spec ds "") as [-> | Hne]; [| auto].
             destruct (String.eqb_spec fd "") as [-> | Hne']; [discriminate Hseen |].
             right. exists s2'. rewrite <- (Hnone eq_refl). auto.
        * apply orb_false_iff in Hseen as [Hds Hfd].
          apply negb_false_iff in Hds, Hfd.
          apply String.eqb_eq in Hds, Hfd. subst ds fd.
          rewrite <- (Hnone eq_refl). repeat split; auto.
          intros u Hu. injection Hu as <-. rewrite <- (Hnone' eq_refl). exact Hmax'.
      + destruct (String.eqb_spec ds "") as [-> | Hne]; cbn [negb].
        * rewrite <- (Hnone eq_refl). repeat split; auto.
          intros u Hu. injection Hu as Hu _. congruence.
        * split; [exact Hmax |].
          split; [intros _ r Hr; injection Hr as Hr _; congruence | auto]. }
  assert (Hwrap : forall (s s1 : string) (r : result (string * string)),
    s <> "" ->
    match r with
    | Ok (tok, rest) =>
        starts_with_digit rest = false /\
        (count_char "." tok = 0 -> forall r : string, rest <> String "." r) /\
        (starts_with_digit s1 = true \/
         exists u : string, s1 = String "." u /\ starts_with_digit u = true)
    | Error e =>
        e = ValueError_invalid_number /\
        starts_with_digit s1 = false /\
        (forall u : string, s1 = String "." u -> starts_with_digit u = false)
    end ->
    match r with
    | Ok (tok, rest) =>
        starts_with_digit rest = false /\
        (count_char "." tok = 0 -> forall r : string, rest <> String "." r) /\
        (starts_with_digit s1 = true \/
         exists u : string, s1 = String "." u /\ starts_with_digit u = true)
    | Error e =>
        (s = "" /\ e = IndexError_string_index) \/
        (s <> "" /\ e = ValueError_invalid_number /\
         starts_with_digit s1 = false /\
         (forall u : string, s1 = String "." u -> starts_with_digit u = false))
    end).
  { intros s0 s1 [[tok rest] | e] Hne H; [exact H | right; split; [exact Hne | exact H]]. }
  unfold _parse_number, unsigned. destruct s as [| ch s'].
  - left. split; reflexivity.
  - destruct (PyStr.contains "+-" ch).
    + apply Hwrap; [discriminate | exact (Hbody (str1 ch) s')].
    + apply Hwrap; [discriminate | exact (Hbody "" (String ch s'))].
Qed.

(** X19. [_parse_number] takes the longest literal: when it returns a
    literal and the rest of the text, the text is the literal followed by
    the rest, the literal is an optional sign and digits with at most one
    point and at least one digit, the rest does not begin with a digit,
    and it begins with a point only if the literal already holds one (so
    ["1.2.3"] is cut after ["1.2"]).  It returns when what follows the
    optional sign begins with a digit, or with a point and a digit.  On
    the empty text it raises IndexError (the first character is read
    before any test), and on every other text it raises the
    invalid-number ValueError. *)
Theorem X19_longest_literal (s : string) :
  match _parse_number s with
  | Ok (tok, rest) =>
      s = tok ++ rest /\ number_text tok /\
      starts_with_digit rest = false /\
      (count_char "." tok = 0 -> forall r : string, rest <> String "." r) /\
      (starts_with_digit (unsigned s) = true \/
       exists u : string, unsigned s = String "." u /\ starts_with_digit u = true)
  | Error e =>
      (s = "" /\ e = IndexError_string_index) \/
      (s <> "" /\ e = ValueError_invalid_number /\
       starts_with_digit (unsigned s) = false /\
       (forall u : string, unsigned s = String "." u -> starts_with_digit u = false))
  end.
Proof.
  pose proof (_parse_number_tail s) as Ht.
  destruct (_parse_number s) as [[tok rest] | e] eqn:E; [| exact Ht].
  destruct (_parse_number_spec _ _ _ E) as (Hn & Hs & _).
  destruct Ht as (H1 & H2 & H3). auto.
Qed.

(** * Exact quotients, exact decoding and zeros at the end of a coefficient *)

(** ** Zeros at the end of a coefficient *)

Section TrailingZeros.

Variable p : Z.
Hypothesis Hp : 1 <= p.


End TrailingZeros.


Section LoopZeros.

Variable p : Z.
Hypothesis Hp : 1 <= p.
Variable k : Z.
Hypothesis Hk : 1 <= k.
Hypothesis Hguard : 12 * 10 ^ k <= 10 ^ p.


End LoopZeros.









(** ** Exact quotients and sums *)

(** The loop of [__truediv__] removes the [t] zeros that end the
    coefficient [c0 * 10^t], up to the ideal exponent. *)
Lemma strip_zeros_spec (t : nat) :
  forall (fuel : nat) (c0 exp ideal : Z),
    0 < c0 -> (t <= fuel)%nat -> exp + Z.of_nat t <= ideal ->
    c0 mod 10 <> 0 \/ exp + Z.of_nat t = ideal ->
    strip_zeros fuel (c0 * 10 ^ Z.of_nat t) exp ideal = (c0, exp + Z.of_nat t).
Proof.
  induction t as [| t IH]; intros fuel c0 exp ideal Hc Hfuel Hle Hstop.
  - change (Z.of_nat 0) with 0 in *. rewrite Z.pow_0_r, Z.mul_1_r, Z.add_0_r in *.
    destruct fuel as [| fuel]; [reflexivity |].
    cbn [strip_zeros].
    destruct Hstop as [Hm | He].
    + destruct (Z.eqb_spec (c0 mod 10) 0) as [Habs | _]; [contradiction |].
      now rewrite andb_false_r.
    + destruct (Z.ltb_spec exp ideal) as [Habs | _]; [lia | reflexivity].
  - destruct fuel as [| fuel]; [lia |].
    cbn [strip_zeros].
    assert (Hs : c0 * 10 ^ Z.of_nat (S t) = c0 * 10 ^ Z.of_nat t * 10).
    { rewrite Nat2Z.inj_succ, Z.pow_succ_r by lia. lia. }
    rewrite Hs, Z.mod_mul, Z.div_mul by lia.
    destruct (Z.ltb_spec exp ideal) as [_ | Habs]; [| lia].
    change (0 =? 0) with true. cbn [andb].
    rewrite IH; try lia.
    f_equal. lia.
Qed.

Section ExactQuotient.

Variable p : Z.
Hypothesis Hp : 1 <= p.

(** The quotient of two ints that is the decimal [m / 10^k], written
    without a final zero and with at most [p] digits, is exact. *)
Lemma truediv_exact (s : bool) (n d m k : Z) :
  0 < n -> 0 < d -> 0 <= k -> n * 10 ^ k = m * d -> m < 10 ^ p ->
  m mod 10 <> 0 \/ k = 0 ->
  truediv p (make s n 0) (make false d 0) = Ok (make s m (- k)).
Proof.
  intros Hn Hd Hk Heq Hm Hnorm.
  pose proof (pow10_pos k Hk) as Hpk.
  assert (Hm0 : 0 < m) by nia.
  unfold truediv. rewrite !dsign_make, !is_zero_make, !coeff_make, !dexp_make by lia.
  rewrite xorb_false_r.
  destruct (Z.eqb_spec d 0) as [Habs | _]; [lia |].
  destruct (Z.eqb_spec n 0) as [Habs | _]; [lia |].
  destruct (ndigits_spec n Hn) as (Hn1 & Hnlo & Hnhi).
  destruct (ndigits_spec d Hd) as (Hd1 & Hdlo & Hdhi).
  set (shift := ndigits d - ndigits n + p + 1).
  assert (Hshift : k < shift).
  { assert (H : 10 ^ (ndigits n - 1 + k) < 10 ^ (p + ndigits d)).
    { rewrite !Z.pow_add_r by lia.
      pose proof (pow10_pos p ltac:(lia)). nia. }
    apply (Z.pow_lt_mono_r_iff 10) in H; subst shift; lia. }
  destruct (Z.leb_spec 0 shift) as [_ | Habs]; [| lia].
  pose proof (pow10_pos (shift - k) ltac:(lia)) as Hps.
  assert (Hsplit : n * 10 ^ shift = m * 10 ^ (shift - k) * d).
  { replace shift with (k + (shift - k)) at 1 by lia.
    rewrite Z.pow_add_r by lia. nia. }
  rewrite Hsplit, Z.mod_mul, Z.div_mul by lia.
  change (0 =? 0) with true. cbn [negb].
  replace (0 - 0 - (0 - 0 - shift)) with shift by lia.
  replace (0 - 0 - shift) with (- shift) by lia.
  replace (shift - k) with (Z.of_nat (Z.to_nat (shift - k))) by lia.
  rewrite (strip_zeros_spec (Z.to_nat (shift - k))); try lia.
  rewrite Z2Nat.id by lia. replace (- shift + (shift - k)) with (- k) by lia.
  f_equal. apply _fix_make_exact; [exact Hp | lia].
Qed.


End ExactQuotient.

(** ** Decoding a text with a point *)




Section ExactDigits.

Variable p : Z.
Hypothesis Hp : 5 <= p.






End ExactDigits.

(** ** Expansions that terminate *)







(** ** Texts that decode exactly *)



(** ** Floats whose fraction is a finite decimal *)

(** A float is rendered as the Decimal quotient of its fraction. *)
Lemma decimal_to_dozenal_float (f : PyFloat.float) (dec : Decimal)
    (frac_precision : Z) (ctx : context) :
  let frac := PyFraction.limit_denominator (PyFraction.of_float f) (10 ^ 9) in
  truediv (Z.max 28 (frac_precision * 3))
    (of_int (PyFraction.numerator frac)) (of_int (PyFraction.denominator frac)) = Ok dec ->
  decimal_to_dozenal (PyFloat f) frac_precision ctx =
  decimal_to_dozenal (PyDec dec) frac_precision ctx.
Proof.
  intros frac Hdiv. unfold decimal_to_dozenal. cbn [prec].
  fold frac. rewrite Hdiv. reflexivity.
Qed.

(** A float whose bounded-denominator fraction [n / d] is the decimal
    [m / 10^k], within the working precision, is rendered exactly. *)
Lemma decimal_to_dozenal_float_exact (f : PyFloat.float) (n d m k frac_precision : Z)
    (ctx : context) :
  PyFraction.limit_denominator (PyFraction.of_float f) (10 ^ 9) =
    PyFraction.mkFraction n d ->
  0 < d -> 0 <= k <= Z.max 28 (frac_precision * 3) - 2 ->
  Z.abs n * 10 ^ k = m * d -> m < 10 ^ Z.max 28 (frac_precision * 3) ->
  m mod 10 <> 0 \/ k = 0 ->
  decimal_to_dozenal (PyFloat f) frac_precision ctx =
    (Ok (render_spec (make (n <? 0) m (- k)) frac_precision),
     mkContext (Z.max 28 (frac_precision * 3))) /\
  Qeq (magnitude (make (n <? 0) m (- k))) (Qmake (Z.abs n) (Z.to_pos d)).
Proof.
  intros Hlim Hd Hk Heq Hm Hnorm.
  set (P := Z.max 28 (frac_precision * 3)) in *.
  pose proof (pow10_pos k ltac:(lia)) as Hpk.
  assert (Hm0 : 0 <= m) by nia.
  assert (Hdiv : truediv P (of_int n) (of_int d) = Ok (make (n <? 0) m (- k))).
  { rewrite (of_int_nonneg d) by lia. unfold of_int at 1.
    destruct (Z.eq_dec n 0) as [-> | Hn].
    - assert (m = 0) by nia. subst m.
      assert (k = 0) by (destruct Hnorm as [H | H]; [now contradiction H | exact H]).
      subst k. unfold truediv. rewrite !is_zero_make by lia.
      destruct (Z.eqb_spec d 0) as [Habs | _]; [lia |]. reflexivity.
    - apply truediv_exact; try lia. }
  split.
  - rewrite (decimal_to_dozenal_float f (make (n <? 0) m (- k)) frac_precision ctx).
    + apply decimal_to_dozenal_exact. fold P. split.
      * rewrite coeff_make, dexp_make by lia.
        rewrite Z.max_l, Z.pow_0_r by lia. lia.
      * rewrite dexp_make. lia.
    + cbv zeta. rewrite Hlim. cbn [PyFraction.numerator PyFraction.denominator].
      exact Hdiv.
  - unfold magnitude. rewrite coeff_make, dexp_make by lia.
    destruct (Z.leb_spec 0 (- k)) as [H0 | H0].
    + assert (k = 0) by lia. subst k. rewrite Z.pow_0_r, Z.mul_1_r in *.
      unfold Qeq, inject_Z. cbn [Qnum Qden].
      rewrite Z2Pos.id by lia. lia.
    + unfold Qeq. cbn [Qnum Qden].
      rewrite !Z2Pos.id by (try lia; apply pow10_pos; lia).
      replace (- - k) with k by lia. lia.
Qed.

(** [as_integer_ratio] is in lowest terms: over a denominator [2^j]
    with [j >= 1] the numerator is odd. *)
Lemma as_integer_ratio_odd (f : PyFloat.float) (n j : Z) :
  PyFloat.as_integer_ratio f = (n, 2 ^ j) -> 0 <= j -> Z.odd n = true \/ j = 0.
Proof.
  intros H Hj.
  destruct (Z.eq_dec j 0) as [-> | Hj0]; [now right | left].
  assert (Hg : Z.gcd n (2 ^ j) = 1).
  { unfold PyFloat.as_integer_ratio in H. cbv zeta in H.
    set (m := if PyFloat.fneg f then - PyFloat.fmant f else PyFloat.fmant f) in *.
    set (n0 := if 0 <=? PyFloat.fexpo f then m * 2 ^ PyFloat.fexpo f else m) in *.
    set (d0 := if 0 <=? PyFloat.fexpo f then 1 else 2 ^ (- PyFloat.fexpo f)) in *.
    assert (Hd0 : 0 < d0).
    { subst d0. destruct (Z.leb_spec 0 (PyFloat.fexpo f)); [lia |].
      apply Z.pow_pos_nonneg; lia. }
    injection H as <- <-. apply Z.gcd_div_gcd; [| reflexivity].
    intros Habs. apply Z.gcd_eq_0_r in Habs. lia. }
  destruct (Z.odd n) eqn:Ho; [reflexivity | exfalso].
  rewrite <- Z.negb_even in Ho. apply negb_false_iff in Ho.
  apply Z.even_spec in Ho. destruct Ho as [a Ha].
  assert (H2 : (2 | Z.gcd n (2 ^ j))).
  { apply Z.gcd_greatest.
    - exists a. lia.
    - exists (2 ^ (j - 1)).
      replace (2 ^ j) with (2 ^ Z.succ (j - 1)) by (f_equal; lia).
      rewrite Z.pow_succ_r by lia. lia. }
  rewrite Hg in H2. destruct H2 as [b Hb]. lia.
Qed.

(** A float that is the binary fraction [n / 2^j], within the bound on
    the denominator and the working precision, is rendered exactly. *)
Lemma decimal_to_dozenal_binary_fraction (f : PyFloat.float) (n j frac_precision : Z)
    (ctx : context) :
  PyFloat.as_integer_ratio f = (n, 2 ^ j) ->
  0 <= j <= 29 -> j <= Z.max 28 (frac_precision * 3) - 2 ->
  Z.abs n * 5 ^ j < 10 ^ Z.max 28 (frac_precision * 3) ->
  decimal_to_dozenal (PyFloat f) frac_precision ctx =
    (Ok (render_spec (make (n <? 0) (Z.abs n * 5 ^ j) (- j)) frac_precision),
     mkContext (Z.max 28 (frac_precision * 3))) /\
  Qeq (magnitude (make (n <? 0) (Z.abs n * 5 ^ j) (- j)))
      (Qmake (Z.abs n) (Z.to_pos (2 ^ j))).
Proof.
  intros Hratio Hj HjP Hfit.
  pose proof (as_integer_ratio_odd f n j Hratio ltac:(lia)) as Hodd.
  assert (H2 : 0 < 2 ^ j) by (apply Z.pow_pos_nonneg; lia).
  assert (H5 : 0 < 5 ^ j) by (apply Z.pow_pos_nonneg; lia).
  assert (Hden : 2 ^ j <= 10 ^ 9).
  { apply Z.le_trans with (2 ^ 29); [apply Z.pow_le_mono_r; lia |].
    vm_compute; congruence. }
  apply decimal_to_dozenal_float_exact; try lia.
  - unfold PyFraction.of_float. rewrite Hratio.
    unfold PyFraction.limit_denominator. cbn [PyFraction.denominator].
    destruct (Z.leb_spec (2 ^ j) (10 ^ 9)) as [_ | Habs]; [reflexivity | lia].
  - replace 10 with (5 * 2) by reflexivity.
    rewrite Z.pow_mul_l. lia.
  - destruct (Z.eq_dec j 0) as [-> | Hj0]; [right; reflexivity | left].
    destruct Hodd as [Hn | Habs]; [| contradiction].
    assert (Ha : Z.odd (Z.abs n) = true)
      by (destruct n; [discriminate Hn | exact Hn | exact Hn]).
    assert (Ho : Z.odd (Z.abs n * 5 ^ j) = true).
    { rewrite Z.odd_mul, Ha, Z.odd_pow by lia. reflexivity. }
    intros Hm.
    assert (He : Z.even (Z.abs n * 5 ^ j) = true).
    { apply Z.even_spec. exists (5 * (Z.abs n * 5 ^ j / 10)).
      pose proof (Z.div_mod (Z.abs n * 5 ^ j) 10 ltac:(lia)). lia. }
    rewrite <- Z.negb_even, He in Ho. discriminate Ho.
Qed.

(** C2, as the code has it.  The floats [0.5], [0.25] and [1/12] render
    at precision 6 as "0.6", "0.3" and "0.1"; the float [1/12] is the
    binary64 value 6004799503160661 / 2^56, and
    [limit_denominator(10**9)] recovers the fraction 1/12 from it.  In
    general a float is replaced by the nearest fraction [n / d] with
    [d <= 10^9] and rendered from the Decimal quotient of [n] by [d] at
    the working precision [P = max(28, 3 * frac_precision)].  When
    [n / d] is a finite decimal [m / 10^k] (written without a final
    zero) with at most [P] digits and at most [P - 2] decimal places,
    the quotient is exact and the string is the exact rendering of
    [n / d]: its base-12 digits, ending where the expansion ends.  That
    is the case of the floats that are binary fractions [n / 2^j] with
    [j <= 29] ([2^j <= 10^9], so that the fraction is the float itself)
    within the working precision. *)
Theorem C2_exact_fractions (ctx : context) :
  fst (decimal_to_dozenal (PyFloat (PyFloat.of_ratio 1 2)) 6 ctx) = Ok "0.6" /\
  fst (decimal_to_dozenal (PyFloat (PyFloat.of_ratio 1 4)) 6 ctx) = Ok "0.3" /\
  PyFloat.of_ratio 1 12 = PyFloat.mkFloat false 6004799503160661 (-56) /\
  2 ^ 52 <= 6004799503160661 < 2 ^ 53 /\
  2 * Z.abs (12 * 6004799503160661 - 2 ^ 56) < 12 /\
  PyFraction.limit_denominator (PyFraction.of_float (PyFloat.of_ratio 1 12)) (10 ^ 9) =
  PyFraction.mkFraction 1 12 /\
  fst (decimal_to_dozenal (PyFloat (PyFloat.of_ratio 1 12)) 6 ctx) = Ok "0.1" /\
  (forall (f : PyFloat.float) (n d m k frac_precision : Z),
      PyFraction.limit_denominator (PyFraction.of_float f) (10 ^ 9) =
        PyFraction.mkFraction n d ->
      0 < d -> 0 <= k <= Z.max 28 (frac_precision * 3) - 2 ->
      Z.abs n * 10 ^ k = m * d -> m < 10 ^ Z.max 28 (frac_precision * 3) ->
      m mod 10 <> 0 \/ k = 0 ->
      decimal_to_dozenal (PyFloat f) frac_precision ctx =
        (Ok (render_spec (make (n <? 0) m (- k)) frac_precision),
         mkContext (Z.max 28 (frac_precision * 3))) /\
      Qeq (magnitude (make (n <? 0) m (- k))) (Qmake (Z.abs n) (Z.to_pos d))) /\
  (forall (f : PyFloat.float) (n j frac_precision : Z),
      PyFloat.as_integer_ratio f = (n, 2 ^ j) ->
      0 <= j <= 29 -> j <= Z.max 28 (frac_precision * 3) - 2 ->
      Z.abs n * 5 ^ j < 10 ^ Z.max 28 (frac_precision * 3) ->
      decimal_to_dozenal (PyFloat f) frac_precision ctx =
        (Ok (render_spec (make (n <? 0) (Z.abs n * 5 ^ j) (- j)) frac_precision),
         mkContext (Z.max 28 (frac_precision * 3))) /\
      Qeq (magnitude (make (n <? 0) (Z.abs n * 5 ^ j) (- j)))
          (Qmake (Z.abs n) (Z.to_pos (2 ^ j)))).
Proof.
  do 3 (split; [vm_compute; congruence |]).
  split; [split; vm_compute; congruence |].
  do 3 (split; [vm_compute; congruence |]).
  split.
  - intros f n d m k frac_precision. apply decimal_to_dozenal_float_exact.
  - intros f n j frac_precision. apply decimal_to_dozenal_binary_fraction.
Qed.

(** The float [0.375] is 3/8 = 375 / 10^3 and renders as "0.46"; the
    float [0.3125] is 5/2^4 and renders at precision 1 as "0.3", the
    first digit of 0.39. *)
Lemma C2_exact_fractions_witness :
  decimal_to_dozenal (PyFloat (PyFloat.of_ratio 3 8)) 6 DefaultContext =
    (Ok (render_spec (make false 375 (-3)) 6), mkContext 28) /\
  render_spec (make false 375 (-3)) 6 = "0.46" /\
  decimal_to_dozenal (PyFloat (PyFloat.of_ratio 5 16)) 1 DefaultContext =
    (Ok (render_spec (make false 3125 (-4)) 1), mkContext 28) /\
  render_spec (make false 3125 (-4)) 1 = "0.3".
Proof.
  destruct (C2_exact_fractions DefaultContext) as (_ & _ & _ & _ & _ & _ & _ & H & Hb).
  split; [| split; [reflexivity | split; [| reflexivity]]].
  - refine (proj1 (H (PyFloat.of_ratio 3 8) 3 8 375 3 6 _ _ _ _ _ _)).
    + vm_compute; congruence.
    + lia.
    + vm_compute; split; congruence.
    + reflexivity.
    + vm_compute; congruence.
    + left. vm_compute; congruence.
  - refine (proj1 (Hb (PyFloat.of_ratio 5 16) 5 4 1 _ _ _ _)).
    + vm_compute; congruence.
    + lia.
    + vm_compute; congruence.
    + vm_compute; congruence.
Defined.

(** C2's general sentence fails where the quotient is rounded.  The
    floats nearest to 5/144 (dozenal 0.05) and to 1/36 (dozenal 0.04)
    give back these fractions, the Decimal quotients
    0.03472222222222222222222222222 and 0.02777777777777777777777777778
    are rounded to 28 digits, and the strings at precision 6 are
    "0.04EEEE" and "0.040000". *)
Lemma C2_counterexample :
  PyFraction.limit_denominator (PyFraction.of_float (PyFloat.of_ratio 5 144)) (10 ^ 9) =
    PyFraction.mkFraction 5 144 /\
  fraction_digits_spec 6 (Qmake 5 144) = [0; 5] /\
  fst (decimal_to_dozenal (PyFloat (PyFloat.of_ratio 5 144)) 6 DefaultContext) =
    Ok "0.04EEEE" /\
  PyFraction.limit_denominator (PyFraction.of_float (PyFloat.of_ratio 1 36)) (10 ^ 9) =
    PyFraction.mkFraction 1 36 /\
  fraction_digits_spec 6 (Qmake 1 36) = [0; 4] /\
  fst (decimal_to_dozenal (PyFloat (PyFloat.of_ratio 1 36)) 6 DefaultContext) =
    Ok "0.040000".
Proof. repeat split; vm_compute; congruence. Qed.

(** ** Rendering at a higher precision *)





(** * Expressions without parentheses *)

(** ** Precedence and associativity *)

Lemma pop_higher_pops (o : binop) (ops : list binop) (below : list Token) :
  Forall (fun o' => precedence_of o <= precedence_of o') ops ->
  forall output : list ConvertedToken,
    pop_higher (binop_text o) (map binop_token ops ++ below) output =
    pop_higher (binop_text o) below
      (output ++ map (fun o' => popped_token (binop_token o')) ops)%list.
Proof.
  induction 1 as [| o' ops Ho _ IH]; intros output.
  - cbn [map app]. now rewrite app_nil_r.
  - cbn [map app pop_higher binop_token]. rewrite !lookup_precedence_binop.
    cbn [bind]. destruct (Z.leb_spec (precedence_of o) (precedence_of o')); [| lia].
    fold (binop_token o'). rewrite IH. f_equal. now rewrite <- app_assoc.
Qed.

Lemma pop_all_binops (ops : list binop) :
  forall output : list ConvertedToken,
    pop_all (map binop_token ops) output =
    Ok (output ++ map (fun o' => popped_token (binop_token o')) ops)%list.
Proof.
  induction ops as [| o ops IH]; intros output.
  - cbn [map pop_all]. now rewrite app_nil_r.
  - cbn [map pop_all binop_token token_kind_eqb orb]. fold (binop_token o).
    rewrite IH. f_equal. now rewrite <- app_assoc.
Qed.

Lemma precedence_of_multiplicative (o : binop) :
  precedence_of o = if multiplicative o then 2 else 1.
Proof. now destruct o. Qed.

(** The invariant of the rewrite on such an expression: the stack holds
    the operator of the product being read, if any, above the pending
    [+] or [-], if any, and the output with the operator of the product
    is the postfix form of the closed terms and of the product. *)
Lemma _to_postfix_loop_grouping (rest : list (binop * Decimal)) :
  forall (sum : option (tree * binop)) (term : tree)
         (output : list ConvertedToken) (mults : list binop),
    Forall (fun o => multiplicative o = true) mults ->
    match sum with Some (_, o) => multiplicative o = false | None => True end ->
    (output ++ map (fun o' => popped_token (binop_token o')) mults)%list =
    (match sum with Some (s, _) => postfix_of s | None => [] end ++ postfix_of term)%list ->
    _to_postfix_loop (chain_tokens rest) output
      (map binop_token (mults ++ match sum with Some (_, o) => [o] | None => [] end)) =
    Ok (postfix_of (grouping sum term rest)).
Proof.
  induction rest as [| [o a] rest IH]; intros sum term output mults Hm Hsum Hout.
  - cbn [chain_tokens flat_map _to_postfix_loop grouping].
    rewrite pop_all_binops, map_app, app_assoc, Hout. f_equal.
    destruct sum as [[s os] |]; cbn [close_sum postfix_of map popped_token binop_token fst snd].
    + now rewrite <- app_assoc.
    + now rewrite app_nil_r.
  - cbn [chain_tokens flat_map app _to_postfix_loop grouping].
    fold (chain_tokens rest).
    destruct (multiplicative o) eqn:Eo.
    + (* a product: the operator of the product so far is popped *)
      rewrite map_app, pop_higher_pops.
      2: { eapply Forall_impl; [| exact Hm]. intros o' Ho'. cbn beta in Ho'.
           rewrite !precedence_of_multiplicative, Eo, Ho'. lia. }
      assert (Hstop : pop_higher (binop_text o)
                        (map binop_token match sum with Some (_, o0) => [o0] | None => [] end)
                        (output ++ map (fun o' => popped_token (binop_token o')) mults) =
                      Ok (map binop_token match sum with Some (_, o0) => [o0] | None => [] end,
                          (output ++ map (fun o' => popped_token (binop_token o')) mults)%list)).
      { destruct sum as [[s os] |]; [| reflexivity].
        cbn [map pop_higher binop_token]. rewrite !lookup_precedence_binop. cbn [bind].
        rewrite !precedence_of_multiplicative, Eo, Hsum. reflexivity. }
      rewrite Hstop. cbn [bind].
      change ((operator, binop_text o) ::
              map binop_token match sum with Some (_, o0) => [o0] | None => [] end)
        with (map binop_token ([o] ++ match sum with Some (_, o0) => [o0] | None => [] end)).
      apply IH.
      * constructor; [exact Eo | constructor].
      * exact Hsum.
      * rewrite Hout. cbn [map postfix_of popped_token binop_token fst snd].
        now rewrite <- !app_assoc.
    + (* a sum: the product and the pending sum are closed *)
      match goal with
      | |- context [pop_higher _ (map binop_token ?l) _] =>
          rewrite <- (app_nil_r (map binop_token l))
      end.
      rewrite pop_higher_pops.
      2: { apply Forall_app. split.
           - eapply Forall_impl; [| exact Hm]. intros o' Ho'. cbn beta in Ho'.
             rewrite !precedence_of_multiplicative, Eo, Ho'. lia.
           - destruct sum as [[s os] |]; [| constructor].
             constructor; [| constructor].
             rewrite !precedence_of_multiplicative, Eo, Hsum. lia. }
      cbn [pop_higher bind].
      change [(operator, binop_text o)]
        with (map binop_token ([] ++ match Some (close_sum sum term, o) with
                                     | Some (_, o0) => [o0]
                                     | None => []
                                     end)).
      apply IH.
      * constructor.
      * exact Eo.
      * cbn [map]. rewrite app_nil_r, map_app, app_assoc, Hout.
        destruct sum as [[s os] |];
          cbn [close_sum postfix_of map popped_token binop_token fst snd app];
          rewrite <- ?app_assoc, ?app_nil_r; reflexivity.
Qed.

(** The postfix form and the value of an expression without
    parentheses are those of its grouping. *)
Lemma _to_postfix_grouping (a0 : Decimal) (rest : list (binop * Decimal)) :
  _to_postfix ((number, TDecimal a0) :: chain_tokens rest) =
  Ok (postfix_of (grouping None (Num a0) rest)).
Proof.
  unfold _to_postfix. cbn [_to_postfix_loop app].
  exact (_to_postfix_loop_grouping rest None (Num a0) [(number, TDecimal a0)] []
           (Forall_nil _) I eq_refl).
Qed.

Lemma _evaluate_postfix_tree (e : tree) (ctx : context) :
  _evaluate_postfix (postfix_of e) ctx = eval (prec ctx) e.
Proof.
  unfold _evaluate_postfix. rewrite _evaluate_postfix_loop_tree.
  destruct (eval (prec ctx) e); reflexivity.
Qed.

(** ** The grouping is the tree that precedence and associativity fix *)

Lemma grouping_flat (rest : list (binop * Decimal)) :
  forall (sum : option (tree * binop)) (term : tree) (a : Decimal)
         (xs : list (binop * Decimal)),
    flat (close_sum sum term) = (a, xs) ->
    flat (grouping sum term rest) = (a, (xs ++ rest)%list).
Proof.
  induction rest as [| [o b] rest IH]; intros sum term a xs H.
  - cbn [grouping]. now rewrite app_nil_r.
  - cbn [grouping].
    replace (xs ++ (o, b) :: rest)%list with ((xs ++ [(o, b)]) ++ rest)%list
      by (now rewrite <- app_assoc).
    destruct (multiplicative o); apply IH.
    + destruct sum as [[s os] |]; cbn [close_sum flat] in *.
      * destruct (flat s) as [a1 xs1]. destruct (flat term) as [t0 ts].
        injection H as <- <-. now rewrite <- !app_assoc.
      * destruct (flat term) as [t0 ts]. now injection H as <- <-.
    + cbn [close_sum flat]. now rewrite H.
Qed.

Lemma root_precedence_min (e : tree) : 1 <= root_precedence e.
Proof. destruct e as [d | [] l r]; cbn; lia. Qed.

Lemma grouping_grouped (rest : list (binop * Decimal)) :
  forall (sum : option (tree * binop)) (term : tree),
    grouped term = true -> 2 <= root_precedence term ->
    match sum with
    | Some (s, o) => grouped s = true /\ multiplicative o = false
    | None => True
    end ->
    grouped (grouping sum term rest) = true.
Proof.
  assert (Hclose : forall sum term,
             grouped term = true -> 2 <= root_precedence term ->
             match sum with
             | Some (s, o) => grouped s = true /\ multiplicative o = false
             | None => True
             end ->
             grouped (close_sum sum term) = true).
  { intros [[s os] |] term Ht Hr Hs; cbn [close_sum]; [| exact Ht].
    destruct Hs as [Hs Ho]. cbn [grouped]. rewrite Hs, Ht.
    rewrite precedence_of_multiplicative, Ho.
    pose proof (root_precedence_min s).
    destruct (Z.leb_spec 1 (root_precedence s)); [| lia].
    destruct (Z.ltb_spec 1 (root_precedence term)); [reflexivity | lia]. }
  induction rest as [| [o b] rest IH]; intros sum term Ht Hr Hs.
  - cbn [grouping]. now apply Hclose.
  - cbn [grouping]. destruct (multiplicative o) eqn:Eo; apply IH.
    + cbn [grouped root_precedence]. rewrite Ht.
      rewrite precedence_of_multiplicative, Eo.
      destruct (Z.leb_spec 2 (root_precedence term)); [reflexivity | lia].
    + cbn [root_precedence]. rewrite precedence_of_multiplicative, Eo. lia.
    + exact Hs.
    + reflexivity.
    + cbn [root_precedence]. lia.
    + split; [now apply Hclose | exact Eo].
Qed.

(** A product is read as a product. *)
Lemma grouping_product (t : tree) :
  grouped t = true -> 2 <= root_precedence t ->
  forall (sum : option (tree * binop)) (rest : list (binop * Decimal)),
    grouping sum (Num (fst (flat t))) (snd (flat t) ++ rest) = grouping sum t rest.
Proof.
  induction t as [d | o l IHl r IHr]; intros Hg Hr sum rest; [reflexivity |].
  cbn [grouped root_precedence] in Hg, Hr.
  apply andb_true_iff in Hg as [Hg Hgr]. apply andb_true_iff in Hg as [Hg Hgl].
  apply andb_true_iff in Hg as [Hpl Hpr].
  apply Z.leb_le in Hpl. apply Z.ltb_lt in Hpr.
  assert (Ho : multiplicative o = true).
  { rewrite precedence_of_multiplicative in Hr. destruct (multiplicative o); [reflexivity | lia]. }
  destruct r as [b | o' l' r'].
  2: { cbn [root_precedence] in Hpr. rewrite !precedence_of_multiplicative, Ho in Hpr.
       destruct (multiplicative o'); lia. }
  cbn [flat]. destruct (flat l) as [a xs] eqn:El. cbn [fst snd] in *.
  rewrite <- app_assoc. cbn [app].
  rewrite (IHl Hgl ltac:(lia) sum ((o, b) :: rest)).
  cbn [grouping]. now rewrite Ho.
Qed.

(** A tree that is read without parentheses is the grouping of what it
    reads as. *)
Lemma grouping_unique (t : tree) :
  grouped t = true ->
  forall rest : list (binop * Decimal),
    grouping None (Num (fst (flat t))) (snd (flat t) ++ rest) =
    match t with
    | Bin o l r => if multiplicative o then grouping None t rest
                   else grouping (Some (l, o)) r rest
    | Num _ => grouping None t rest
    end.
Proof.
  induction t as [d | o l IHl r IHr]; intros Hg rest; [reflexivity |].
  destruct (multiplicative o) eqn:Eo.
  - apply grouping_product; [exact Hg |].
    cbn [root_precedence]. rewrite precedence_of_multiplicative, Eo. lia.
  - cbn [grouped] in Hg.
    apply andb_true_iff in Hg as [Hg Hgr]. apply andb_true_iff in Hg as [Hg Hgl].
    apply andb_true_iff in Hg as [Hpl Hpr]. apply Z.ltb_lt in Hpr.
    rewrite precedence_of_multiplicative, Eo in Hpr.
    cbn [flat]. destruct (flat l) as [a xs] eqn:El. destruct (flat r) as [b ys] eqn:Er.
    cbn [fst snd] in *. rewrite <- app_assoc. cbn [app].
    rewrite (IHl Hgl ((o, b) :: ys ++ rest)).
    assert (Hl : match l with
                 | Bin o0 l0 r0 =>
                     if multiplicative o0 then grouping None l ((o, b) :: ys ++ rest)
                     else grouping (Some (l0, o0)) r0 ((o, b) :: ys ++ rest)
                 | Num _ => grouping None l ((o, b) :: ys ++ rest)
                 end = grouping (Some (l, o)) (Num b) (ys ++ rest)).
    { destruct l as [d | o0 l0 r0]; [cbn [grouping close_sum]; now rewrite Eo |].
      destruct (multiplicative o0); cbn [grouping close_sum]; now rewrite Eo. }
    rewrite Hl.
    pose proof (grouping_product r Hgr ltac:(lia) (Some (l, o)) rest) as Hp.
    rewrite Er in Hp. exact Hp.
Qed.

(** The grouping of an expression is the one tree that reads as the
    expression and needs no parentheses. *)
Lemma grouping_spec (a0 : Decimal) (rest : list (binop * Decimal)) (t : tree) :
  t = grouping None (Num a0) rest <-> flat t = (a0, rest) /\ grouped t = true.
Proof.
  split.
  - intros ->. split.
    + exact (grouping_flat rest None (Num a0) a0 [] eq_refl).
    + apply grouping_grouped; [reflexivity | cbn; lia | exact I].
  - intros [Hf Hg]. pose proof (grouping_unique t Hg []) as H.
    rewrite Hf, app_nil_r in H. cbn [fst snd] in H. rewrite H.
    destruct t as [d | o l r]; [reflexivity |].
    destruct (multiplicative o); reflexivity.
Qed.

(** C3. [*] and [/] bind tighter than [+] and [-], and operators of
    equal precedence associate to the left.  For every expression
    without parentheses [b0 o1 b1 o2 b2 ...], of any length and with any
    mix of the four operators, the postfix rewrite is the postfix form of
    its [grouping] and the evaluation is the value of that tree, the
    left operand first.  The grouping is the one tree that reads as the
    expression from left to right and in which the left operand of
    every operator binds at least as tightly as the operator and the
    right operand binds tighter: [a-b*c-d] is [(a-(b*c))-d] and
    [a/b*c+d] is [((a/b)*c)+d].  In
    particular, in a three-operand expression [a o1 b o2 c] the rewrite
    and evaluation group to the left, [(a o1 b) o2 c], when [o1] binds
    at least as tightly as [o2], and to the right, [a o1 (b o2 c)], when
    [o2] binds tighter; a chain of any length of operators of one
    precedence is evaluated from left to right; [calculate("1+2*3")] is
    decimal 7, dozenal "7", and [calculate("1-2*3-4")] is decimal -9,
    dozenal "-9". *)
Theorem C3_operator_precedence (p k : Z) (a0 : Decimal) (rest : list (binop * Decimal)) :
  Forall (fun oa => precedence_of (fst oa) = k) rest ->
  (_to_postfix ((number, TDecimal a0) :: chain_tokens rest) =
     Ok ((number, TDecimal a0) :: chain_postfix rest) /\
   (do postfix <- _to_postfix ((number, TDecimal a0) :: chain_tokens rest);
    _evaluate_postfix postfix (mkContext p)) = fold_chain p a0 rest) /\
  (forall (a b c : Decimal) (o1 o2 : binop),
      (do postfix <- _to_postfix
           [(number, TDecimal a); (operator, TStr (binop_text o1));
            (number, TDecimal b); (operator, TStr (binop_text o2));
            (number, TDecimal c)];
       _evaluate_postfix postfix (mkContext p)) =
      if precedence_of o2 <=? precedence_of o1
      then (do x <- apply_operator p (binop_text o1) a b;
            apply_operator p (binop_text o2) x c)
      else (do y <- apply_operator p (binop_text o2) b c;
            apply_operator p (binop_text o1) a y)) /\
  precedence_of Plus = precedence_of Minus /\
  precedence_of Times = precedence_of Divide /\
  precedence_of Plus < precedence_of Times /\
  _to_postfix [(number, TDecimal (of_int 1)); (operator, TStr "+");
               (number, TDecimal (of_int 2)); (operator, TStr "*");
               (number, TDecimal (of_int 3))] =
  Ok [(number, TDecimal (of_int 1)); (number, TDecimal (of_int 2));
      (number, TDecimal (of_int 3)); (operator, TStr "*"); (operator, TStr "+")] /\
  (forall ctx : context,
      fst (calculate "1+2*3" 12 ctx) = Ok (mkCalculatorResult (of_int 7) "7")) /\
  (forall (b0 : Decimal) (operands : list (binop * Decimal)) (ctx : context),
      _to_postfix ((number, TDecimal b0) :: chain_tokens operands) =
        Ok (postfix_of (grouping None (Num b0) operands)) /\
      (do postfix <- _to_postfix ((number, TDecimal b0) :: chain_tokens operands);
       _evaluate_postfix postfix ctx) =
        eval (prec ctx) (grouping None (Num b0) operands)) /\
  (forall (b0 : Decimal) (operands : list (binop * Decimal)) (t : tree),
      t = grouping None (Num b0) operands <->
      flat t = (b0, operands) /\ grouped t = true) /\
  (forall (o : binop) (a b c d : Decimal),
      multiplicative o = (precedence_of Plus <? precedence_of o) /\
      grouping None (Num a) [(Minus, b); (Times, c); (Minus, d)] =
        Bin Minus (Bin Minus (Num a) (Bin Times (Num b) (Num c))) (Num d) /\
      grouping None (Num a) [(Divide, b); (Times, c); (Plus, d)] =
        Bin Plus (Bin Times (Bin Divide (Num a) (Num b)) (Num c)) (Num d)) /\
  (forall ctx : context,
      fst (calculate "1-2*3-4" 12 ctx) = Ok (mkCalculatorResult (of_int (-9)) "-9")).
Proof.
  intros Hk.
  assert (Hpost : _to_postfix ((number, TDecimal a0) :: chain_tokens rest) =
                  Ok ((number, TDecimal a0) :: chain_postfix rest)).
  { unfold _to_postfix. destruct Hk as [| [o a] rest Ho Hrest]; [reflexivity |].
    cbn [fst] in Ho.
    cbn [chain_tokens chain_postfix flat_map app _to_postfix_loop pop_higher bind].
    fold (chain_tokens rest). fold (chain_postfix rest).
    rewrite (_to_postfix_loop_chain k rest Hrest _ o Ho). reflexivity. }
  split; [split; [exact Hpost |] | split].
  - rewrite Hpost. cbn [bind]. unfold _evaluate_postfix.
    cbn [_evaluate_postfix_loop token_kind_eqb prec].
    rewrite _evaluate_postfix_loop_chain.
    destruct (fold_chain p a0 rest); reflexivity.
  - intros a b c o1 o2.
    destruct o1, o2;
      unfold _to_postfix, _evaluate_postfix, precedence_of, apply_operator;
      cbn -[add sub mul truediv];
      repeat match goal with
             | |- context [truediv ?p ?x ?y] =>
                 destruct (truediv p x y); cbn -[add sub mul truediv]
             end;
      reflexivity.
  - split; [reflexivity |]. split; [reflexivity |]. split; [reflexivity |].
    split; [reflexivity |]. split; [intros ctx; reflexivity |].
    split; [| split; [| split; [| intros ctx; reflexivity]]].
    + intros b0 operands ctx. rewrite _to_postfix_grouping.
      split; [reflexivity |]. cbn [bind]. apply _evaluate_postfix_tree.
    + intros b0 operands t. apply grouping_spec.
    + intros o a b c d. split; [now destruct o | split; reflexivity].
Qed.

Lemma C3_operator_precedence_witness :
  _to_postfix [(number, TDecimal (of_int 9)); (operator, TStr "-");
               (number, TDecimal (of_int 4)); (operator, TStr "+");
               (number, TDecimal (of_int 3)); (operator, TStr "-");
               (number, TDecimal (of_int 1))] =
  Ok [(number, TDecimal (of_int 9)); (number, TDecimal (of_int 4)); (operator, TStr "-");
      (number, TDecimal (of_int 3)); (operator, TStr "+");
      (number, TDecimal (of_int 1)); (operator, TStr "-")].
Proof.
  refine (proj1 (proj1 (C3_operator_precedence 28 1 (of_int 9)
                          [(Minus, of_int 4); (Plus, of_int 3); (Minus, of_int 1)] _))).
  repeat constructor.
Defined.
